(** * freegeoip: the address resolver and the per-client quota

    A shallow embedding of [demos/freegeoip/freegeoip.go]: the handler
    [LookupHandler] (reserved ranges, then a predecessor query on the
    range table), the wrapper [checkQuota] (a memcache counter per
    client address, ceiling 2000, expiry 3600 s) and the handlers of
    the static pages, [IndexHandler] and [StaticHandler].

    Go's own packages ([strconv], [strings], [net], [encoding/binary],
    [database/sql], [unicode/utf8], [regexp], [path/filepath]) and the
    memcache server are modelled only as far as these functions use
    them; each model says which behaviour of the library it stands
    for. *)

From Stdlib Require Import ZArith Lia Bool List Ascii String.
From stdpp Require Import base option list strings gmap.
Import ListNotations.

Local Open Scope string_scope.
Local Open Scope Z_scope.

(** ** Go values *)

(** Go's [error] interface, restricted to the sentinel values the two
    functions can meet.  [ErrFault] stands for every other failure of a
    collaborator (the network, the disk, the resolver). *)
Inductive error : Type :=
  | ErrCacheMiss           (* memcache.ErrCacheMiss *)
  | ErrNotNumeric          (* memcache: incr on a value that is no number *)
  | ErrNoRows              (* sql.ErrNoRows *)
  | ErrSyntax              (* strconv.ErrSyntax *)
  | ErrRange               (* strconv.ErrRange *)
  | ErrEOF                 (* io.EOF *)
  | ErrUnexpectedEOF       (* io.ErrUnexpectedEOF *)
  | ErrUnsupportedValue    (* json.UnsupportedValueError *)
  | ErrFault (msg : string).

#[global] Instance error_eq_dec : EqDecision error.
Proof. solve_decision. Defined.

(** A byte of a Go string, as a number in [0, 256). *)
Definition byte_of (c : ascii) : Z := Z.of_N (Ascii.N_of_ascii c).

(** ** strconv *)

Module strconv.

Definition IntSize : Z := 64.
Definition maxUint64 : Z := 2 ^ 64 - 1.

(** The loop of [ParseUint(s, 10, 64)]: [n] is the value read so far.
    A byte that is no decimal digit is a syntax error with value 0; a
    value that leaves 64 bits is a range error with value [maxUint64],
    reported as soon as it is seen. *)
Fixpoint parse_digits (s : string) (n : Z) : Z * option error :=
  match s with
  | EmptyString => (n, None)
  | String c rest =>
      let b := byte_of c in
      if (48 <=? b) && (b <=? 57) then
        let d := b - 48 in
        if maxUint64 / 10 + 1 <=? n then (maxUint64, Some ErrRange)
        else
          let n10 := n * 10 in
          let n1 := (n10 + d) mod 2 ^ 64 in
          if (n1 <? n10) || (maxUint64 <? n1) then (maxUint64, Some ErrRange)
          else parse_digits rest n1
      else (0, Some ErrSyntax)
  end.

Definition ParseUint (s : string) : Z * option error :=
  match s with
  | EmptyString => (0, Some ErrSyntax)
  | _ => parse_digits s 0
  end.

(** [ParseInt(s, 10, 0)]: an optional sign, then [ParseUint]; a
    magnitude that does not fit the signed range is clamped to the
    extreme of its sign and reported as a range error. *)
Definition ParseInt (s : string) : Z * option error :=
  match s with
  | EmptyString => (0, Some ErrSyntax)
  | String c rest =>
      let neg := bool_decide (c = "-"%char) in
      let s' := if bool_decide (c = "+"%char) || neg then rest else s in
      let '(un, err) := ParseUint s' in
      let cutoff := 2 ^ (IntSize - 1) in
      let failed :=
        match err with
        | Some e => negb (bool_decide (e = ErrRange))
        | None => false
        end in
      if failed then (0, err)
      else
        (* no error, or a range error with [un = maxUint64] *)
        if negb neg && (cutoff <=? un) then (cutoff - 1, Some ErrRange)
        else if neg && (cutoff <? un) then (- cutoff, Some ErrRange)
        else (if neg then - un else un, None)
  end.

(** [func Atoi(s string) (int, error)] is [ParseInt(s, 10, 0)]. *)
Definition Atoi (s : string) : Z * option error := ParseInt s.

(** The decimal text of an unsigned number, as the memcache server
    writes a counter back ([%llu]).  Twenty digits hold 64 bits. *)
Definition digit_char (d : Z) : ascii := Ascii.ascii_of_N (Z.to_N (48 + d)).

Fixpoint utoa_aux (fuel : nat) (n : Z) (acc : string) : string :=
  let acc' := String (digit_char (n mod 10)) acc in
  match fuel with
  | O => acc'
  | S f => if n / 10 =? 0 then acc' else utoa_aux f (n / 10) acc'
  end.

Definition utoa (n : Z) : string := utoa_aux 19 n "".

End strconv.

(** ** strings *)

Module strings.

(** [strings.Split(s, ":")[0]]: the text before the first colon, the
    whole of [s] when it has none.  [Split] with a separator that is
    not empty returns at least one field, so the index is in range. *)
Fixpoint first_field (s : string) : string :=
  match s with
  | EmptyString => EmptyString
  | String c rest =>
      if bool_decide (c = ":"%char) then EmptyString
      else String c (first_field rest)
  end.

End strings.

(** ** net and encoding/binary *)

Module net.

(** [type IP []byte]; the empty list is Go's nil IP. *)
Definition IP : Type := list Z.
Definition IPMask : Type := list Z.

Definition v4InV6Prefix : list Z := [0; 0; 0; 0; 0; 0; 0; 0; 0; 0; 255; 255].

(** [net.IPv4(a, b, c, d)] is the 16-byte form of the address. *)
Definition IPv4 (a b c d : Z) : IP := (v4InV6Prefix ++ [a; b; c; d])%list.
Definition IPv4Mask (a b c d : Z) : IPMask := [a; b; c; d].

Definition isZeros (p : list Z) : bool := forallb (Z.eqb 0) p.

(** [func (ip IP) To4() IP]: the 4-byte form, nil when there is none. *)
Definition To4 (ip : IP) : IP :=
  if (length ip =? 4)%nat then ip
  else if (length ip =? 16)%nat && isZeros (take 10 ip)
          && bool_decide (ip !! 10%nat = Some 255)
          && bool_decide (ip !! 11%nat = Some 255)
  then drop 12 ip
  else [].

Record IPNet : Type := { net_IP : IP; net_Mask : IPMask }.

Definition networkNumberAndMask (n : IPNet) : IP * IPMask :=
  let ip4 := To4 (net_IP n) in
  let ip := if (length ip4 =? 0)%nat then net_IP n else ip4 in
  if (length ip4 =? 0)%nat && negb (length ip =? 16)%nat then ([], [])
  else
    let m := net_Mask n in
    if (length m =? 4)%nat then
      if negb (length ip =? 4)%nat then ([], []) else (ip, m)
    else if (length m =? 16)%nat then
      if (length ip =? 4)%nat then (ip, drop 12 m) else (ip, m)
    else ([], []).

(** The byte loop of [Contains]: every byte agrees under the mask. *)
Fixpoint same_network (nn : IP) (m : IPMask) (ip : IP) : bool :=
  match nn, m, ip with
  | n :: nn', k :: m', x :: ip' =>
      if Z.land n k =? Z.land x k then same_network nn' m' ip' else false
  | _, _, _ => true
  end.

(** [func (n *IPNet) Contains(ip IP) bool]. *)
Definition Contains (n : IPNet) (ip : IP) : bool :=
  let '(nn, m) := networkNumberAndMask n in
  let x := To4 ip in
  let ip := if (length x =? 0)%nat then ip else x in
  if negb (length ip =? length nn)%nat then false
  else same_network nn m ip.

End net.

Module binary.

(** [binary.Read(bytes.NewBuffer(b), binary.BigEndian, &v)] for a
    [uint32] [v] that holds [old]: four bytes are read most
    significant first; with fewer bytes [v] keeps its value and an
    error is returned. *)
Definition Read_uint32 (b : list Z) (old : Z) : Z * option error :=
  match b with
  | b0 :: b1 :: b2 :: b3 :: _ =>
      (Z.lor (Z.lor (Z.lor b3 (Z.shiftl b2 8)) (Z.shiftl b1 16)) (Z.shiftl b0 24), None)
  | [] => (old, Some ErrEOF)
  | _ => (old, Some ErrUnexpectedEOF)
  end.

End binary.

(** ** The program's data *)

(** API limits *)
Definition maxRequestsPerIP : Z := 2000.
Definition expirySeconds : Z := 3600.

(** A [float32], held as its IEEE-754 bit pattern; the program never
    computes with one.  The zero value is the pattern 0. *)
Definition float32 : Type := Z.

Record GeoIP : Type := {
  XMLName : string * string;
  Ip : string;
  CountryCode : string;
  CountryName : string;
  RegionCode : string;
  RegionName : string;
  CityName : string;
  ZipCode : string;
  Latitude : float32;
  Longitude : float32;
  MetroCode : string;
  AreaCode : string
}.

#[global] Instance GeoIP_eq_dec : EqDecision GeoIP.
Proof. solve_decision. Defined.

(** [GeoIP{Ip: addr}]: every other field at its zero value. *)
Definition GeoIP_of_addr (addr : string) : GeoIP :=
  {| XMLName := ("", ""); Ip := addr; CountryCode := ""; CountryName := "";
     RegionCode := ""; RegionName := ""; CityName := ""; ZipCode := "";
     Latitude := 0; Longitude := 0; MetroCode := ""; AreaCode := "" |}.

(** http://en.wikipedia.org/wiki/Reserved_IP_addresses *)
Definition reservedIPs : list net.IPNet :=
  let N ip mask := {| net.net_IP := ip; net.net_Mask := mask |} in
  [ N (net.IPv4 0 0 0 0)         (net.IPv4Mask 255 0 0 0);
    N (net.IPv4 0 0 0 0)         (net.IPv4Mask 255 0 0 0);
    N (net.IPv4 10 0 0 0)        (net.IPv4Mask 255 192 0 0);
    N (net.IPv4 100 64 0 0)      (net.IPv4Mask 255 0 0 0);
    N (net.IPv4 127 0 0 0)       (net.IPv4Mask 255 0 0 0);
    N (net.IPv4 169 254 0 0)     (net.IPv4Mask 255 255 0 0);
    N (net.IPv4 172 16 0 0)      (net.IPv4Mask 255 240 0 0);
    N (net.IPv4 192 0 0 0)       (net.IPv4Mask 255 255 255 248);
    N (net.IPv4 192 0 2 0)       (net.IPv4Mask 255 255 255 0);
    N (net.IPv4 192 88 99 0)     (net.IPv4Mask 255 255 255 0);
    N (net.IPv4 192 168 0 0)     (net.IPv4Mask 255 255 0 0);
    N (net.IPv4 198 18 0 0)      (net.IPv4Mask 255 254 0 0);
    N (net.IPv4 198 51 100 0)    (net.IPv4Mask 255 255 255 0);
    N (net.IPv4 203 0 113 0)     (net.IPv4Mask 255 255 255 0);
    N (net.IPv4 224 0 0 0)       (net.IPv4Mask 240 0 0 0);
    N (net.IPv4 240 0 0 0)       (net.IPv4Mask 240 0 0 0);
    N (net.IPv4 255 255 255 255) (net.IPv4Mask 255 255 255 255) ].

(** ** database/sql: the range table *)

Module sql.

(** A row of the statement's FROM clause: a block of [city_blocks]
    joined with its location, country name and region name, reduced to
    [ip_start] and the ten columns the statement selects.  The joins
    are inner joins: a block without a matching location, country or
    region has no row here.  The two reals are given as the [float32]
    that [Scan] stores. *)
Record Row : Type := {
  ip_start : Z;
  country_code : string;
  country_name : string;
  region_code : string;
  region_name : string;
  city_name : string;
  postal_code : string;
  latitude : float32;
  longitude : float32;
  metro_code : string;
  area_code : string
}.

(** The handle [*sql.DB] as the handler meets it: whether [Prepare]
    fails, whether running the statement fails (an I/O error, a column
    that cannot be scanned), and the joined rows. *)
Record DB : Type := {
  prepare_fault : option string;
  query_fault : option string;
  rows : list Row
}.

(** WHERE city_blocks.ip_start <= ? *)
Definition where_le (x : Z) (l : list Row) : list Row :=
  List.filter (fun r => ip_start r <=? x) l.

(** ORDER BY city_blocks.ip_start DESC, as a stable insertion sort
    (SQL leaves the order of equal keys open). *)
Fixpoint insert_desc (r : Row) (l : list Row) : list Row :=
  match l with
  | [] => [r]
  | h :: t =>
      if ip_start h <=? ip_start r then r :: l else h :: insert_desc r t
  end.

Definition order_desc (l : list Row) : list Row := fold_right insert_desc [] l.

(** LIMIT 1 *)
Definition limit_1 (l : list Row) : option Row := head l.

Definition select (x : Z) (l : list Row) : option Row :=
  limit_1 (order_desc (where_le x l)).

Definition Prepare (db : DB) : option error :=
  ErrFault <$> prepare_fault db.

(** [stmt.QueryRow(x)] followed by [Scan]: the row, [ErrNoRows] when
    the statement yields none, the failure otherwise. *)
Definition QueryRow (db : DB) (x : Z) : Row + error :=
  match query_fault db with
  | Some m => inr (ErrFault m)
  | None =>
      match select x (rows db) with
      | Some r => inl r
      | None => inr ErrNoRows
      end
  end.

(** What the handler does with the database, in order. *)
Inductive Op : Type :=
  | OpPrepare (q : string)
  | OpQueryRow (arg : Z)
  | OpClose.

End sql.

(** [Scan] into the ten fields of [geoip], in the order of the call. *)
Definition Scan (r : sql.Row) (geoip : GeoIP) : GeoIP :=
  {| XMLName := XMLName geoip; Ip := Ip geoip;
     CountryCode := sql.country_code r; CountryName := sql.country_name r;
     RegionCode := sql.region_code r; RegionName := sql.region_name r;
     CityName := sql.city_name r; ZipCode := sql.postal_code r;
     Latitude := sql.latitude r; Longitude := sql.longitude r;
     MetroCode := sql.metro_code r; AreaCode := sql.area_code r |}.

(** ** memcache *)

Module memcache.

(** [memcache.Item], the fields the program uses. *)
Record Item : Type := { Key : string; Value : string; Expiration : Z }.

(** What the server keeps under a key: the data and the absolute time
    at which it expires, if any. *)
Record Entry : Type := { data : string; deadline : option Z }.

#[global] Instance Entry_eq_dec : EqDecision Entry.
Proof. solve_decision. Defined.

Definition fresh (now : Z) (e : Entry) : bool :=
  match deadline e with
  | None => true
  | Some d => now <? d
  end.

(** The entry a request at time [now] can see. *)
Definition find (now : Z) (s : gmap string Entry) (k : string) : option Entry :=
  match s !! k with
  | Some e => if fresh now e then Some e else None
  | None => None
  end.

(** An expiration of 0 never expires; up to thirty days it is relative
    to the time of the write; beyond it is an absolute time. *)
Definition deadline_of (now exp : Z) : option Z :=
  if exp =? 0 then None
  else if exp <=? 60 * 60 * 24 * 30 then Some (now + exp)
  else Some exp.

(** The three calls.  [fault] is [Some m] when the client cannot
    complete the call (no server, a timeout, a malformed key): the
    store is then left as it is. *)
Definition Get (fault : option string) (now : Z) (s : gmap string Entry)
    (k : string) : option Item * option error :=
  match fault with
  | Some m => (None, Some (ErrFault m))
  | None =>
      match find now s k with
      | Some e => (Some {| Key := k; Value := data e; Expiration := 0 |}, None)
      | None => (None, Some ErrCacheMiss)
      end
  end.

(** [Set] (here [Set_]: Set is reserved) writes unconditionally. *)
Definition Set_ (fault : option string) (now : Z) (s : gmap string Entry)
    (it : Item) : option error * gmap string Entry :=
  match fault with
  | Some m => (Some (ErrFault m), s)
  | None =>
      (None, <[Key it := {| data := Value it;
                            deadline := deadline_of now (Expiration it) |}]> s)
  end.

(** The number a stored value stands for, for the server's [incr]:
    the decimal representation of a 64-bit unsigned integer. *)
Definition number (v : string) : option Z :=
  match strconv.ParseUint v with
  | (n, None) => Some n
  | _ => None
  end.

(** [Increment] is one atomic command of the server: the value must
    be a decimal number, the sum wraps at 64 bits, the expiry stays. *)
Definition Increment (fault : option string) (now : Z) (s : gmap string Entry)
    (k : string) (delta : Z) : (Z * option error) * gmap string Entry :=
  match fault with
  | Some m => ((0, Some (ErrFault m)), s)
  | None =>
      match find now s k with
      | None => ((0, Some ErrCacheMiss), s)
      | Some e =>
          match number (data e) with
          | None => ((0, Some ErrNotNumeric), s)
          | Some n =>
              let n' := (n + delta) mod 2 ^ 64 in
              ((n', None),
               <[k := {| data := strconv.utoa n'; deadline := deadline e |}]> s)
          end
      end
  end.

End memcache.

(** ** Requests, replies and the world a handler runs in *)

(** [web.RequestHandler], the parts read here: the groups of the route's
    pattern, the peer's address and the [callback] query parameter. *)
Record Request : Type := {
  Vars : list string;
  RemoteAddr : string;
  callback : string
}.

(** What [req.Write] is given: the format and the record it prints. *)
Inductive Body : Type :=
  | CSV (g : GeoIP)
  | JSON (g : GeoIP)
  | JSONP (cb : string) (g : GeoIP)
  | XML (g : GeoIP).

#[global] Instance Body_eq_dec : EqDecision Body.
Proof. solve_decision. Defined.

(** How a handler ends. *)
Inductive Reply : Type :=
  | HTTPError (code : Z) (err : option error)  (* req.HTTPError(code, err); return *)
  | Wrote (b : Body)                           (* req.Write(...) *)
  | Returned                                   (* nothing written *)
  | Panicked.                                  (* a run-time panic *)

#[global] Instance Reply_eq_dec : EqDecision Reply.
Proof. solve_decision. Defined.

(** The state outside the handler: the memcache server's entries, its
    clock, the fate of the next memcache calls ([Some m]: the call
    fails; the empty list: every call gets through), the headers set on
    the response, the database operations done so far, and the deferred
    calls of the running function. *)
Record World : Type := {
  cache : gmap string memcache.Entry;
  clock : Z;
  outages : list (option string);
  hdrs : list (string * string);
  dbops : list sql.Op;
  deferred : list sql.Op
}.

Definition with_cache (s : gmap string memcache.Entry) (w : World) : World :=
  {| cache := s; clock := clock w; outages := outages w; hdrs := hdrs w;
     dbops := dbops w; deferred := deferred w |}.
Definition with_clock (t : Z) (w : World) : World :=
  {| cache := cache w; clock := t; outages := outages w; hdrs := hdrs w;
     dbops := dbops w; deferred := deferred w |}.
Definition with_outages (o : list (option string)) (w : World) : World :=
  {| cache := cache w; clock := clock w; outages := o; hdrs := hdrs w;
     dbops := dbops w; deferred := deferred w |}.
Definition with_hdrs (h : list (string * string)) (w : World) : World :=
  {| cache := cache w; clock := clock w; outages := outages w; hdrs := h;
     dbops := dbops w; deferred := deferred w |}.
Definition with_dbops (o : list sql.Op) (w : World) : World :=
  {| cache := cache w; clock := clock w; outages := outages w; hdrs := hdrs w;
     dbops := o; deferred := deferred w |}.
Definition with_deferred (d : list sql.Op) (w : World) : World :=
  {| cache := cache w; clock := clock w; outages := outages w; hdrs := hdrs w;
     dbops := dbops w; deferred := d |}.

(** A stretch of handler code: it either goes on with a value or leaves
    the handler with a reply. *)
Definition Act (A : Type) : Type := World -> (A + Reply) * World.

#[global] Instance Act_ret : MRet Act := fun A x w => (inl x, w).
#[global] Instance Act_bind : MBind Act := fun A B f m w =>
  match m w with
  | (inl x, w') => f x w'
  | (inr r, w') => (inr r, w')
  end.

Definition leave {A : Type} (r : Reply) : Act A := fun w => (inr r, w).

(** A call that cannot leave the handler. *)
Definition lift {A : Type} (f : World -> A * World) : Act A :=
  fun w => let '(x, w') := f w in (inl x, w').

Definition SetHeader (k v : string) : Act unit :=
  fun w => (inl tt, with_hdrs (hdrs w ++ [(k, v)])%list w).

Definition db_log (o : sql.Op) : Act unit :=
  fun w => (inl tt, with_dbops (dbops w ++ [o])%list w).

Definition defer (o : sql.Op) : Act unit :=
  fun w => (inl tt, with_deferred (o :: deferred w) w).

(** A handler function: its body, then its deferred calls, last first. *)
Definition run_handler (body : Act unit) (w : World) : Reply * World :=
  let '(r, w') := body (with_deferred [] w) in
  let w'' := with_deferred (deferred w)
               (with_dbops (dbops w' ++ deferred w')%list w') in
  (match r with inl _ => Returned | inr r => r end, w'').

(** The memcache calls of the client [mc], each taking the next entry of
    [outages]. *)
Definition next_outage (w : World) : option string * World :=
  match outages w with
  | [] => (None, w)
  | f :: rest => (f, with_outages rest w)
  end.

Definition mc_Get (k : string) (w : World)
    : (option memcache.Item * option error) * World :=
  let '(f, w) := next_outage w in
  (memcache.Get f (clock w) (cache w) k, w).

Definition mc_Set (it : memcache.Item) (w : World) : option error * World :=
  let '(f, w) := next_outage w in
  let '(err, s) := memcache.Set_ f (clock w) (cache w) it in
  (err, with_cache s w).

Definition mc_Increment (k : string) (delta : Z) (w : World)
    : (Z * option error) * World :=
  let '(f, w) := next_outage w in
  let '(res, s) := memcache.Increment f (clock w) (cache w) k delta in
  (res, with_cache s w).

(** ** LookupHandler *)

Definition lookup_query : string :=
  "SELECT " ++
  "  city_location.country_code, country_blocks.country_name, " ++
  "  city_location.region_code, region_names.region_name, " ++
  "  city_location.city_name, city_location.postal_code, " ++
  "  city_location.latitude, city_location.longitude, " ++
  "  city_location.metro_code, city_location.area_code " ++
  "FROM city_blocks " ++
  "  NATURAL JOIN city_location " ++
  "  INNER JOIN country_blocks ON " ++
  "    city_location.country_code = country_blocks.country_code " ++
  "  INNER JOIN region_names ON " ++
  "    city_location.country_code = region_names.country_code " ++
  "    AND " ++
  "    city_location.region_code = region_names.region_code " ++
  "WHERE city_blocks.ip_start <= ? " ++
  "ORDER BY city_blocks.ip_start DESC LIMIT 1".

Definition set_country (cc cn : string) (g : GeoIP) : GeoIP :=
  {| XMLName := XMLName g; Ip := Ip g; CountryCode := cc; CountryName := cn;
     RegionCode := RegionCode g; RegionName := RegionName g;
     CityName := CityName g; ZipCode := ZipCode g;
     Latitude := Latitude g; Longitude := Longitude g;
     MetroCode := MetroCode g; AreaCode := AreaCode g |}.

(** The loop over [reservedIPs] with its [break]. *)
Definition is_reserved (ip : net.IP) : bool :=
  existsb (fun n => net.Contains n ip) reservedIPs.

(** The number bound to the statement's parameter: [uintIP] starts at
    0, and the error of [binary.Read] is dropped. *)
Definition numeric (ip : net.IP) : Z :=
  (binary.Read_uint32 (net.To4 ip) 0).1.

(** [json.Marshal] refuses a float that is infinite or no number: the
    exponent bits of the [float32] are all ones. *)
Definition finite32 (f : float32) : bool :=
  negb (Z.land (Z.shiftr f 23) 255 =? 255).

Definition json_Marshal (g : GeoIP) : option error :=
  if finite32 (Latitude g) && finite32 (Longitude g) then None
  else Some ErrUnsupportedValue.

Section Handlers.

(** [net.ParseIP] and [net.LookupHost], given by the Go library and
    the resolver of the host. *)
Variable ParseIP : string -> net.IP.
Variable LookupHost : string -> list string * option error.

(** Lines 67-77: the address the lookup is about. *)
Definition resolve_addr (req : Request) (addr : string) : Act string :=
  if bool_decide (addr = "") then
    mret (strings.first_field (RemoteAddr req))
  else
    let '(addrs, err) := LookupHost addr in
    match err with
    | Some e => leave (HTTPError 400 (Some e))
    | None =>
        match addrs with
        | a :: _ => mret a
        | [] => leave Panicked      (* addrs[0], index out of range *)
        end
    end.

(** Lines 79-137: the record for [addr]. *)
Definition Lookup (db : sql.DB) (addr : string) : Act GeoIP :=
  let IP := ParseIP addr in
  let geoip := GeoIP_of_addr addr in
  let reserved := is_reserved IP in
  if reserved then
    mret (set_country "RD" "Reserved" geoip)
  else
    db_log (sql.OpPrepare lookup_query);;
    match sql.Prepare db with
    | Some e => leave (HTTPError 404 (Some e))
    | None =>
        defer sql.OpClose;;
        let uintIP := numeric IP in
        db_log (sql.OpQueryRow uintIP);;
        match sql.QueryRow db uintIP with
        | inr e => leave (HTTPError 500 (Some e))
        | inl r => mret (Scan r geoip)
        end
    end.

(** Lines 139-173: the switch on the first byte of the format.  Of the
    two marshallers only [json.Marshal] can fail on this record. *)
Definition render (req : Request) (format : string) (geoip : GeoIP) : Act unit :=
  match format with
  | EmptyString => leave Panicked   (* format[0], index out of range *)
  | String c _ =>
      if bool_decide (c = "c"%char) then
        SetHeader "Content-Type" "application/csv";;
        leave (Wrote (CSV geoip))
      else if bool_decide (c = "j"%char) then
        match json_Marshal geoip with
        | Some e => leave (HTTPError 500 (Some e))
        | None =>
            if negb (bool_decide (callback req = "")) then
              SetHeader "Content-Type" "text/javascript";;
              leave (Wrote (JSONP (callback req) geoip))
            else
              SetHeader "Content-Type" "application/json";;
              leave (Wrote (JSON geoip))
        end
      else if bool_decide (c = "x"%char) then
        SetHeader "Content-Type" "application/xml";;
        leave (Wrote (XML geoip))
      else mret tt
  end.

Definition LookupHandler (req : Request) (db : sql.DB) : World -> Reply * World :=
  run_handler
    (match Vars req !! 1%nat, Vars req !! 2%nat with
     | Some format, Some addr =>
         addr ← resolve_addr req addr;
         geoip ← Lookup db addr;
         render req format geoip
     | _, _ => leave Panicked       (* req.Vars[i], index out of range *)
     end).

End Handlers.

(** ** checkQuota *)

(** Lines 181-201, the part of the closure that decides.  It goes on
    (to [fn]) or leaves with 503 or 403. *)
Definition quota (k : string) : Act unit :=
  '(el, err) ← lift (mc_Get k);
  err ← (if bool_decide (err = Some ErrCacheMiss) then
           lift (mc_Set {| memcache.Key := k; memcache.Value := "1";
                           memcache.Expiration := expirySeconds |})
         else mret err);
  match err with
  | Some e => leave (HTTPError 503 (Some e))
  | None =>
      match el with
      | Some it =>
          let count := (strconv.Atoi (memcache.Value it)).1 in
          if count <? maxRequestsPerIP then
            lift (mc_Increment k 1);; mret tt
          else leave (HTTPError 403 None)
      | None => mret tt
      end
  end.

(** The call [fn(req, db)], the closure's last statement. *)
Definition call (h : World -> Reply * World) : Act unit :=
  fun w => let '(r, w') := h w in (inr r, w').

Definition checkQuota (db : sql.DB)
    (fn : Request -> sql.DB -> World -> Reply * World)
    (req : Request) : World -> Reply * World :=
  run_handler
    (SetHeader "Access-Control-Allow-Origin" "*";;
     let k := strings.first_field (RemoteAddr req) in
     quota k;;
     call (fn req db)).   (* do the lookup *)

(** The three ways [quota] ends, in the words of the limiter's
    contract: going on to [fn] is [Allowed], leaving with 403 is
    [Denied], leaving with 503 and the store's error is
    [BackendUnavailable]. *)
Inductive Verdict : Type :=
  | Allowed
  | Denied
  | BackendUnavailable (e : error)
  | OtherReply (r : Reply).

#[global] Instance Verdict_eq_dec : EqDecision Verdict.
Proof. solve_decision. Defined.

Definition verdict (x : unit + Reply) : Verdict :=
  match x with
  | inl _ => Allowed
  | inr (HTTPError 403 None) => Denied
  | inr (HTTPError 503 (Some e)) => BackendUnavailable e
  | inr r => OtherReply r
  end.

Definition quota_verdict (k : string) (w : World) : Verdict * World :=
  let '(x, w') := quota k w in (verdict x, w').

(** Calls one after the other for the same key, the i-th at the i-th
    time of [times]. *)
Fixpoint quota_verdicts (k : string) (times : list Z) (w : World) : list Verdict * World :=
  match times with
  | [] => ([], w)
  | t :: rest =>
      let '(v, w1) := quota_verdict k (with_clock t w) in
      let '(vs, w2) := quota_verdicts k rest w1 in
      (v :: vs, w2)
  end.

(** The count a read at the world's time would find under [k]. *)
Definition counter (k : string) (w : World) : option string :=
  memcache.data <$> memcache.find (clock w) (cache w) k.

(** ** Requests in flight at the same time

    Each request runs [quota] for the same key; the calls to the server
    are the atomic steps, and between two of them a request only
    computes on what it has read.  A request is at one of these points. *)
Inductive Pc : Type :=
  | AtGet                 (* before mc.Get *)
  | AtSet                 (* Get missed; before mc.Set *)
  | AtIncrement           (* Get found a count below the ceiling; before mc.Increment *)
  | Done (v : Verdict).

#[global] Instance Pc_eq_dec : EqDecision Pc.
Proof. solve_decision. Defined.

(** One call to the server and the code up to the next one. *)
Definition thread_step (k : string) (pc : Pc) (w : World) : Pc * World :=
  match pc with
  | AtGet =>
      let '((el, err), w') := mc_Get k w in
      if bool_decide (err = Some ErrCacheMiss) then (AtSet, w')
      else
        match err with
        | Some e => (Done (BackendUnavailable e), w')
        | None =>
            match el with
            | Some it =>
                if (strconv.Atoi (memcache.Value it)).1 <? maxRequestsPerIP
                then (AtIncrement, w')
                else (Done Denied, w')
            | None => (Done Allowed, w')
            end
        end
  | AtSet =>
      let '(err, w') :=
        mc_Set {| memcache.Key := k; memcache.Value := "1";
                  memcache.Expiration := expirySeconds |} w in
      match err with
      | Some e => (Done (BackendUnavailable e), w')
      | None => (Done Allowed, w')
      end
  | AtIncrement =>
      let '(_, w') := mc_Increment k 1 w in (Done Allowed, w')
  | Done v => (Done v, w)
  end.

(** The requests and the world they share. *)
Definition Config : Type := list Pc * World.

(** Request [i] takes its next step. *)
Definition sched_step (k : string) (c : Config) (i : nat) : Config :=
  match c.1 !! i with
  | Some pc =>
      let '(pc', w') := thread_step k pc c.2 in (<[i := pc']> c.1, w')
  | None => c
  end.

(** A schedule names the request that moves at each step. *)
Definition run_schedule (k : string) (sched : list nat) (c : Config) : Config :=
  fold_left (sched_step k) sched c.

Definition is_done (pc : Pc) : bool :=
  match pc with Done _ => true | _ => false end.

Definition empty_world : World :=
  {| cache := ∅; clock := 0; outages := []; hdrs := []; dbops := []; deferred := [] |}.

(** The record a body prints. *)
Definition record_of (b : Body) : GeoIP :=
  match b with
  | CSV g | JSON g | JSONP _ g | XML g => g
  end.

(** The status code of a reply, and whether it blames the client. *)
Definition status (r : Reply) : option Z :=
  match r with
  | HTTPError code _ => Some code
  | Wrote _ | Returned => Some 200
  | Panicked => None
  end.

Definition client_error (r : Reply) : bool :=
  match status r with
  | Some code => (400 <=? code) && (code <? 500)
  | None => false
  end.

(** [r] is a row of [l] with the greatest [ip_start] not above [x]. *)
Definition predecessor (l : list sql.Row) (x : Z) (r : sql.Row) : Prop :=
  In r l /\ sql.ip_start r <= x /\
  forall r', In r' l -> sql.ip_start r' <= x -> sql.ip_start r' <= sql.ip_start r.

(** Whether a text is free of colons. *)
Fixpoint no_colon (s : string) : bool :=
  match s with
  | EmptyString => true
  | String c rest => negb (bool_decide (c = ":"%char)) && no_colon rest
  end.

(** The count the limiter would read under [k]: what [Atoi] makes of
    the stored text, 0 when there is no entry. *)
Definition count_of (k : string) (w : World) : Z :=
  match counter k w with
  | Some v => (strconv.Atoi v).1
  | None => 0
  end.

(** The number a text of decimal digits stands for, read off the
    digits with no regard to the conversions of the program: [None]
    for the empty text and for a text with any byte that is no
    digit. *)
Fixpoint decimal_from (s : string) (acc : Z) : option Z :=
  match s with
  | EmptyString => Some acc
  | String c rest =>
      let b := byte_of c in
      if (48 <=? b) && (b <=? 57) then decimal_from rest (10 * acc + (b - 48))
      else None
  end.

Definition decimal (s : string) : option Z :=
  match s with
  | EmptyString => None
  | _ => decimal_from s 0
  end.

(** [v] is the decimal numeral of [c] as a server writes a number:
    digits that say [c], with no zero in front. *)
Definition numeral (v : string) (c : Z) : Prop :=
  decimal v = Some c
  /\ (v = "0" \/ exists d rest, v = String d rest /\ d <> "0"%char).

(** The requests that have finished. *)
Definition count_done (ps : list Pc) : nat := length (List.filter is_done ps).

(** Where a request that is allowed stands after its next step, when
    the key is there and below the ceiling. *)
Definition advance (pc : Pc) : Pc :=
  match pc with
  | AtGet => AtIncrement
  | AtIncrement => Done Allowed
  | pc => pc
  end.

Definition advance_at (ps : list Pc) (i : nat) : list Pc :=
  match ps !! i with
  | Some pc => <[i := advance pc]> ps
  | None => ps
  end.

(** Every request moves once, in turn, and then once more. *)
Definition round_robin (M : nat) : list nat := (seq 0 M ++ seq 0 M)%list.

(** The first row of a list is one of its greatest. *)
Definition head_greatest (l : list sql.Row) : Prop :=
  forall h, head l = Some h ->
  forall x, In x l -> sql.ip_start x <= sql.ip_start h.

(** The world after [Prepare] alone, and after [Prepare] and [QueryRow]
    with the statement's [Close] deferred. *)
Definition after_prepare (w : World) : World :=
  with_dbops (dbops w ++ [sql.OpPrepare lookup_query])%list w.

Definition after_query (x : Z) (w : World) : World :=
  with_dbops (dbops w ++ [sql.OpPrepare lookup_query; sql.OpQueryRow x])%list
    (with_deferred (sql.OpClose :: deferred w) w).

(** A request that will be allowed is before the read, before the
    increment, or done and allowed. *)
Definition on_track (pc : Pc) : Prop :=
  pc = AtGet \/ pc = AtIncrement \/ pc = Done Allowed.

(** What every reachable configuration satisfies: no outage, the
    entry alive, and the counter a decimal numeral for the first count
    plus the number of requests that are done. *)
Definition counted (k : string) (e : memcache.Entry) (c : Z) (M : nat)
    (cf : Config) : Prop :=
  outages cf.2 = []
  /\ memcache.fresh (clock cf.2) e = true
  /\ length cf.1 = M
  /\ Forall on_track cf.1
  /\ exists v,
       cache cf.2 !! k
       = Some {| memcache.data := v; memcache.deadline := memcache.deadline e |}
       /\ decimal v = Some (c + Z.of_nat (count_done cf.1)).

(** A request that has read a count below the ceiling and has not yet
    sent its increment. *)
Definition is_pending (pc : Pc) : bool :=
  match pc with AtIncrement => true | _ => false end.

Definition pending (ps : list Pc) : nat := length (List.filter is_pending ps).

(** The number the server holds under [k], the one its [incr] adds
    to: 0 when there is no live entry or its value is no number. *)
Definition number_at (k : string) (w : World) : Z :=
  match counter k w with
  | Some v => default 0 (memcache.number v)
  | None => 0
  end.

(** The greatest number of pending requests along a run. *)
Fixpoint most_pending (k : string) (sched : list nat) (c : Config) : nat :=
  match sched with
  | [] => pending c.1
  | i :: rest => Nat.max (pending c.1) (most_pending k rest (sched_step k c i))
  end.

(** What shows that the handler has looked up the address [a]: the
    record of a body it writes echoes [a] and is the reserved record
    or carries the columns of a predecessor row for the number of
    [a]; an error it replies with has status 404 or 500; and the
    database is left alone for a reserved address, asked to prepare
    the statement otherwise and, once that is prepared, queried once
    with the number of [a] and closed. *)
Definition looked_up (ParseIP : string -> net.IP) (db : sql.DB) (a : string)
    (w : World) (out : Reply * World) : Prop :=
  (forall b, out.1 = Wrote b ->
     if is_reserved (ParseIP a) then
       record_of b
       = {| XMLName := ("", ""); Ip := a;
            CountryCode := "RD"; CountryName := "Reserved";
            RegionCode := ""; RegionName := ""; CityName := ""; ZipCode := "";
            Latitude := 0; Longitude := 0; MetroCode := ""; AreaCode := "" |}
     else
       exists r, predecessor (sql.rows db) (numeric (ParseIP a)) r
                 /\ record_of b
                    = {| XMLName := ("", ""); Ip := a;
                         CountryCode := sql.country_code r;
                         CountryName := sql.country_name r;
                         RegionCode := sql.region_code r;
                         RegionName := sql.region_name r;
                         CityName := sql.city_name r;
                         ZipCode := sql.postal_code r;
                         Latitude := sql.latitude r;
                         Longitude := sql.longitude r;
                         MetroCode := sql.metro_code r;
                         AreaCode := sql.area_code r |})
  /\ (forall code err, out.1 = HTTPError code err -> code = 404 \/ code = 500)
  /\ dbops out.2
     = (dbops w
        ++ (if is_reserved (ParseIP a) then []
            else sql.OpPrepare lookup_query
                 :: match sql.prepare_fault db with
                    | Some _ => []
                    | None => [sql.OpQueryRow (numeric (ParseIP a)); sql.OpClose]
                    end))%list.

(** What [render] replies and which headers it sets, read off a run
    in the empty world. *)
Definition rendered (req : Request) (format : string) (g : GeoIP)
    : (unit + Reply) * list (string * string) :=
  let '(x, w') := render req format g empty_world in (x, hdrs w').

(** How a handler body that has run to its end replies. *)
Definition reply_of (x : unit + Reply) : Reply :=
  match x with
  | inl _ => Returned
  | inr r => r
  end.

(** The format a body is written in and the media type it is sent
    with. *)
Definition format_of (b : Body) : string :=
  match b with
  | CSV _ => "csv"
  | JSON _ | JSONP _ _ => "json"
  | XML _ => "xml"
  end.

Definition content_type_of (b : Body) : string :=
  match b with
  | CSV _ => "application/csv"
  | JSON _ => "application/json"
  | JSONP _ _ => "text/javascript"
  | XML _ => "application/xml"
  end.

(** The world after a prepared statement has been queried and closed. *)
Definition after_close (x : Z) (w : World) : World :=
  with_dbops (dbops w ++ [sql.OpPrepare lookup_query; sql.OpQueryRow x; sql.OpClose])%list w.

(** The part of the world the quota works on: the server's entries,
    the clock and the outages, with an empty response. *)
Definition store_world (w : World) : World :=
  {| cache := cache w; clock := clock w; outages := outages w;
     hdrs := []; dbops := []; deferred := [] |}.

(** A world rebuilt from what [quota] works on and the rest. *)
Definition graft (s w : World) : World :=
  with_cache (cache s) (with_outages (outages s) w).

(** ** unicode/utf8, regexp and path/filepath *)

Module utf8.

Definition RuneError : Z := 65533.            (* U+FFFD *)

(** What the first byte of an encoding announces (the tables [first]
    and [acceptRanges]): the length of the encoding and the range its
    second byte must lie in.  [None]: no encoding of two bytes or more
    starts with this byte. *)
Definition first (b0 : Z) : option (nat * Z * Z) :=
  if (194 <=? b0) && (b0 <=? 223) then Some (2%nat, 128, 191)      (* C2-DF *)
  else if b0 =? 224 then Some (3%nat, 160, 191)                    (* E0 *)
  else if (225 <=? b0) && (b0 <=? 236) then Some (3%nat, 128, 191) (* E1-EC *)
  else if b0 =? 237 then Some (3%nat, 128, 159)                    (* ED *)
  else if (238 <=? b0) && (b0 <=? 239) then Some (3%nat, 128, 191) (* EE-EF *)
  else if b0 =? 240 then Some (4%nat, 144, 191)                    (* F0 *)
  else if (241 <=? b0) && (b0 <=? 243) then Some (4%nat, 128, 191) (* F1-F3 *)
  else if b0 =? 244 then Some (4%nat, 128, 143)                    (* F4 *)
  else None.

(** A continuation byte: [locb <= b <= hicb]. *)
Definition continues (b : Z) : bool := (128 <=? b) && (b <=? 191).

(** [func DecodeRuneInString(s string) (rune, int)]: the first rune of
    [s] and the number of bytes of its encoding; [(RuneError, 1)] when
    [s] starts with no well-formed encoding, [(RuneError, 0)] when it
    is empty. *)
Definition DecodeRuneInString (s : string) : Z * nat :=
  match s with
  | EmptyString => (RuneError, 0%nat)
  | String c0 s1 =>
      let b0 := byte_of c0 in
      if b0 <? 128 then (b0, 1%nat)
      else
        match first b0, s1 with
        | Some (sz, lo, hi), String c1 s2 =>
            let b1 := byte_of c1 in
            if (b1 <? lo) || (hi <? b1) then (RuneError, 1%nat)
            else if (sz <=? 2)%nat then
              (Z.lor (Z.shiftl (Z.land b0 31) 6) (Z.land b1 63), 2%nat)
            else
              match s2 with
              | String c2 s3 =>
                  let b2 := byte_of c2 in
                  if negb (continues b2) then (RuneError, 1%nat)
                  else if (sz <=? 3)%nat then
                    (Z.lor (Z.lor (Z.shiftl (Z.land b0 15) 12)
                                  (Z.shiftl (Z.land b1 63) 6))
                           (Z.land b2 63), 3%nat)
                  else
                    match s3 with
                    | String c3 _ =>
                        let b3 := byte_of c3 in
                        if negb (continues b3) then (RuneError, 1%nat)
                        else
                          (Z.lor (Z.lor (Z.lor (Z.shiftl (Z.land b0 7) 18)
                                               (Z.shiftl (Z.land b1 63) 12))
                                        (Z.shiftl (Z.land b2 63) 6))
                                 (Z.land b3 63), 4%nat)
                    | EmptyString => (RuneError, 1%nat)
                    end
              | EmptyString => (RuneError, 1%nat)
              end
        | _, _ => (RuneError, 1%nat)
        end
  end.

End utf8.

Module regexp.

(** The text as the matcher steps through it: one rune after the
    other from the first byte on, each step as wide as the encoding it
    decodes.  [skip] counts the bytes of the current encoding still to
    be passed over. *)
Fixpoint runes_from (skip : nat) (s : string) : list Z :=
  match s with
  | EmptyString => []
  | String _ rest =>
      match skip with
      | S k => runes_from k rest
      | O =>
          let '(r, n) := utf8.DecodeRuneInString s in
          r :: runes_from (n - 1) rest
      end
  end.

Definition runes (s : string) : list Z := runes_from 0 s.

(** The pattern [..[/\\]] (the Go literal ["..[/\\\\]"]): a dot is any
    character but a newline, the class holds the slash and the
    backslash. *)
Definition any_not_nl (r : Z) : bool := negb (r =? 10).
Definition slash_or_backslash (r : Z) : bool := (r =? 47) || (r =? 92).

Definition matches_here (rs : list Z) : bool :=
  match rs with
  | r0 :: r1 :: r2 :: _ => any_not_nl r0 && any_not_nl r1 && slash_or_backslash r2
  | _ => false
  end.

(** An unanchored pattern matches when it matches from some rune on. *)
Fixpoint matches_somewhere (rs : list Z) : bool :=
  matches_here rs
  || match rs with
     | [] => false
     | _ :: rest => matches_somewhere rest
     end.

End regexp.

(** [var static_re = regexp.MustCompile("..[/\\\\]")], as its
    [MatchString]. *)
Definition static_re (s : string) : bool :=
  regexp.matches_somewhere (regexp.runes s).

Module filepath.

(** The elements of a path: the texts between its separators. *)
Fixpoint elements (path : string) : list string :=
  match path with
  | EmptyString => [EmptyString]
  | String c rest =>
      if bool_decide (c = "/"%char) then EmptyString :: elements rest
      else
        match elements rest with
        | e :: es => String c e :: es
        | [] => [String c EmptyString]
        end
  end.

(** [strings.Join(elem, "/")]. *)
Fixpoint join (elem : list string) : string :=
  match elem with
  | [] => ""
  | [e] => e
  | e :: rest => e ++ "/" ++ join rest
  end.

(** One element read by [Clean]; [out] holds the elements written so
    far, the last one first.  An empty element and [.] are dropped;
    [..] takes back the last element written unless there is none to
    take back (nothing written, or only the [..] elements a path that
    is not rooted begins with), in which case it is dropped in a
    rooted path and written otherwise; any other element is
    written. *)
Definition clean_element (rooted : bool) (out : list string) (e : string)
    : list string :=
  if bool_decide (e = "") || bool_decide (e = ".") then out
  else if bool_decide (e = "..") then
    match out with
    | top :: below =>
        if bool_decide (top = "..") then (if rooted then out else e :: out)
        else below
    | [] => if rooted then out else [e]
    end
  else e :: out.

(** [func Clean(path string) string], with [/] as the separator and
    no volume names. *)
Definition Clean (path : string) : string :=
  match path with
  | EmptyString => "."
  | String c _ =>
      let rooted := bool_decide (c = "/"%char) in
      let out := rev (fold_left (clean_element rooted) (elements path) []) in
      if rooted then "/" ++ join out
      else match out with [] => "." | _ => join out end
  end.

(** [func Join(elem ...string) string]: the elements from the first
    one that is not empty, joined by the separator and cleaned. *)
Fixpoint Join (elem : list string) : string :=
  match elem with
  | [] => ""
  | e :: rest =>
      if bool_decide (e = "") then Join rest else Clean (join elem)
  end.

End filepath.

(** ** IndexHandler and StaticHandler *)

(** How the two handlers of the static pages end. *)
Inductive StaticReply : Type :=
  | Redirect (url : string)        (* req.Redirect(url) *)
  | NotFound                       (* req.NotFound(); return *)
  | ServeFile (name : string)      (* req.ServeFile(name) *)
  | OutOfRange.                    (* req.Vars[1], index out of range *)

Definition IndexHandler (req : Request) : StaticReply := Redirect "/static/".

Definition StaticHandler (req : Request) : StaticReply :=
  match Vars req !! 1%nat with
  | Some filename =>
      if static_re filename then NotFound
      else ServeFile (filepath.Join ["./static"; filename])
  | None => OutOfRange
  end.

(** ** Texts and paths, for the statements *)

(** The first [k] bytes of [s] exist and are no ASCII bytes. *)
Fixpoint high_prefix (k : nat) (s : string) : Prop :=
  match k with
  | O => True
  | S k' =>
      match s with
      | String c rest => 128 <= byte_of c /\ high_prefix k' rest
      | EmptyString => False
      end
  end.

(** Whether the byte [c] occurs in [s]. *)
Fixpoint occurs (c : ascii) (s : string) : bool :=
  match s with
  | EmptyString => false
  | String d rest => bool_decide (c = d) || occurs c rest
  end.

(** The path [StaticHandler] serves for a name without separators. *)
Definition plain_path (name : string) : string :=
  if bool_decide (name = "") || bool_decide (name = ".") then "static"
  else if bool_decide (name = "..") then "."
  else "static/" ++ name.

(** An element as [Clean] leaves it in a path: a name, not empty, not
    [.] or [..], without a separator. *)
Definition proper_element (e : string) : Prop :=
  e <> "" /\ e <> "." /\ e <> ".." /\ occurs "/" e = false.

(** ** Sample collaborators for the examples *)

Definition sample_row (start : Z) (cc cn : string) : sql.Row :=
  {| sql.ip_start := start; sql.country_code := cc; sql.country_name := cn;
     sql.region_code := ""; sql.region_name := ""; sql.city_name := "";
     sql.postal_code := ""; sql.latitude := 0; sql.longitude := 0;
     sql.metro_code := ""; sql.area_code := "" |}.

Definition sample_rows : list sql.Row :=
  [sample_row 500 "BB" "Second"; sample_row 10 "AA" "First";
   sample_row 1000 "CC" "Third"].

Definition sample_db : sql.DB :=
  {| sql.prepare_fault := None; sql.query_fault := None; sql.rows := sample_rows |}.

Definition empty_db : sql.DB :=
  {| sql.prepare_fault := None; sql.query_fault := None; sql.rows := [] |}.

Definition failing_db : sql.DB :=
  {| sql.prepare_fault := None; sql.query_fault := Some "disk I/O error";
     sql.rows := sample_rows |}.

(** A table whose one block starts at 0. *)
Definition whole_range_db : sql.DB :=
  {| sql.prepare_fault := None; sql.query_fault := None;
     sql.rows := [sample_row 0 "ZZ" "Everywhere"] |}.

(** A stand-in for [net.ParseIP] that knows three addresses. *)
Definition sample_ParseIP (s : string) : net.IP :=
  if bool_decide (s = "8.8.8.8") then net.IPv4 8 8 8 8
  else if bool_decide (s = "10.1.2.3") then net.IPv4 10 1 2 3
  else if bool_decide (s = "2001:db8::1") then
    [32; 1; 13; 184; 0; 0; 0; 0; 0; 0; 0; 0; 0; 0; 0; 1]
  else [].

(** A stand-in for [net.LookupHost]: every name but one is its own
    address. *)
Definition sample_LookupHost (s : string) : list string * option error :=
  if bool_decide (s = "nowhere.invalid") then ([], Some (ErrFault "no such host"))
  else ([s], None).

(** The request for [/format/addr] from the peer [remote]. *)
Definition sample_request (format addr remote : string) : Request :=
  {| Vars := ["/" ++ format ++ "/" ++ addr; format; addr];
     RemoteAddr := remote; callback := "" |}.

(** A quiet world at time 0 in which the client 192.0.2.7 holds the
    counter [v], to expire at 3600. *)
Definition stored (v : string) : World :=
  with_cache {[ "192.0.2.7" := {| memcache.data := v; memcache.deadline := Some 3600 |} ]}
    empty_world.

(** The request the route of the static pages hands over for [name]:
    the path and its one group. *)
Definition static_request (name : string) : Request :=
  {| Vars := ["/static/" ++ name; name]; RemoteAddr := "192.0.2.7:51234";
     callback := "" |}.


(** * Properties *)

(** ** strconv: reading back what the server writes *)

(** The powers of two of the 64-bit arithmetic, as numerals for [lia]. *)
Ltac word_consts :=
  unfold strconv.maxUint64, strconv.IntSize in *;
  change (2 ^ (64 - 1)) with 9223372036854775808 in *;
  change (2 ^ 64) with 18446744073709551616 in *;
  change (2 ^ 63) with 9223372036854775808 in *.

Lemma byte_of_digit_char (d : Z) :
  0 <= d < 10 -> byte_of (strconv.digit_char d) = 48 + d.
Proof.
  intros Hd. unfold byte_of, strconv.digit_char.
  rewrite Ascii.N_ascii_embedding by lia. lia.
Qed.

Lemma parse_digits_digit (d : Z) (rest : string) (n : Z) :
  0 <= d < 10 -> 0 <= n -> n * 10 + d <= strconv.maxUint64 ->
  strconv.parse_digits (String (strconv.digit_char d) rest) n
  = strconv.parse_digits rest (n * 10 + d).
Proof.
  intros Hd Hn Hmax. cbn [strconv.parse_digits].
  rewrite byte_of_digit_char by assumption.
  word_consts.
  replace (48 + d - 48) with d by lia.
  change ((18446744073709551616 - 1) / 10 + 1) with 1844674407370955162.
  rewrite Z.mod_small by lia.
  repeat match goal with
  | |- context [?a <=? ?b] => destruct (Z.leb_spec a b); try lia
  | |- context [?a <? ?b] => destruct (Z.ltb_spec a b); try lia
  end.
  reflexivity.
Qed.

Lemma parse_utoa_aux (f : nat) : forall (n : Z) (acc : string),
  0 <= n <= strconv.maxUint64 -> n < 10 ^ Z.of_nat (S f) ->
  strconv.parse_digits (strconv.utoa_aux f n acc) 0 = strconv.parse_digits acc n.
Proof.
  induction f as [|f IH]; intros n acc Hn Hlt.
  - change (10 ^ Z.of_nat 1) with 10 in Hlt. cbn [strconv.utoa_aux].
    rewrite Z.mod_small by lia.
    rewrite parse_digits_digit by (word_consts; lia).
    reflexivity.
  - cbn [strconv.utoa_aux].
    pose proof (Z.div_mod n 10 ltac:(lia)) as Hdm.
    pose proof (Z.mod_pos_bound n 10 ltac:(lia)) as Hm.
    destruct (Z.eqb_spec (n / 10) 0) as [Hz|Hz].
    + rewrite parse_digits_digit by (word_consts; lia).
      f_equal. lia.
    + rewrite IH.
      * rewrite parse_digits_digit by lia. f_equal. lia.
      * split; [apply Z.div_pos; lia | lia].
      * apply Z.div_lt_upper_bound; [lia|].
        rewrite Nat2Z.inj_succ, Z.pow_succ_r in Hlt by lia. exact Hlt.
Qed.

Lemma utoa_aux_head (f : nat) : forall (n : Z) (acc : string),
  0 <= n ->
  exists d rest, 0 <= d < 10 /\ strconv.utoa_aux f n acc = String (strconv.digit_char d) rest.
Proof.
  induction f as [|f IH]; intros n acc Hn; cbn [strconv.utoa_aux].
  - exists (n mod 10), acc. split; [apply Z.mod_pos_bound; lia | reflexivity].
  - destruct (n / 10 =? 0).
    + exists (n mod 10), acc. split; [apply Z.mod_pos_bound; lia | reflexivity].
    + apply IH. apply Z.div_pos; lia.
Qed.

Lemma ParseUint_utoa (n : Z) :
  0 <= n < 2 ^ 64 -> strconv.ParseUint (strconv.utoa n) = (n, None).
Proof.
  intros Hn. unfold strconv.utoa.
  destruct (utoa_aux_head 19 n "" ltac:(lia)) as (d & rest & Hd & Heq).
  unfold strconv.ParseUint. rewrite Heq, <- Heq.
  rewrite parse_utoa_aux; [reflexivity | word_consts; lia |].
  word_consts. change (10 ^ Z.of_nat 20) with 100000000000000000000. lia.
Qed.

Lemma digit_char_not_sign (d : Z) :
  0 <= d < 10 ->
  strconv.digit_char d <> "-"%char /\ strconv.digit_char d <> "+"%char.
Proof.
  intros Hd. split; intros H; apply (f_equal byte_of) in H;
    rewrite byte_of_digit_char in H by assumption.
  - change (byte_of "-") with 45 in H. lia.
  - change (byte_of "+") with 43 in H. lia.
Qed.

Lemma Atoi_utoa (n : Z) :
  0 <= n < 2 ^ 63 -> strconv.Atoi (strconv.utoa n) = (n, None).
Proof.
  intros Hn.
  assert (Hu : strconv.ParseUint (strconv.utoa n) = (n, None)).
  { apply ParseUint_utoa. word_consts. lia. }
  unfold strconv.Atoi, strconv.ParseInt.
  destruct (utoa_aux_head 19 n "" ltac:(lia)) as (d & rest & Hd & Heq).
  fold (strconv.utoa n) in Heq. rewrite Heq, <- Heq.
  destruct (digit_char_not_sign d Hd) as [Hm Hp].
  rewrite !bool_decide_eq_false_2 by assumption. cbn [orb].
  rewrite Hu. cbn [negb andb].
  word_consts.
  destruct (Z.leb_spec 9223372036854775808 n); [lia | reflexivity].
Qed.

Lemma number_utoa (n : Z) :
  0 <= n < 2 ^ 64 -> memcache.number (strconv.utoa n) = Some n.
Proof.
  intros Hn. unfold memcache.number. now rewrite ParseUint_utoa.
Qed.

(** ** The digits of a counter *)

Lemma decimal_from_ge (s : string) : forall (acc n : Z),
  0 <= acc -> decimal_from s acc = Some n -> acc <= n.
Proof.
  induction s as [|c s IH]; intros acc n Hacc; cbn [decimal_from].
  - intros [= <-]. lia.
  - destruct (Z.leb_spec 48 (byte_of c)), (Z.leb_spec (byte_of c) 57);
      cbn [andb]; try discriminate.
    intros Hd. apply IH in Hd; lia.
Qed.

(** What [ParseUint] accepts, it reads as the digits say. *)
Lemma decimal_of_parse (s : string) : forall (acc n : Z),
  0 <= acc -> strconv.parse_digits s acc = (n, None) ->
  decimal_from s acc = Some n.
Proof.
  induction s as [|c s IH]; intros acc n Hacc;
    cbn [strconv.parse_digits decimal_from].
  - now intros [= <-].
  - destruct (Z.leb_spec 48 (byte_of c)), (Z.leb_spec (byte_of c) 57);
      cbn [andb]; try discriminate.
    destruct (Z.leb_spec (strconv.maxUint64 / 10 + 1) acc); [discriminate|].
    destruct (Z.ltb_spec ((acc * 10 + (byte_of c - 48)) mod 2 ^ 64) (acc * 10));
      cbn [orb]; [discriminate|].
    destruct (Z.ltb_spec strconv.maxUint64
                ((acc * 10 + (byte_of c - 48)) mod 2 ^ 64)); [discriminate|].
    assert (Hsmall : (acc * 10 + (byte_of c - 48)) mod 2 ^ 64
                     = 10 * acc + (byte_of c - 48)).
    { word_consts.
      change (18446744073709551616 - 1) with 18446744073709551615 in *.
      change (18446744073709551615 / 10 + 1) with 1844674407370955162 in *.
      destruct (Z.lt_ge_cases (acc * 10 + (byte_of c - 48)) 18446744073709551616).
      - rewrite Z.mod_small by lia. lia.
      - exfalso.
        assert ((acc * 10 + (byte_of c - 48)) mod 18446744073709551616
                = acc * 10 + (byte_of c - 48) - 18446744073709551616).
        { symmetry. apply (Z.mod_unique _ _ 1); lia. }
        lia. }
    rewrite Hsmall. apply IH. lia.
Qed.

(** What the digits say, [ParseUint] reads, within 64 bits. *)
Lemma parse_of_decimal (s : string) : forall (acc n : Z),
  0 <= acc -> decimal_from s acc = Some n -> n <= strconv.maxUint64 ->
  strconv.parse_digits s acc = (n, None).
Proof.
  induction s as [|c s IH]; intros acc n Hacc;
    cbn [strconv.parse_digits decimal_from].
  - now intros [= <-].
  - destruct (Z.leb_spec 48 (byte_of c)), (Z.leb_spec (byte_of c) 57);
      cbn [andb]; try discriminate.
    intros Hd Hn.
    assert (Hge : 10 * acc + (byte_of c - 48) <= n)
      by (apply (decimal_from_ge s); [lia|exact Hd]).
    word_consts.
    change (18446744073709551616 - 1) with 18446744073709551615 in *.
    change (18446744073709551615 / 10 + 1) with 1844674407370955162 in *.
    destruct (Z.leb_spec 1844674407370955162 acc); [lia|].
    replace (acc * 10 + (byte_of c - 48)) with (10 * acc + (byte_of c - 48)) by lia.
    rewrite Z.mod_small by lia.
    destruct (Z.ltb_spec (10 * acc + (byte_of c - 48)) (acc * 10)); [lia|].
    destruct (Z.ltb_spec 18446744073709551615 (10 * acc + (byte_of c - 48)));
      [lia|].
    cbn [orb]. apply IH; [lia|assumption|lia].
Qed.

Lemma decimal_ParseUint (v : string) (n : Z) :
  decimal v = Some n -> n < 2 ^ 64 -> strconv.ParseUint v = (n, None).
Proof.
  destruct v as [|c v]; [discriminate|]. unfold decimal, strconv.ParseUint.
  intros Hd Hn. apply parse_of_decimal; [lia|assumption|word_consts; lia].
Qed.

Lemma decimal_number (v : string) (n : Z) :
  decimal v = Some n -> n < 2 ^ 64 -> memcache.number v = Some n.
Proof.
  intros Hd Hn. unfold memcache.number. now rewrite (decimal_ParseUint v n).
Qed.

Lemma decimal_nonneg (v : string) (n : Z) : decimal v = Some n -> 0 <= n.
Proof.
  destruct v as [|c v]; [discriminate|]. unfold decimal.
  apply decimal_from_ge. lia.
Qed.

(** The text the server writes for a number says that number. *)
Lemma decimal_utoa (n : Z) :
  0 <= n < 2 ^ 64 -> decimal (strconv.utoa n) = Some n.
Proof.
  intros Hn. pose proof (ParseUint_utoa n Hn) as Hp.
  destruct (strconv.utoa n) as [|c v]; [discriminate|].
  unfold decimal. apply decimal_of_parse; [lia|exact Hp].
Qed.

(** ** The statement: WHERE, ORDER BY, LIMIT *)

Lemma insert_desc_In (r x : sql.Row) (l : list sql.Row) :
  In x (sql.insert_desc r l) <-> x = r \/ In x l.
Proof.
  induction l as [|h t IH]; cbn [sql.insert_desc].
  - cbn. intuition congruence.
  - destruct (sql.ip_start h <=? sql.ip_start r); cbn [In].
    + intuition congruence.
    + rewrite IH. intuition congruence.
Qed.

Lemma order_desc_In (x : sql.Row) (l : list sql.Row) :
  In x (sql.order_desc l) <-> In x l.
Proof.
  induction l as [|h t IH]; cbn [sql.order_desc fold_right In]; [tauto|].
  fold (sql.order_desc t). rewrite insert_desc_In, IH. intuition congruence.
Qed.


Lemma insert_desc_head (r : sql.Row) (l : list sql.Row) :
  head_greatest l -> head_greatest (sql.insert_desc r l).
Proof.
  unfold head_greatest. destruct l as [|h t]; cbn [sql.insert_desc].
  - intros _ h' [= <-] x [<-|[]]. lia.
  - intros Hl h'. specialize (Hl h eq_refl).
    destruct (Z.leb_spec (sql.ip_start h) (sql.ip_start r)) as [Hle|Hgt].
    + intros [= <-] x [<-|Hx]; [lia|]. specialize (Hl x Hx). lia.
    + intros [= <-] x [<-|Hx]; [lia|].
      apply insert_desc_In in Hx as [->|Hx]; [lia|]. apply Hl. now right.
Qed.

Lemma order_desc_head (l : list sql.Row) : head_greatest (sql.order_desc l).
Proof.
  induction l as [|h t IH]; cbn [sql.order_desc fold_right].
  - intros h []%eq_sym%Some_ne_None.
  - now apply insert_desc_head.
Qed.

Lemma select_Some (x : Z) (l : list sql.Row) (r : sql.Row) :
  sql.select x l = Some r ->
  In r l /\ sql.ip_start r <= x /\
  forall r', In r' l -> sql.ip_start r' <= x -> sql.ip_start r' <= sql.ip_start r.
Proof.
  unfold sql.select, sql.limit_1. intros Hhd.
  assert (Hin : In r (sql.where_le x l)).
  { apply order_desc_In. destruct (sql.order_desc _); [discriminate|].
    injection Hhd as ->. now left. }
  apply filter_In in Hin as [Hin Hle]. repeat split; [assumption|lia|].
  intros r' Hr' Hle'. apply (order_desc_head _ _ Hhd).
  apply order_desc_In, filter_In. split; [assumption|lia].
Qed.

Lemma select_None (x : Z) (l : list sql.Row) :
  sql.select x l = None -> forall r', In r' l -> x < sql.ip_start r'.
Proof.
  unfold sql.select, sql.limit_1. intros Hhd r' Hr'.
  destruct (Z.lt_ge_cases x (sql.ip_start r')) as [|Hle]; [assumption|].
  assert (Hin : In r' (sql.order_desc (sql.where_le x l))).
  { apply order_desc_In, filter_In. split; [assumption|lia]. }
  destruct (sql.order_desc _); [destruct Hin | discriminate].
Qed.

(** ** The number of an address *)

Lemma lor_shiftl_add (lo hi k : Z) :
  0 <= k -> 0 <= lo < 2 ^ k -> Z.lor lo (Z.shiftl hi k) = lo + hi * 2 ^ k.
Proof.
  intros Hk Hlo. rewrite Z.shiftl_mul_pow2 by assumption.
  assert (Hdisj : Z.land lo (hi * 2 ^ k) = 0).
  { apply Z.bits_inj'. intros n Hn. rewrite Z.land_spec, Z.bits_0.
    destruct (Z.lt_ge_cases n k) as [Hlt|Hge].
    - rewrite Z.mul_pow2_bits_low by lia. apply andb_false_r.
    - destruct (Z.eq_dec lo 0) as [->|Hnz]; [now rewrite Z.bits_0|].
      rewrite (Z.bits_above_log2 lo n); [reflexivity|lia|].
      assert (Z.log2 lo < k) by (apply Z.log2_lt_pow2; lia). lia. }
  rewrite <- Z.lxor_lor by assumption.
  symmetry. now apply Z.add_nocarry_lxor.
Qed.

Lemma numeric_big_endian (ip : net.IP) (a b c d : Z) :
  net.To4 ip = [a; b; c; d] ->
  0 <= a < 256 -> 0 <= b < 256 -> 0 <= c < 256 -> 0 <= d < 256 ->
  numeric ip = a * 2 ^ 24 + b * 2 ^ 16 + c * 2 ^ 8 + d.
Proof.
  intros H4 Ha Hb Hc Hd. unfold numeric. rewrite H4. cbn [binary.Read_uint32 fst].
  rewrite (lor_shiftl_add d c 8) by lia.
  rewrite (lor_shiftl_add _ b 16) by lia.
  rewrite (lor_shiftl_add _ a 24) by lia.
  lia.
Qed.

(** ** Reserved addresses *)

Lemma is_reserved_true (ip : net.IP) :
  is_reserved ip = true <->
  exists n, In n reservedIPs /\ net.Contains n ip = true.
Proof. unfold is_reserved. apply existsb_exists. Qed.

Lemma is_reserved_false (ip : net.IP) :
  is_reserved ip = false <->
  forall n, In n reservedIPs -> net.Contains n ip = false.
Proof.
  rewrite <- not_true_iff_false, is_reserved_true. split.
  - intros Hno n Hn. apply not_true_iff_false. intros Hc. apply Hno. eauto.
  - intros Hall (n & Hn & Hc). rewrite (Hall n Hn) in Hc. discriminate.
Qed.





(** ** The lookup block *)


Section LookupFacts.

Variable ParseIP : string -> net.IP.
Variable LookupHost : string -> list string * option error.

Lemma Lookup_reserved (db : sql.DB) (addr : string) (w : World) :
  is_reserved (ParseIP addr) = true ->
  Lookup ParseIP db addr w
  = (inl (set_country "RD" "Reserved" (GeoIP_of_addr addr)), w).
Proof. intros Hr. unfold Lookup. now rewrite Hr. Qed.

Lemma Lookup_unreserved (db : sql.DB) (addr : string) (w : World) :
  is_reserved (ParseIP addr) = false ->
  Lookup ParseIP db addr w
  = match sql.Prepare db with
    | Some e => (inr (HTTPError 404 (Some e)), after_prepare w)
    | None =>
        (match sql.QueryRow db (numeric (ParseIP addr)) with
         | inl r => inl (Scan r (GeoIP_of_addr addr))
         | inr e => inr (HTTPError 500 (Some e))
         end,
         after_query (numeric (ParseIP addr)) w)
    end.
Proof.
  intros Hr. unfold Lookup. rewrite Hr.
  unfold mbind, Act_bind, db_log, defer, leave, mret, Act_ret.
  destruct (sql.Prepare db); [reflexivity|].
  unfold after_query, with_dbops, with_deferred. cbn.
  rewrite <- app_assoc. cbn [app].
  now destruct (sql.QueryRow db _).
Qed.

Lemma Lookup_Ip (db : sql.DB) (addr : string) (w w' : World) (g : GeoIP) :
  Lookup ParseIP db addr w = (inl g, w') -> Ip g = addr.
Proof.
  destruct (is_reserved (ParseIP addr)) eqn:Hr.
  - rewrite Lookup_reserved by assumption. now intros [= <- _].
  - rewrite Lookup_unreserved by assumption.
    destruct (sql.Prepare db); [discriminate|].
    destruct (sql.QueryRow db _); [|discriminate]. now intros [= <- _].
Qed.

End LookupFacts.

(** ** The resolver *)

Example predecessor_example :
  map (fun x => sql.select x sample_rows) [750; 999; 1000; 5]
  = [Some (sample_row 500 "BB" "Second"); Some (sample_row 500 "BB" "Second");
     Some (sample_row 1000 "CC" "Third"); None].
Proof. reflexivity. Qed.

(** C1.  For an address in no reserved range, with the database
    answering, the lookup returns the record that echoes the address
    and carries, field by field, the ten columns of a row whose
    [ip_start] is the greatest one not above the number of the
    address; when every [ip_start] is above that number it returns no
    row but the no-rows error.  The number is the big-endian value of
    the four bytes. *)
Theorem lookup_predecessor (ParseIP : string -> net.IP) (db : sql.DB)
    (addr : string) (w : World) :
  (forall n, In n reservedIPs -> net.Contains n (ParseIP addr) = false) ->
  sql.prepare_fault db = None ->
  sql.query_fault db = None ->
  match (Lookup ParseIP db addr w).1 with
  | inl g =>
      exists r, predecessor (sql.rows db) (numeric (ParseIP addr)) r /\
                g = {| XMLName := ("", ""); Ip := addr;
                       CountryCode := sql.country_code r;
                       CountryName := sql.country_name r;
                       RegionCode := sql.region_code r;
                       RegionName := sql.region_name r;
                       CityName := sql.city_name r;
                       ZipCode := sql.postal_code r;
                       Latitude := sql.latitude r;
                       Longitude := sql.longitude r;
                       MetroCode := sql.metro_code r;
                       AreaCode := sql.area_code r |}
  | inr reply =>
      reply = HTTPError 500 (Some ErrNoRows) /\
      forall r', In r' (sql.rows db) -> numeric (ParseIP addr) < sql.ip_start r'
  end
  /\ forall a b c d, net.To4 (ParseIP addr) = [a; b; c; d] ->
       0 <= a < 256 -> 0 <= b < 256 -> 0 <= c < 256 -> 0 <= d < 256 ->
       numeric (ParseIP addr) = a * 2 ^ 24 + b * 2 ^ 16 + c * 2 ^ 8 + d.
Proof.
  intros Hres Hprep Hq. split; [|apply numeric_big_endian].
  apply is_reserved_false in Hres.
  rewrite Lookup_unreserved by assumption.
  unfold sql.Prepare, sql.QueryRow. rewrite Hprep, Hq. cbn [fmap option_fmap option_map fst].
  destruct (sql.select _ _) as [r|] eqn:Hsel; cbn [fst].
  - exists r. split; [|reflexivity]. now apply select_Some.
  - split; [reflexivity|]. now apply select_None.
Qed.

(** At 8.8.8.8, whose number 134744072 lies above the three starts of
    the sample table, the record is that of the block starting at
    1000. *)
Lemma lookup_predecessor_witness :
  (match (Lookup sample_ParseIP sample_db "8.8.8.8" empty_world).1 with
   | inl g =>
       exists r, predecessor (sql.rows sample_db) (numeric (sample_ParseIP "8.8.8.8")) r /\
                 g = {| XMLName := ("", ""); Ip := "8.8.8.8";
                        CountryCode := sql.country_code r;
                        CountryName := sql.country_name r;
                        RegionCode := sql.region_code r;
                        RegionName := sql.region_name r;
                        CityName := sql.city_name r;
                        ZipCode := sql.postal_code r;
                        Latitude := sql.latitude r;
                        Longitude := sql.longitude r;
                        MetroCode := sql.metro_code r;
                        AreaCode := sql.area_code r |}
   | inr reply =>
       reply = HTTPError 500 (Some ErrNoRows) /\
       forall r', In r' (sql.rows sample_db) ->
                  numeric (sample_ParseIP "8.8.8.8") < sql.ip_start r'
   end
   /\ forall a b c d, net.To4 (sample_ParseIP "8.8.8.8") = [a; b; c; d] ->
        0 <= a < 256 -> 0 <= b < 256 -> 0 <= c < 256 -> 0 <= d < 256 ->
        numeric (sample_ParseIP "8.8.8.8") = a * 2 ^ 24 + b * 2 ^ 16 + c * 2 ^ 8 + d)
  /\ numeric (sample_ParseIP "8.8.8.8") = 134744072
  /\ (Lookup sample_ParseIP sample_db "8.8.8.8" empty_world).1
     = inl {| XMLName := ("", ""); Ip := "8.8.8.8";
              CountryCode := "CC"; CountryName := "Third";
              RegionCode := ""; RegionName := ""; CityName := ""; ZipCode := "";
              Latitude := 0; Longitude := 0; MetroCode := ""; AreaCode := "" |}.
Proof.
  split; [|split; reflexivity].
  apply (lookup_predecessor sample_ParseIP sample_db "8.8.8.8" empty_world).
  - apply is_reserved_false. vm_compute. reflexivity.
  - reflexivity.
  - reflexivity.
Defined.

(** ** The handler around the lookup block *)

Lemma render_world (req : Request) (format : string) (g : GeoIP) (w : World) :
  exists h, (render req format g w).2 = with_hdrs h w.
Proof.
  unfold render, mbind, Act_bind, SetHeader, leave, mret, Act_ret.
  destruct format as [|c rest]; [exists (hdrs w); now destruct w|].
  repeat case_bool_decide; cbn; try destruct (json_Marshal g); cbn; eauto;
    exists (hdrs w); now destruct w.
Qed.

Lemma render_record (req : Request) (format : string) (g : GeoIP) (w : World) (b : Body) :
  (render req format g w).1 = inr (Wrote b) -> record_of b = g.
Proof.
  unfold render, mbind, Act_bind, SetHeader, leave, mret, Act_ret.
  destruct format as [|c rest]; [discriminate|].
  repeat case_bool_decide; cbn; try destruct (json_Marshal g); cbn;
    intros [= <-] || discriminate; reflexivity.
Qed.

Section HandlerFacts.

Variable ParseIP : string -> net.IP.
Variable LookupHost : string -> list string * option error.

(** Finding the address touches nothing. *)
Lemma resolve_addr_world (req : Request) (a0 : string) (w : World) :
  (resolve_addr LookupHost req a0 w).2 = w.
Proof.
  unfold resolve_addr, leave, mret, Act_ret.
  case_bool_decide; [reflexivity|].
  destruct (LookupHost a0) as [addrs [e|]]; [reflexivity|].
  now destruct addrs.
Qed.

Lemma resolve_addr_any_world (req : Request) (a0 : string) (w w' : World) :
  (resolve_addr LookupHost req a0 w).1 = (resolve_addr LookupHost req a0 w').1.
Proof.
  unfold resolve_addr, leave, mret, Act_ret.
  case_bool_decide; [reflexivity|].
  destruct (LookupHost a0) as [addrs [e|]]; [reflexivity|].
  now destruct addrs.
Qed.

(** The handler, once the address is known. *)
Lemma LookupHandler_resolved (req : Request) (db : sql.DB) (w : World)
    (format a0 addr : string) :
  Vars req !! 1%nat = Some format ->
  Vars req !! 2%nat = Some a0 ->
  (resolve_addr LookupHost req a0 w).1 = inl addr ->
  LookupHandler ParseIP LookupHost req db w
  = run_handler (geoip ← Lookup ParseIP db addr; render req format geoip) w.
Proof.
  intros Hf Ha Hres. unfold LookupHandler. rewrite Hf, Ha.
  assert (Hw0 : resolve_addr LookupHost req a0 (with_deferred [] w)
                = (inl addr, with_deferred [] w)).
  { rewrite (surjective_pairing (resolve_addr _ _ _ _)).
    rewrite resolve_addr_world.
    rewrite (resolve_addr_any_world req a0 (with_deferred [] w) w), Hres.
    reflexivity. }
  unfold run_handler, mbind at 1, Act_bind at 1. now rewrite Hw0.
Qed.

End HandlerFacts.

(** C2.  For an address that one of the reserved ranges contains, the
    lookup returns the record with country code "RD" and country name
    "Reserved", the address echoed and every other field at its zero
    value, and leaves the world as it was: nothing is asked of the
    database.  The handler around it adds no database operation either,
    and the body it writes prints that record. *)
Theorem reserved_sentinel (ParseIP : string -> net.IP)
    (LookupHost : string -> list string * option error)
    (req : Request) (db : sql.DB) (w : World) (format a0 addr : string) :
  Vars req !! 1%nat = Some format ->
  Vars req !! 2%nat = Some a0 ->
  (resolve_addr LookupHost req a0 w).1 = inl addr ->
  (exists n, In n reservedIPs /\ net.Contains n (ParseIP addr) = true) ->
  let sentinel :=
    {| XMLName := ("", ""); Ip := addr; CountryCode := "RD"; CountryName := "Reserved";
       RegionCode := ""; RegionName := ""; CityName := ""; ZipCode := "";
       Latitude := 0; Longitude := 0; MetroCode := ""; AreaCode := "" |} in
  Lookup ParseIP db addr w = (inl sentinel, w)
  /\ dbops (LookupHandler ParseIP LookupHost req db w).2 = dbops w
  /\ forall b, (LookupHandler ParseIP LookupHost req db w).1 = Wrote b ->
               record_of b = sentinel.
Proof.
  intros Hf Ha Hres Hin sentinel. apply is_reserved_true in Hin.
  split; [now apply Lookup_reserved|].
  rewrite (LookupHandler_resolved ParseIP LookupHost req db w format a0 addr) by assumption.
  unfold run_handler, mbind, Act_bind.
  rewrite Lookup_reserved by assumption.
  change (set_country "RD" "Reserved" (GeoIP_of_addr addr)) with sentinel.
  destruct (render_world req format sentinel (with_deferred [] w)) as [h Hh].
  pose proof (render_record req format sentinel (with_deferred [] w)) as Hrec.
  destruct (render req format sentinel (with_deferred [] w)) as [r w'].
  cbn [fst snd] in *. subst w'. split.
  - cbn. apply app_nil_r.
  - intros b Hb. apply Hrec. destruct r as [u|r]; [discriminate|]. now subst r.
Qed.

Lemma reserved_sentinel_witness :
  Lookup sample_ParseIP sample_db "10.1.2.3" empty_world
  = (inl {| XMLName := ("", ""); Ip := "10.1.2.3"; CountryCode := "RD";
            CountryName := "Reserved"; RegionCode := ""; RegionName := "";
            CityName := ""; ZipCode := ""; Latitude := 0; Longitude := 0;
            MetroCode := ""; AreaCode := "" |}, empty_world)
  /\ dbops (LookupHandler sample_ParseIP sample_LookupHost
              (sample_request "json" "10.1.2.3" "8.8.8.8:4242") sample_db empty_world).2
     = dbops empty_world
  /\ forall b, (LookupHandler sample_ParseIP sample_LookupHost
                  (sample_request "json" "10.1.2.3" "8.8.8.8:4242") sample_db empty_world).1
               = Wrote b ->
               record_of b
               = {| XMLName := ("", ""); Ip := "10.1.2.3"; CountryCode := "RD";
                    CountryName := "Reserved"; RegionCode := ""; RegionName := "";
                    CityName := ""; ZipCode := ""; Latitude := 0; Longitude := 0;
                    MetroCode := ""; AreaCode := "" |}.
Proof.
  apply (reserved_sentinel sample_ParseIP sample_LookupHost
           (sample_request "json" "10.1.2.3" "8.8.8.8:4242") sample_db empty_world
           "json" "10.1.2.3" "10.1.2.3").
  - reflexivity.
  - reflexivity.
  - reflexivity.
  - exists {| net.net_IP := net.IPv4 10 0 0 0; net.net_Mask := net.IPv4Mask 255 192 0 0 |}.
    split; [vm_compute; tauto | reflexivity].
Defined.

(** C5, as stated, fails.  A table without a qualifying row and a
    database whose query fails both end the request with status 500:
    absence is not reported as a client error, and the two failures
    share their status. *)
Lemma absence_is_a_server_error :
  let req := sample_request "json" "8.8.8.8" "8.8.8.8:4242" in
  let absent := (LookupHandler sample_ParseIP sample_LookupHost req empty_db empty_world).1 in
  let failed := (LookupHandler sample_ParseIP sample_LookupHost req failing_db empty_world).1 in
  absent = HTTPError 500 (Some ErrNoRows)
  /\ failed = HTTPError 500 (Some (ErrFault "disk I/O error"))
  /\ status absent = status failed
  /\ client_error absent = false.
Proof. vm_compute. repeat split. Qed.

(** C5, amended.  For an address in no reserved range: a failure to
    prepare the statement ends the lookup with status 404 and the
    storage error; a failure of the query ends it with status 500 and
    the storage error; and with the database answering, the lookup ends
    with status 500 and the no-rows error exactly when no row has an
    [ip_start] at or below the number of the address.  Absence and a
    failed query differ in the error they carry, not in the status. *)
Theorem lookup_failure_replies (ParseIP : string -> net.IP) (db : sql.DB)
    (addr : string) (w : World) :
  (forall n, In n reservedIPs -> net.Contains n (ParseIP addr) = false) ->
  match sql.prepare_fault db, sql.query_fault db with
  | Some m, _ =>
      (Lookup ParseIP db addr w).1 = inr (HTTPError 404 (Some (ErrFault m)))
  | None, Some m =>
      (Lookup ParseIP db addr w).1 = inr (HTTPError 500 (Some (ErrFault m)))
  | None, None =>
      (forall r', In r' (sql.rows db) -> numeric (ParseIP addr) < sql.ip_start r')
      <-> (Lookup ParseIP db addr w).1 = inr (HTTPError 500 (Some ErrNoRows))
  end.
Proof.
  intros Hres. apply is_reserved_false in Hres.
  rewrite Lookup_unreserved by assumption.
  unfold sql.Prepare, sql.QueryRow.
  destruct (sql.prepare_fault db) as [m|]; [reflexivity|].
  destruct (sql.query_fault db) as [m|]; [reflexivity|].
  cbn [fmap option_fmap option_map fst].
  destruct (sql.select _ _) as [r|] eqn:Hsel; cbn [fst].
  - apply select_Some in Hsel as (Hin & Hle & _). split; [|discriminate].
    intros Hall. specialize (Hall r Hin). lia.
  - split; [reflexivity|]. intros _. now apply select_None.
Qed.

Lemma lookup_failure_replies_witness :
  (forall r', In r' (sql.rows empty_db) ->
              numeric (sample_ParseIP "8.8.8.8") < sql.ip_start r')
  <-> (Lookup sample_ParseIP empty_db "8.8.8.8" empty_world).1
      = inr (HTTPError 500 (Some ErrNoRows)).
Proof.
  apply (lookup_failure_replies sample_ParseIP empty_db "8.8.8.8" empty_world).
  apply is_reserved_false. vm_compute. reflexivity.
Defined.




(** ** The address of the request *)

Lemma first_field_strips_port (host port : string) :
  no_colon host = true ->
  strings.first_field (host ++ String ":"%char port) = host.
Proof.
  induction host as [|c host IH]; cbn [no_colon].
  - intros _. change (strings.first_field (String ":"%char port) = "").
    cbn [strings.first_field]. now rewrite bool_decide_eq_true_2.
  - intros [Hc Hrest]%andb_true_iff. apply negb_true_iff in Hc.
    change (strings.first_field (String c (host ++ String ":"%char port))
            = String c host).
    cbn [strings.first_field]. rewrite Hc. f_equal. now apply IH.
Qed.

Lemma run_handler_leave (r : Reply) (w : World) :
  run_handler (leave r) w = (r, w).
Proof.
  unfold run_handler, leave. cbn. rewrite app_nil_r. now destruct w.
Qed.

Lemma run_handler_left {A : Type} (m : Act A) (k : A -> Act unit)
    (r : Reply) (w : World) :
  (forall w', m w' = (inr r, w')) -> run_handler (m ≫= k) w = (r, w).
Proof.
  intros Hm. unfold run_handler, mbind, Act_bind. rewrite Hm. cbn.
  rewrite app_nil_r. now destruct w.
Qed.

(** ** The handler, case by case *)

Lemma render_eq (req : Request) (format : string) (g : GeoIP) (w : World) :
  render req format g w
  = ((rendered req format g).1, with_hdrs (hdrs w ++ (rendered req format g).2)%list w).
Proof.
  unfold rendered, render, mbind, Act_bind, SetHeader, leave, mret, Act_ret.
  destruct format as [|c rest]; [cbn; rewrite app_nil_r; now destruct w|].
  repeat case_bool_decide; cbn; try destruct (json_Marshal g); cbn;
    rewrite ?app_nil_r; try reflexivity; now destruct w.
Qed.

Section HandlerCases.

Variable ParseIP : string -> net.IP.
Variable LookupHost : string -> list string * option error.

Lemma run_lookup_cases (req : Request) (db : sql.DB) (w : World)
    (format addr : string) :
  run_handler (geoip ← Lookup ParseIP db addr; render req format geoip) w
  = if is_reserved (ParseIP addr) then
      let out := rendered req format (set_country "RD" "Reserved" (GeoIP_of_addr addr)) in
      (reply_of out.1, with_hdrs (hdrs w ++ out.2)%list w)
    else
      match sql.Prepare db with
      | Some e => (HTTPError 404 (Some e), after_prepare w)
      | None =>
          let x := numeric (ParseIP addr) in
          match sql.QueryRow db x with
          | inr e => (HTTPError 500 (Some e), after_close x w)
          | inl r =>
              let out := rendered req format (Scan r (GeoIP_of_addr addr)) in
              (reply_of out.1, with_hdrs (hdrs w ++ out.2)%list (after_close x w))
          end
      end.
Proof.
  unfold run_handler, mbind, Act_bind.
  destruct (is_reserved (ParseIP addr)) eqn:Hr.
  - rewrite Lookup_reserved by assumption. rewrite render_eq.
    cbn. rewrite app_nil_r. now destruct w.
  - rewrite Lookup_unreserved by assumption.
    destruct (sql.Prepare db) as [e|].
    + cbn. rewrite app_nil_r. now destruct w.
    + destruct (sql.QueryRow db _) as [r|e].
      * rewrite render_eq. cbn. rewrite <- app_assoc. reflexivity.
      * cbn. rewrite <- app_assoc. reflexivity.
Qed.

Lemma LookupHandler_cases (req : Request) (db : sql.DB) (w : World)
    (format a0 : string) :
  Vars req !! 1%nat = Some format ->
  Vars req !! 2%nat = Some a0 ->
  LookupHandler ParseIP LookupHost req db w
  = match (resolve_addr LookupHost req a0 w).1 with
    | inr r => (r, w)
    | inl addr =>
        run_handler (geoip ← Lookup ParseIP db addr; render req format geoip) w
    end.
Proof.
  intros Hf Ha.
  destruct (resolve_addr LookupHost req a0 w).1 as [addr|r] eqn:Hres.
  - now apply LookupHandler_resolved with (a0 := a0).
  - unfold LookupHandler. rewrite Hf, Ha. apply run_handler_left.
    intros w'. rewrite (surjective_pairing (resolve_addr _ _ _ _)).
    now rewrite resolve_addr_world, (resolve_addr_any_world _ _ _ w' w), Hres.
Qed.

End HandlerCases.

(** The text before the first colon has no colon, and is the whole
    text or is followed by a colon. *)
Lemma first_field_spec (s : string) :
  no_colon (strings.first_field s) = true
  /\ (s = strings.first_field s
      \/ exists rest, s = strings.first_field s ++ String ":"%char rest).
Proof.
  induction s as [|c s [IHn IHs]]; [split; [reflexivity|now left]|].
  cbn [strings.first_field]. case_bool_decide as Hc.
  - subst c. split; [reflexivity|]. right. exists s. reflexivity.
  - cbn [no_colon]. rewrite bool_decide_eq_false_2 by assumption.
    split; [exact IHn|].
    destruct IHs as [IHs|[rest IHs]].
    + left. now rewrite <- IHs.
    + right. exists rest.
      change (String c (strings.first_field s) ++ String ":"%char rest)
        with (String c (strings.first_field s ++ String ":"%char rest)).
      now rewrite <- IHs.
Qed.

Lemma rendered_error (req : Request) (format : string) (g : GeoIP)
    (code : Z) (err : option error) :
  reply_of (rendered req format g).1 = HTTPError code err -> code = 500.
Proof.
  unfold rendered, render, mbind, Act_bind, SetHeader, leave, mret, Act_ret.
  destruct format as [|c rest]; [discriminate|].
  repeat case_bool_decide; cbn; try destruct (json_Marshal g); cbn;
    intros [= <- _] || discriminate; reflexivity.
Qed.

Lemma rendered_record (req : Request) (format : string) (g : GeoIP) (b : Body) :
  reply_of (rendered req format g).1 = Wrote b -> record_of b = g.
Proof.
  intros H. apply (render_record req format g empty_world).
  unfold rendered in H.
  destruct (render req format g empty_world) as [[u|r] w']; cbn in *;
    [discriminate|]. now subst r.
Qed.

(** The handler, once the address is known, has looked it up. *)
Lemma lookup_looked_up (ParseIP : string -> net.IP) (req : Request)
    (db : sql.DB) (w : World) (format a : string) :
  looked_up ParseIP db a w
    (run_handler (geoip ← Lookup ParseIP db a; render req format geoip) w).
Proof.
  rewrite run_lookup_cases. unfold looked_up.
  destruct (is_reserved (ParseIP a)) eqn:Hr; cbn zeta.
  - cbn [fst snd]. split; [|split].
    + intros b Hb. now apply rendered_record in Hb.
    + intros code err He. right. now apply rendered_error in He.
    + cbn. now rewrite app_nil_r.
  - unfold sql.Prepare, sql.QueryRow.
    destruct (sql.prepare_fault db) as [m|]; cbn [fmap option_fmap option_map].
    { cbn [fst snd]. split; [discriminate|]. split; [|reflexivity].
      intros code err [= <- _]. now left. }
    destruct (sql.query_fault db) as [m|].
    { cbn [fst snd]. split; [discriminate|]. split; [|reflexivity].
      intros code err [= <- _]. now right. }
    destruct (sql.select _ _) as [r|] eqn:Hsel.
    + cbn [fst snd]. split; [|split; [|reflexivity]].
      * intros b Hb. exists r. split; [now apply select_Some|].
        now apply rendered_record in Hb.
      * intros code err He. right. now apply rendered_error in He.
    + cbn [fst snd]. split; [discriminate|]. split; [|reflexivity].
      intros code err [= <- _]. now right.
Qed.

(** C10, as stated, fails for a peer with an IPv6 address: the text
    before the first colon of "[2001:db8::1]:51234" is "[2001", and
    that, not the peer's address, is what is looked up and echoed. *)
Lemma ipv6_peer_is_cut_at_the_first_colon :
  let req := sample_request "json" "" "[2001:db8::1]:51234" in
  strings.first_field (RemoteAddr req) = "[2001"
  /\ (LookupHandler sample_ParseIP sample_LookupHost req whole_range_db empty_world).1
     = Wrote (JSON {| XMLName := ("", ""); Ip := "[2001";
                      CountryCode := "ZZ"; CountryName := "Everywhere";
                      RegionCode := ""; RegionName := ""; CityName := "";
                      ZipCode := ""; Latitude := 0; Longitude := 0;
                      MetroCode := ""; AreaCode := "" |})
  /\ LookupHandler sample_ParseIP sample_LookupHost req sample_db empty_world
     = (HTTPError 500 (Some ErrNoRows),
        with_dbops [sql.OpPrepare lookup_query; sql.OpQueryRow 0; sql.OpClose]
          empty_world).
Proof. vm_compute. repeat split. Qed.

(** C10, amended.  With an empty address in the path, the handler
    looks up the text of [RemoteAddr] before its first colon: a text
    without colon that is the whole of [RemoteAddr] or is followed
    there by a colon, hence the peer's host when [RemoteAddr] is a
    host without colons, a colon and a port.  It asks no resolver, and
    so does not end with status 400.  With an address in the path, the
    handler first asks the host resolver: it looks up the first
    address returned, and a resolver error ends the request with
    status 400.  What looking up an address shows is said by
    [looked_up]. *)
Theorem own_address_when_empty (ParseIP : string -> net.IP)
    (LookupHost : string -> list string * option error)
    (req : Request) (db : sql.DB) (w : World) (format addr : string) :
  Vars req !! 1%nat = Some format ->
  Vars req !! 2%nat = Some addr ->
  let own := strings.first_field (RemoteAddr req) in
  let handler := LookupHandler ParseIP LookupHost req db w in
  (addr = "" ->
     looked_up ParseIP db own w handler
     /\ no_colon own = true
     /\ (RemoteAddr req = own
         \/ exists rest, RemoteAddr req = own ++ String ":"%char rest)
     /\ (forall host port, RemoteAddr req = host ++ String ":"%char port ->
                           no_colon host = true -> own = host))
  /\ (addr <> "" ->
      match LookupHost addr with
      | (_, Some e) => handler = (HTTPError 400 (Some e), w)
      | (a :: _, None) => looked_up ParseIP db a w handler
      | ([], None) => handler = (Panicked, w)
      end).
Proof.
  intros Hf Ha own handler. split.
  - intros ->. assert (Hh : handler
      = run_handler (geoip ← Lookup ParseIP db own; render req format geoip) w).
    { apply LookupHandler_resolved with (a0 := ""); try assumption.
      unfold resolve_addr. now rewrite bool_decide_eq_true_2. }
    split; [rewrite Hh; apply lookup_looked_up|].
    destruct (first_field_spec (RemoteAddr req)) as [Hn Hs].
    split; [exact Hn|]. split; [exact Hs|].
    intros host port Hra Hnc. unfold own. rewrite Hra.
    now apply first_field_strips_port.
  - intros Hne.
    assert (Hleave : forall r,
              (forall w', resolve_addr LookupHost req addr w' = (inr r, w')) ->
              handler = (r, w)).
    { intros r Hr. unfold handler, LookupHandler. rewrite Hf, Ha.
      now apply run_handler_left. }
    destruct (LookupHost addr) as [[|a rest] [e|]] eqn:HLH.
    + apply Hleave. intros w'. unfold resolve_addr.
      now rewrite bool_decide_eq_false_2, HLH by assumption.
    + apply Hleave. intros w'. unfold resolve_addr.
      now rewrite bool_decide_eq_false_2, HLH by assumption.
    + apply Hleave. intros w'. unfold resolve_addr.
      now rewrite bool_decide_eq_false_2, HLH by assumption.
    + assert (Hh : handler
        = run_handler (geoip ← Lookup ParseIP db a; render req format geoip) w).
      { apply LookupHandler_resolved with (a0 := addr); try assumption.
        unfold resolve_addr. now rewrite bool_decide_eq_false_2, HLH by assumption. }
      rewrite Hh. apply lookup_looked_up.
Qed.

(** A request for its own address from 8.8.8.8:4242 is answered with
    the block of 8.8.8.8. *)
Lemma own_address_when_empty_witness :
  (let req := sample_request "json" "" "8.8.8.8:4242" in
   let own := strings.first_field (RemoteAddr req) in
   let handler := LookupHandler sample_ParseIP sample_LookupHost req sample_db empty_world in
   ("" = "" ->
      looked_up sample_ParseIP sample_db own empty_world handler
      /\ no_colon own = true
      /\ (RemoteAddr req = own
          \/ exists rest, RemoteAddr req = own ++ String ":"%char rest)
      /\ (forall host port, RemoteAddr req = host ++ String ":"%char port ->
                            no_colon host = true -> own = host))
   /\ ("" <> "" ->
       match sample_LookupHost "" with
       | (_, Some e) => handler = (HTTPError 400 (Some e), empty_world)
       | (a :: _, None) => looked_up sample_ParseIP sample_db a empty_world handler
       | ([], None) => handler = (Panicked, empty_world)
       end))
  /\ strings.first_field "8.8.8.8:4242" = "8.8.8.8"
  /\ LookupHandler sample_ParseIP sample_LookupHost
       (sample_request "json" "" "8.8.8.8:4242") sample_db empty_world
     = (Wrote (JSON {| XMLName := ("", ""); Ip := "8.8.8.8";
                       CountryCode := "CC"; CountryName := "Third";
                       RegionCode := ""; RegionName := ""; CityName := "";
                       ZipCode := ""; Latitude := 0; Longitude := 0;
                       MetroCode := ""; AreaCode := "" |}),
        with_hdrs [("Content-Type", "application/json")]
          (with_dbops [sql.OpPrepare lookup_query; sql.OpQueryRow 134744072;
                       sql.OpClose] empty_world)).
Proof.
  split; [|split; reflexivity].
  apply (own_address_when_empty sample_ParseIP sample_LookupHost
           (sample_request "json" "" "8.8.8.8:4242") sample_db empty_world "json" "").
  - reflexivity.
  - reflexivity.
Defined.

(** ** The quota: one call *)

Lemma next_outage_clock (w : World) : clock (next_outage w).2 = clock w.
Proof. unfold next_outage. now destruct (outages w). Qed.

Lemma next_outage_cache (w : World) : cache (next_outage w).2 = cache w.
Proof. unfold next_outage. now destruct (outages w). Qed.

Lemma next_outage_none (w : World) : outages w = [] -> next_outage w = (None, w).
Proof. unfold next_outage. now intros ->. Qed.

(** [quota], case by case: what the first call to the server meets,
    what it finds under the key, and what the second call meets. *)
Lemma quota_verdict_cases (k : string) (w : World) :
  quota_verdict k w
  = let '(f1, w1) := next_outage w in
    match f1 with
    | Some m => (BackendUnavailable (ErrFault m), w1)
    | None =>
        match memcache.find (clock w) (cache w) k with
        | None =>
            let '(f2, w2) := next_outage w1 in
            match f2 with
            | Some m => (BackendUnavailable (ErrFault m), w2)
            | None =>
                (Allowed,
                 with_cache (<[k := {| memcache.data := "1";
                                       memcache.deadline := Some (clock w + 3600) |}]>
                               (cache w)) w2)
            end
        | Some e =>
            if (strconv.Atoi (memcache.data e)).1 <? maxRequestsPerIP
            then (Allowed, (mc_Increment k 1 w1).2)
            else (Denied, w1)
        end
    end.
Proof.
  unfold quota_verdict, quota, mbind, Act_bind, lift, mc_Get.
  pose proof (next_outage_clock w) as Hc. pose proof (next_outage_cache w) as Hs.
  destruct (next_outage w) as [[m|] w1]; cbn [fst snd] in *; [reflexivity|].
  unfold memcache.Get. rewrite Hc, Hs.
  destruct (memcache.find (clock w) (cache w) k) as [e|].
  - rewrite bool_decide_eq_false_2 by discriminate.
    unfold mret, Act_ret, leave. cbn.
    destruct (_ <? _); [|reflexivity].
    now destruct (mc_Increment k 1 w1).
  - rewrite bool_decide_eq_true_2 by reflexivity. unfold mc_Set.
    pose proof (next_outage_clock w1) as Hc2. pose proof (next_outage_cache w1) as Hs2.
    destruct (next_outage w1) as [[m|] w2]; cbn [fst snd] in *;
      [cbn; now destruct w2|].
    cbn. unfold memcache.deadline_of, expirySeconds. cbn. now rewrite Hc2, Hs2, Hc, Hs.
Qed.

Lemma find_Some (now : Z) (s : gmap string memcache.Entry) (k : string)
    (v : string) (d : Z) :
  s !! k = Some {| memcache.data := v; memcache.deadline := Some d |} ->
  now < d ->
  memcache.find now s k = Some {| memcache.data := v; memcache.deadline := Some d |}.
Proof.
  intros Hk Hd. unfold memcache.find, memcache.fresh. rewrite Hk. cbn.
  destruct (Z.ltb_spec now d); [reflexivity|lia].
Qed.

(** The first call of a window creates the counter. *)
Lemma quota_fresh (k : string) (w : World) :
  outages w = [] ->
  memcache.find (clock w) (cache w) k = None ->
  quota_verdict k w
  = (Allowed,
     with_cache (<[k := {| memcache.data := "1";
                           memcache.deadline := Some (clock w + 3600) |}]> (cache w)) w).
Proof.
  intros Ho Hf. rewrite quota_verdict_cases, (next_outage_none w Ho), Hf.
  now rewrite (next_outage_none w Ho).
Qed.

(** A call that finds a count below the ceiling adds one to it. *)
Lemma quota_counting (k : string) (w : World) (n d : Z) :
  outages w = [] ->
  cache w !! k = Some {| memcache.data := strconv.utoa n; memcache.deadline := Some d |} ->
  clock w < d ->
  0 <= n < maxRequestsPerIP ->
  quota_verdict k w
  = (Allowed,
     with_cache (<[k := {| memcache.data := strconv.utoa (n + 1);
                           memcache.deadline := Some d |}]> (cache w)) w).
Proof.
  unfold maxRequestsPerIP. intros Ho Hk Hd Hn.
  rewrite quota_verdict_cases, (next_outage_none w Ho).
  rewrite (find_Some _ _ _ _ _ Hk Hd). cbn [memcache.data].
  rewrite Atoi_utoa by (word_consts; lia). cbn [fst]. unfold maxRequestsPerIP.
  destruct (Z.ltb_spec n 2000); [|lia].
  unfold mc_Increment. rewrite (next_outage_none w Ho).
  unfold memcache.Increment. rewrite (find_Some _ _ _ _ _ Hk Hd). cbn [memcache.data].
  rewrite number_utoa by (word_consts; lia).
  rewrite Z.mod_small by (word_consts; lia). reflexivity.
Qed.

(** A call that finds the ceiling reached is denied and writes nothing. *)
Lemma quota_at_ceiling (k : string) (w : World) (e : memcache.Entry) :
  (next_outage w).1 = None ->
  memcache.find (clock w) (cache w) k = Some e ->
  maxRequestsPerIP <= (strconv.Atoi (memcache.data e)).1 ->
  quota_verdict k w = (Denied, (next_outage w).2).
Proof.
  intros Ho Hf Hc. rewrite quota_verdict_cases.
  destruct (next_outage w) as [f1 w1]. cbn [fst snd] in *. subst f1.
  rewrite Hf. destruct (Z.ltb_spec (strconv.Atoi (memcache.data e)).1 maxRequestsPerIP);
    [lia|reflexivity].
Qed.

Lemma quota_at_ceiling_quiet (k : string) (w : World) (d : Z) :
  outages w = [] ->
  cache w !! k = Some {| memcache.data := strconv.utoa maxRequestsPerIP;
                         memcache.deadline := Some d |} ->
  clock w < d ->
  quota_verdict k w = (Denied, w).
Proof.
  intros Ho Hk Hd.
  rewrite (quota_at_ceiling k w _
             ltac:(now rewrite (next_outage_none w Ho))
             (find_Some _ _ _ _ _ Hk Hd)) by (vm_compute; discriminate).
  now rewrite (next_outage_none w Ho).
Qed.

(** ** The quota: calls in a row *)

Lemma quota_verdicts_app (k : string) (ts1 ts2 : list Z) (w : World) :
  quota_verdicts k (ts1 ++ ts2)%list w
  = let '(v1, w1) := quota_verdicts k ts1 w in
    let '(v2, w2) := quota_verdicts k ts2 w1 in
    ((v1 ++ v2)%list, w2).
Proof.
  revert w. induction ts1 as [|t ts1 IH]; intros w; cbn [quota_verdicts app].
  - now destruct (quota_verdicts k ts2 w).
  - destruct (quota_verdict k (with_clock t w)) as [v w1]. rewrite IH.
    destruct (quota_verdicts k ts1 w1) as [v1 w2].
    now destruct (quota_verdicts k ts2 w2).
Qed.

(** Below the ceiling every call is allowed and counted. *)
Lemma quota_verdicts_counting (k : string) (d : Z) (ts : list Z) :
  forall (n : Z) (w : World),
  outages w = [] ->
  cache w !! k = Some {| memcache.data := strconv.utoa n; memcache.deadline := Some d |} ->
  0 <= n -> n + Z.of_nat (length ts) <= maxRequestsPerIP ->
  Forall (fun t => t < d) ts ->
  (quota_verdicts k ts w).1 = replicate (length ts) Allowed
  /\ outages (quota_verdicts k ts w).2 = []
  /\ cache (quota_verdicts k ts w).2 !! k
     = Some {| memcache.data := strconv.utoa (n + Z.of_nat (length ts));
               memcache.deadline := Some d |}.
Proof.
  induction ts as [|t ts IH]; intros n w Ho Hk Hn Hmax Hts.
  - cbn. rewrite Z.add_0_r. auto.
  - apply Forall_cons in Hts as [Ht Hts]. cbn [quota_verdicts length] in *.
    rewrite (quota_counting k (with_clock t w) n d) by (cbn; (assumption || lia)).
    set (w1 := with_cache _ _).
    specialize (IH (n + 1) w1 Ho).
    destruct (quota_verdicts k ts w1) as [vs w2]. cbn [fst snd] in *.
    destruct IH as (Hv & Ho2 & Hk2); [apply lookup_insert_eq | lia | lia | assumption |].
    rewrite Hv, Ho2, Hk2. repeat split. do 3 f_equal. lia.
Qed.

(** At the ceiling every call is denied and the world stays. *)
Lemma quota_verdicts_ceiling (k : string) (d : Z) (ts : list Z) :
  forall (w : World),
  outages w = [] ->
  cache w !! k = Some {| memcache.data := strconv.utoa maxRequestsPerIP;
                         memcache.deadline := Some d |} ->
  Forall (fun t => t < d) ts ->
  (quota_verdicts k ts w).1 = replicate (length ts) Denied
  /\ outages (quota_verdicts k ts w).2 = []
  /\ cache (quota_verdicts k ts w).2 = cache w.
Proof.
  induction ts as [|t ts IH]; intros w Ho Hk Hts.
  - cbn. auto.
  - apply Forall_cons in Hts as [Ht Hts]. cbn [quota_verdicts length].
    rewrite (quota_at_ceiling_quiet k (with_clock t w) d) by assumption.
    specialize (IH (with_clock t w) Ho Hk Hts).
    destruct (quota_verdicts k ts (with_clock t w)) as [vs w2]. cbn [fst snd] in *.
    destruct IH as (Hv & Ho2 & Hk2). now rewrite Hv, Ho2, Hk2.
Qed.

(** A window, from the call that opens it: the first 2000 calls are
    allowed and counted, the later ones denied. *)
Lemma quota_window (k : string) (w : World) (t0 : Z) (ts : list Z) :
  outages w = [] ->
  memcache.find t0 (cache w) k = None ->
  Forall (fun t => t < t0 + 3600) ts ->
  let N := S (length ts) in
  let after := quota_verdicts k (t0 :: ts) w in
  after.1 = (replicate (N `min` 2000) Allowed ++ replicate (N - 2000) Denied)%list
  /\ outages after.2 = []
  /\ cache after.2 !! k
     = Some {| memcache.data := strconv.utoa (Z.of_nat (N `min` 2000));
               memcache.deadline := Some (t0 + 3600) |}.
Proof.
  intros Ho Hf Hts N after. subst after. cbn [quota_verdicts].
  rewrite (quota_fresh k (with_clock t0 w)) by assumption.
  cbn [clock with_clock]. set (w1 := with_cache _ _).
  assert (Ho1 : outages w1 = []) by exact Ho.
  assert (Hk1 : cache w1 !! k
                = Some {| memcache.data := strconv.utoa 1;
                          memcache.deadline := Some (t0 + 3600) |})
    by apply lookup_insert_eq.
  remember (take 1999 ts) as ts1 eqn:E1. remember (drop 1999 ts) as ts2 eqn:E2.
  assert (Hsplit : ts = (ts1 ++ ts2)%list) by (subst; symmetry; apply take_drop).
  assert (Hlen1 : length ts1 = (1999 `min` length ts)%nat) by (subst; apply length_take).
  assert (Hlen2 : length ts2 = (length ts - 1999)%nat) by (subst; apply length_drop).
  subst N. clear E1 E2. rewrite Hsplit in Hts.
  apply Forall_app in Hts as [Hts1 Hts2].
  replace (quota_verdicts k ts w1) with (quota_verdicts k (ts1 ++ ts2)%list w1)
    by now rewrite Hsplit.
  rewrite quota_verdicts_app.
  destruct (quota_verdicts_counting k (t0 + 3600) ts1 1 w1 Ho1 Hk1)
    as (Hv1 & Ho2 & Hk2); [lia | unfold maxRequestsPerIP; lia | assumption |].
  destruct (quota_verdicts k ts1 w1) as [vs1 w2]. cbn [fst snd] in *.
  destruct (Nat.le_gt_cases (length ts) 1999) as [Hle|Hgt].
  - assert (Hnil : ts2 = []) by (apply nil_length_inv; lia).
    rewrite Hnil. cbn [quota_verdicts fst snd]. rewrite Hv1.
    replace (S (length ts) - 2000)%nat with 0%nat by lia.
    replace (S (length ts) `min` 2000)%nat with (S (length ts1)) by lia.
    cbn [replicate]. rewrite !app_nil_r.
    split; [reflexivity|]. split; [assumption|].
    rewrite Hk2. do 3 f_equal. lia.
  - replace (1 + Z.of_nat (length ts1)) with maxRequestsPerIP in Hk2
      by (unfold maxRequestsPerIP; lia).
    destruct (quota_verdicts_ceiling k (t0 + 3600) ts2 w2 Ho2 Hk2 Hts2)
      as (Hv3 & Ho3 & Hk3).
    destruct (quota_verdicts k ts2 w2) as [vs2 w3]. cbn [fst snd] in *.
    rewrite Hv1, Hv3, Hk3, Hk2.
    replace (S (length ts) `min` 2000)%nat with (S (length ts1)) by lia.
    replace (S (length ts) - 2000)%nat with (length ts2) by lia.
    split; [reflexivity|]. split; [assumption|].
    do 3 f_equal. unfold maxRequestsPerIP. lia.
Qed.

(** C6.  From a key with no live counter, N calls in a row within 3600
    seconds of the first, for N from 1 to 2000, are all allowed and
    leave the counter at exactly N: the stored text is a decimal
    numeral that says N, and a later read in the window returns it;
    the first call creates the counter at 1, to expire 3600 seconds
    later. *)
Theorem quota_counts_exactly (k : string) (w : World) (t0 : Z) (ts : list Z) :
  outages w = [] ->
  memcache.find t0 (cache w) k = None ->
  Forall (fun t => t < t0 + expirySeconds) ts ->
  (S (length ts) <= 2000)%nat ->
  let N := S (length ts) in
  let after := quota_verdicts k (t0 :: ts) w in
  after.1 = replicate N Allowed
  /\ (exists v,
        decimal v = Some (Z.of_nat N)
        /\ cache after.2 !! k
           = Some {| memcache.data := v;
                     memcache.deadline := Some (t0 + 3600) |}
        /\ forall t, t < t0 + 3600 ->
             memcache.Get None t (cache after.2) k
             = (Some {| memcache.Key := k; memcache.Value := v;
                        memcache.Expiration := 0 |}, None))
  /\ cache (quota_verdict k (with_clock t0 w)).2 !! k
     = Some {| memcache.data := "1"; memcache.deadline := Some (t0 + 3600) |}.
Proof.
  intros Ho Hf Hts HN N after.
  destruct (quota_window k w t0 ts Ho Hf Hts) as (Hv & _ & Hk).
  fold N after in Hv, Hk.
  replace (N `min` 2000)%nat with N in * by (subst N; lia).
  replace (N - 2000)%nat with 0%nat in * by (subst N; lia).
  cbn [replicate] in Hv. rewrite app_nil_r in Hv.
  split; [exact Hv|]. split.
  - exists (strconv.utoa (Z.of_nat N)). split; [|split; [exact Hk|]].
    + apply decimal_utoa. subst N. word_consts. lia.
    + intros t Ht. unfold memcache.Get. now rewrite (find_Some _ _ _ _ _ Hk Ht).
  - rewrite (quota_fresh k (with_clock t0 w)) by assumption. apply lookup_insert_eq.
Qed.

(** Four calls in an empty store: the counter reads "4". *)
Lemma quota_counts_exactly_witness :
  (let after := quota_verdicts "192.0.2.7" [0; 10; 20; 3599] empty_world in
   after.1 = replicate 4 Allowed
   /\ (exists v,
         decimal v = Some (Z.of_nat 4)
         /\ cache after.2 !! "192.0.2.7"
            = Some {| memcache.data := v; memcache.deadline := Some (0 + 3600) |}
         /\ forall t, t < 0 + 3600 ->
              memcache.Get None t (cache after.2) "192.0.2.7"
              = (Some {| memcache.Key := "192.0.2.7"; memcache.Value := v;
                         memcache.Expiration := 0 |}, None))
   /\ cache (quota_verdict "192.0.2.7" (with_clock 0 empty_world)).2 !! "192.0.2.7"
      = Some {| memcache.data := "1"; memcache.deadline := Some (0 + 3600) |})
  /\ cache (quota_verdicts "192.0.2.7" [0; 10; 20; 3599] empty_world).2 !! "192.0.2.7"
     = Some {| memcache.data := "4"; memcache.deadline := Some 3600 |}
  /\ (quota_verdicts "192.0.2.7" [0; 10; 20; 3599] empty_world).1
     = [Allowed; Allowed; Allowed; Allowed].
Proof.
  split; [|split; reflexivity].
  apply (quota_counts_exactly "192.0.2.7" empty_world 0 [10; 20; 3599]).
  - reflexivity.
  - reflexivity.
  - repeat constructor.
  - cbn. lia.
Defined.

(** ** The ceiling *)

Lemma parse_digits_nonneg (s : string) : forall (acc n : Z),
  0 <= acc -> strconv.parse_digits s acc = (n, None) -> 0 <= n.
Proof.
  induction s as [|c s IH]; intros acc n Hacc; cbn [strconv.parse_digits].
  - now intros [= <-].
  - destruct (_ && _); [|discriminate].
    destruct (_ <=? acc); [discriminate|].
    destruct (_ || _); [discriminate|].
    apply IH. apply Z.mod_pos_bound. word_consts. lia.
Qed.

(** A text the server takes for a number is read by [Atoi] as that
    number, or as the greatest [int] when it is beyond. *)
Lemma number_Atoi (v : string) (n : Z) :
  memcache.number v = Some n ->
  0 <= n /\ (strconv.Atoi v).1 = if 2 ^ 63 <=? n then 2 ^ 63 - 1 else n.
Proof.
  unfold memcache.number. destruct (strconv.ParseUint v) as [n' [e|]] eqn:Hp;
    [discriminate|]. intros [= ->].
  destruct v as [|c rest]; [discriminate|].
  split; [apply (parse_digits_nonneg _ 0 n ltac:(lia) Hp)|].
  assert (Hdigit : 48 <= byte_of c <= 57).
  { cbn [strconv.ParseUint strconv.parse_digits] in Hp.
    destruct (Z.leb_spec 48 (byte_of c)), (Z.leb_spec (byte_of c) 57);
      cbn [andb] in Hp; (discriminate || lia). }
  assert (Hm : c <> "-"%char).
  { intros ->. change (byte_of "-") with 45 in Hdigit. lia. }
  assert (Hpl : c <> "+"%char).
  { intros ->. change (byte_of "+") with 43 in Hdigit. lia. }
  unfold strconv.Atoi, strconv.ParseInt.
  rewrite !bool_decide_eq_false_2 by assumption. cbn [orb].
  rewrite Hp. cbn [negb andb]. word_consts.
  now destruct (_ <=? n).
Qed.

Lemma count_of_ext (k : string) (w w' : World) :
  clock w' = clock w -> cache w' = cache w -> count_of k w' = count_of k w.
Proof. unfold count_of, counter. now intros -> ->. Qed.

Lemma find_inv (now : Z) (s : gmap string memcache.Entry) (k : string)
    (e : memcache.Entry) :
  memcache.find now s k = Some e -> s !! k = Some e /\ memcache.fresh now e = true.
Proof.
  unfold memcache.find. destruct (s !! k) as [e'|]; [|discriminate].
  destruct (memcache.fresh now e') eqn:Hf; [|discriminate]. now intros [= <-].
Qed.

Lemma count_of_insert (k : string) (w : World) (s : gmap string memcache.Entry)
    (e : memcache.Entry) :
  memcache.fresh (clock w) e = true ->
  count_of k (with_cache (<[k := e]> s) w) = (strconv.Atoi (memcache.data e)).1.
Proof.
  intros Hf. unfold count_of, counter, memcache.find. cbn [cache clock with_cache].
  now rewrite lookup_insert_eq, Hf.
Qed.

(** Whatever the store holds and whatever fails, a call does not take a
    count that is at most 2000 beyond 2000. *)
Lemma quota_keeps_ceiling (k : string) (w : World) :
  count_of k w <= maxRequestsPerIP ->
  count_of k (quota_verdict k w).2 <= maxRequestsPerIP.
Proof.
  intros Hle. rewrite quota_verdict_cases.
  pose proof (next_outage_clock w) as Hc1. pose proof (next_outage_cache w) as Hs1.
  destruct (next_outage w) as [[m|] w1]; cbn [fst snd] in *.
  { now rewrite (count_of_ext k w w1). }
  pose proof (next_outage_clock w1) as Hc2. pose proof (next_outage_cache w1) as Hs2.
  destruct (memcache.find (clock w) (cache w) k) as [e|] eqn:Hfind.
  - destruct (Z.ltb_spec (strconv.Atoi (memcache.data e)).1 maxRequestsPerIP)
      as [Hlt|Hge]; cbn [snd]; [|now rewrite (count_of_ext k w w1)].
    unfold mc_Increment.
    destruct (next_outage w1) as [[m|] w2]; cbn [fst snd] in *.
    { cbn. rewrite (count_of_ext k w); [assumption| cbn; congruence | cbn; congruence]. }
    unfold memcache.Increment. rewrite Hc2, Hc1, Hs2, Hs1, Hfind.
    destruct (memcache.number (memcache.data e)) as [n|] eqn:Hnum; cbn [snd].
    + apply number_Atoi in Hnum as [Hn0 HA]. rewrite HA in Hlt.
      unfold maxRequestsPerIP in *. word_consts.
      destruct (Z.leb_spec 9223372036854775808 n); [lia|].
      rewrite Z.mod_small by lia.
      apply find_inv in Hfind as [_ Hfresh].
      rewrite count_of_insert by (cbn; now rewrite Hc2, Hc1).
      cbn [memcache.data]. rewrite Atoi_utoa by (word_consts; lia). cbn. lia.
    + rewrite (count_of_ext k w); [assumption| cbn; congruence | cbn; congruence].
  - destruct (next_outage w1) as [[m|] w2]; cbn [fst snd] in *.
    { rewrite (count_of_ext k w w2); [assumption|congruence|congruence]. }
    rewrite count_of_insert.
    + cbn [memcache.data]. change (strconv.Atoi "1").1 with 1.
      unfold maxRequestsPerIP. lia.
    + unfold memcache.fresh. cbn. rewrite Hc2, Hc1.
      destruct (Z.ltb_spec (clock w) (clock w + 3600)); [reflexivity|lia].
Qed.

(** C3, amended.  For calls that run one after another the count never
    passes 2000.  A call that reaches the store and finds a count of
    2000 or more is denied and leaves the store as it was; a call never
    takes a count that is at most 2000 beyond 2000; and in a window,
    from the call that opens it, the first 2000 calls are allowed and
    every later one is denied, the counter staying at 2000: the 2001st
    call is denied and the counter is 2000 after it. *)
Theorem quota_ceiling (k : string) (w : World) :
  (forall e,
     (next_outage w).1 = None ->
     memcache.find (clock w) (cache w) k = Some e ->
     maxRequestsPerIP <= (strconv.Atoi (memcache.data e)).1 ->
     (quota_verdict k w).1 = Denied /\ cache (quota_verdict k w).2 = cache w)
  /\ (count_of k w <= maxRequestsPerIP ->
      count_of k (quota_verdict k w).2 <= maxRequestsPerIP)
  /\ (forall t0 ts,
        outages w = [] ->
        memcache.find t0 (cache w) k = None ->
        Forall (fun t => t < t0 + expirySeconds) ts ->
        let N := S (length ts) in
        let after := quota_verdicts k (t0 :: ts) w in
        after.1 = (replicate (N `min` 2000) Allowed ++ replicate (N - 2000) Denied)%list
        /\ cache after.2 !! k
           = Some {| memcache.data := strconv.utoa (Z.of_nat (N `min` 2000));
                     memcache.deadline := Some (t0 + expirySeconds) |}).
Proof.
  split; [|split].
  - intros e Ho Hf Hc. rewrite (quota_at_ceiling k w e Ho Hf Hc). cbn [fst snd].
    split; [reflexivity | apply next_outage_cache].
  - apply quota_keeps_ceiling.
  - intros t0 ts Ho Hf Hts N after.
    destruct (quota_window k w t0 ts Ho Hf Hts) as (Hv & _ & Hk). now split.
Qed.

Lemma quota_ceiling_witness :
  let after := quota_verdicts "192.0.2.7" (0 :: replicate 2000 1) empty_world in
  after.1 = (replicate 2000 Allowed ++ [Denied])%list
  /\ cache after.2 !! "192.0.2.7"
     = Some {| memcache.data := strconv.utoa 2000; memcache.deadline := Some 3600 |}.
Proof.
  apply (proj2 (proj2 (quota_ceiling "192.0.2.7" empty_world)) 0 (replicate 2000 1)).
  - reflexivity.
  - reflexivity.
  - apply Forall_replicate. reflexivity.
Defined.

(** ** The quota: when the store cannot be reached *)

(** The read and the create-on-miss report an outage as 503. *)
Lemma quota_get_outage (k : string) (w : World) (m : string) :
  (next_outage w).1 = Some m ->
  quota_verdict k w = (BackendUnavailable (ErrFault m), (next_outage w).2).
Proof.
  intros Ho. rewrite quota_verdict_cases.
  destruct (next_outage w) as [f1 w1]. cbn [fst snd] in *. now subst f1.
Qed.

Lemma quota_set_outage (k : string) (w : World) (m : string) :
  (next_outage w).1 = None ->
  memcache.find (clock w) (cache w) k = None ->
  (next_outage (next_outage w).2).1 = Some m ->
  (quota_verdict k w).1 = BackendUnavailable (ErrFault m).
Proof.
  intros Ho Hf Ho2. rewrite quota_verdict_cases.
  destruct (next_outage w) as [f1 w1]. cbn [fst snd] in *. subst f1. rewrite Hf.
  destruct (next_outage w1) as [f2 w2]. cbn [fst snd] in *. now subst f2.
Qed.

(** The increment does not: its result is dropped, and the call goes on
    to the lookup with the counter as it was. *)
Lemma quota_increment_outage (k : string) (w : World) (e : memcache.Entry) (m : string) :
  (next_outage w).1 = None ->
  memcache.find (clock w) (cache w) k = Some e ->
  (strconv.Atoi (memcache.data e)).1 < maxRequestsPerIP ->
  (next_outage (next_outage w).2).1 = Some m ->
  (quota_verdict k w).1 = Allowed /\ cache (quota_verdict k w).2 = cache w.
Proof.
  intros Ho Hf Hc Ho2. rewrite quota_verdict_cases.
  pose proof (next_outage_cache w) as Hs1.
  destruct (next_outage w) as [f1 w1]. cbn [fst snd] in *. subst f1. rewrite Hf.
  destruct (Z.ltb_spec (strconv.Atoi (memcache.data e)).1 maxRequestsPerIP); [|lia].
  split; [reflexivity|]. cbn [snd]. unfold mc_Increment.
  pose proof (next_outage_cache w1) as Hs2.
  destruct (next_outage w1) as [f2 w2]. cbn [fst snd] in *. subst f2. cbn.
  congruence.
Qed.

(** The closure's reply, from what [quota] decides. *)
Lemma checkQuota_reply (db : sql.DB)
    (fn : Request -> sql.DB -> World -> Reply * World) (req : Request) (w : World) :
  let k := strings.first_field (RemoteAddr req) in
  let w0 := with_hdrs (hdrs w ++ [("Access-Control-Allow-Origin", "*")])%list
              (with_deferred [] w) in
  (checkQuota db fn req w).1
  = match quota k w0 with
    | (inl _, w1) => (fn req db w1).1
    | (inr r, _) => r
    end.
Proof.
  intros k w0. unfold checkQuota, run_handler, mbind, Act_bind, SetHeader, call.
  change (hdrs (with_deferred [] w)) with (hdrs w). fold k. fold w0.
  destruct (quota k w0) as [[u|r] w1]; [|reflexivity].
  now destruct (fn req db w1).
Qed.

(** C4, where the code departs from it.  The key holds "5" and the
    server is reached for the read but not for the increment: the
    request is served as if allowed, with the counter still at "5". *)
Theorem increment_outage_is_served :
  let w := with_outages [None; Some "connection reset"] (stored "5") in
  let req := sample_request "json" "8.8.8.8" "192.0.2.7:51234" in
  let out := checkQuota sample_db (LookupHandler sample_ParseIP sample_LookupHost) req w in
  (quota_verdict "192.0.2.7" w).1 = Allowed
  /\ out.1 = Wrote (JSON (Scan (sample_row 1000 "CC" "Third") (GeoIP_of_addr "8.8.8.8")))
  /\ status out.1 = Some 200
  /\ counter "192.0.2.7" out.2 = Some "5".
Proof. vm_compute. repeat split. Qed.

(** ** The quota: a counter that is no number *)

Lemma parse_digits_error (s : string) : forall (acc n : Z) (e : error),
  strconv.parse_digits s acc = (n, Some e) ->
  (n = 0 /\ e = ErrSyntax) \/ (n = strconv.maxUint64 /\ e = ErrRange).
Proof.
  induction s as [|c s IH]; intros acc n e; cbn [strconv.parse_digits].
  - discriminate.
  - destruct (_ && _); [|intros [= <- <-]; now left].
    destruct (_ <=? acc); [intros [= <- <-]; now right|].
    destruct (_ || _); [intros [= <- <-]; now right|]. apply IH.
Qed.

Lemma ParseUint_error (s : string) (n : Z) (e : error) :
  strconv.ParseUint s = (n, Some e) ->
  (n = 0 /\ e = ErrSyntax) \/ (n = strconv.maxUint64 /\ e = ErrRange).
Proof.
  destruct s as [|c s]; [intros [= <- <-]; now left|].
  apply parse_digits_error.
Qed.

(** What [Atoi] returns with an error: 0 for a syntax error, the
    greatest or the least [int] for a range error. *)
Lemma Atoi_error (v : string) :
  (strconv.Atoi v).2 <> None ->
  strconv.Atoi v = (0, Some ErrSyntax)
  \/ strconv.Atoi v = (-9223372036854775808, Some ErrRange)
  \/ strconv.Atoi v = (9223372036854775807, Some ErrRange).
Proof.
  unfold strconv.Atoi, strconv.ParseInt.
  destruct v as [|c rest]; [now left|].
  set (s' := if _ || _ then rest else String c rest).
  destruct (strconv.ParseUint s') as [un [e|]] eqn:Hp.
  - apply ParseUint_error in Hp as [[-> ->]|[-> ->]].
    + cbn. now left.
    + rewrite bool_decide_eq_true_2 by reflexivity. cbn [negb].
      word_consts.
      destruct (bool_decide (c = "-"%char)); cbn; auto.
  - cbn [negb]. word_consts.
    destruct (bool_decide (c = "-"%char)); cbn [negb andb].
    + destruct (Z.ltb_spec 9223372036854775808 un); cbn; [auto|].
      intros Hn. now contradiction Hn.
    + destruct (Z.leb_spec 9223372036854775808 un); cbn; [auto|].
      intros Hn. now contradiction Hn.
Qed.

(** C9, as stated, fails.  A stored decimal number too large for an
    [int] is an [Atoi] error too, but the count is then the greatest
    [int], not 0, and the call is denied; and the stored text "abc"
    is allowed but not incremented: the server refuses it, and the
    text stays. *)
Lemma huge_counter_is_denied :
  strconv.Atoi "9223372036854775808" = (9223372036854775807, Some ErrRange)
  /\ (quota_verdict "192.0.2.7" (stored "9223372036854775808")).1 = Denied
  /\ strconv.Atoi "abc" = (0, Some ErrSyntax)
  /\ (quota_verdict "192.0.2.7" (stored "abc")).1 = Allowed
  /\ counter "192.0.2.7" (quota_verdict "192.0.2.7" (stored "abc")).2 = Some "abc".
Proof. vm_compute. repeat split. Qed.

(** C9, amended.  For a key whose stored value makes [Atoi] fail, a
    call that reaches the store drops the error and goes by the
    number that comes with it.  With a syntax error that number is 0,
    and with a range error below the range it is the least [int]: the
    call is allowed and sends the increment, the second call to the
    server, whose result it drops.  With a range error above the
    range the number is the greatest [int]: the call is denied and
    sends nothing more. *)
Theorem unreadable_counter_is_allowed (k : string) (w : World) (e : memcache.Entry) :
  (next_outage w).1 = None ->
  memcache.find (clock w) (cache w) k = Some e ->
  (strconv.Atoi (memcache.data e)).2 <> None ->
  let w1 := (next_outage w).2 in
  ((strconv.Atoi (memcache.data e) = (0, Some ErrSyntax)
    \/ strconv.Atoi (memcache.data e) = (-9223372036854775808, Some ErrRange))
   /\ quota_verdict k w = (Allowed, (mc_Increment k 1 w1).2)
   /\ outages (quota_verdict k w).2 = outages (next_outage w1).2)
  \/ (strconv.Atoi (memcache.data e) = (9223372036854775807, Some ErrRange)
      /\ quota_verdict k w = (Denied, w1)).
Proof.
  intros Ho Hf Herr. cbn zeta. rewrite quota_verdict_cases.
  destruct (next_outage w) as [f1 w1]. cbn [fst snd] in *. subst f1.
  rewrite Hf.
  assert (Hsent : outages (mc_Increment k 1 w1).2 = outages (next_outage w1).2).
  { unfold mc_Increment. destruct (next_outage w1) as [f2 w2]. cbn [snd].
    destruct (memcache.Increment f2 (clock w2) (cache w2) k 1). reflexivity. }
  destruct (Atoi_error _ Herr) as [H|[H|H]]; rewrite H; cbn [fst].
  - left. split; [now left|]. split; [reflexivity|exact Hsent].
  - left. split; [now right|]. split; [reflexivity|exact Hsent].
  - right. split; reflexivity.
Qed.

(** The three kinds at work: "abc" and a number below the range are
    allowed, with the second call to the server used up; a number
    above the range is denied. *)
Lemma unreadable_counter_is_allowed_witness :
  (let w1 := (next_outage (stored "abc")).2 in
   ((strconv.Atoi "abc" = (0, Some ErrSyntax)
     \/ strconv.Atoi "abc" = (-9223372036854775808, Some ErrRange))
    /\ quota_verdict "192.0.2.7" (stored "abc")
       = (Allowed, (mc_Increment "192.0.2.7" 1 w1).2)
    /\ outages (quota_verdict "192.0.2.7" (stored "abc")).2
       = outages (next_outage w1).2)
   \/ (strconv.Atoi "abc" = (9223372036854775807, Some ErrRange)
       /\ quota_verdict "192.0.2.7" (stored "abc") = (Denied, w1)))
  /\ strconv.Atoi "abc" = (0, Some ErrSyntax)
  /\ (quota_verdict "192.0.2.7" (stored "abc")).1 = Allowed
  /\ outages (quota_verdict "192.0.2.7"
                (with_outages [None; Some "connection reset"; None] (stored "abc"))).2
     = [None]
  /\ strconv.Atoi "-9223372036854775809" = (-9223372036854775808, Some ErrRange)
  /\ (quota_verdict "192.0.2.7" (stored "-9223372036854775809")).1 = Allowed
  /\ strconv.Atoi "9223372036854775808" = (9223372036854775807, Some ErrRange)
  /\ (quota_verdict "192.0.2.7" (stored "9223372036854775808")).1 = Denied.
Proof.
  split; [|vm_compute; repeat split].
  apply (unreadable_counter_is_allowed "192.0.2.7" (stored "abc")
           {| memcache.data := "abc"; memcache.deadline := Some 3600 |}).
  - reflexivity.
  - reflexivity.
  - discriminate.
Defined.

(** ** Requests in flight at the same time *)

(** One request alone, stepped twice, is [quota]. *)
Lemma threads_refine_quota (k : string) (w : World) :
  let '(pc1, w1) := thread_step k AtGet w in
  let '(pc2, w2) := thread_step k pc1 w1 in
  (pc2, w2) = (Done (quota_verdict k w).1, (quota_verdict k w).2).
Proof.
  rewrite quota_verdict_cases. unfold thread_step at 1, mc_Get.
  pose proof (next_outage_clock w) as Hc. pose proof (next_outage_cache w) as Hs.
  destruct (next_outage w) as [[m|] w1]; cbn [fst snd] in *; [reflexivity|].
  unfold memcache.Get. rewrite Hc, Hs.
  destruct (memcache.find (clock w) (cache w) k) as [e|].
  - rewrite bool_decide_eq_false_2 by discriminate. cbn [memcache.Value].
    destruct (_ <? _); [|reflexivity].
    cbn [thread_step]. now destruct (mc_Increment k 1 w1).
  - rewrite bool_decide_eq_true_2 by reflexivity. cbn [thread_step]. unfold mc_Set.
    pose proof (next_outage_clock w1) as Hc2. pose proof (next_outage_cache w1) as Hs2.
    destruct (next_outage w1) as [[m|] w2]; cbn [fst snd] in *; [cbn; now destruct w2|].
    cbn. unfold memcache.deadline_of, expirySeconds. cbn. now rewrite Hc2, Hs2, Hc, Hs.
Qed.

Lemma count_done_insert (ps : list Pc) : forall (i : nat) (pc pc' : Pc),
  ps !! i = Some pc ->
  (count_done (<[i := pc']> ps) + (if is_done pc then 1 else 0)
   = count_done ps + (if is_done pc' then 1 else 0))%nat.
Proof.
  unfold count_done.
  induction ps as [|p ps IH]; intros [|i] pc pc' Hi; try discriminate.
  - injection Hi as ->. cbn. destruct (is_done pc), (is_done pc'); cbn; lia.
  - cbn in Hi. specialize (IH i pc pc' Hi). cbn.
    destruct (is_done p); cbn; [f_equal|]; exact IH.
Qed.

Lemma count_done_bound (ps : list Pc) : (count_done ps <= length ps)%nat.
Proof. unfold count_done. apply List.filter_length_le. Qed.

Lemma count_done_lt (ps : list Pc) (i : nat) (pc : Pc) :
  ps !! i = Some pc -> is_done pc = false -> (count_done ps < length ps)%nat.
Proof.
  intros Hi Hnd.
  pose proof (count_done_insert ps i pc (Done Allowed) Hi) as Hins.
  pose proof (count_done_bound (<[i := Done Allowed]> ps)) as Hb.
  rewrite length_insert in Hb. rewrite Hnd in Hins. cbn in Hins. lia.
Qed.

Lemma count_done_all (ps : list Pc) :
  Forall (fun pc => is_done pc = true) ps -> count_done ps = length ps.
Proof.
  unfold count_done. induction 1 as [|p ps Hp _ IH]; [reflexivity|].
  cbn. rewrite Hp. cbn. now rewrite IH.
Qed.

Section Concurrent.

Variables (k : string) (e : memcache.Entry) (c : Z) (M : nat).
Hypothesis c_nonneg : 0 <= c.
Hypothesis headroom : c + Z.of_nat M <= maxRequestsPerIP.

Lemma counted_find (cf : Config) :
  counted k e c M cf ->
  exists v,
    memcache.find (clock cf.2) (cache cf.2) k
    = Some {| memcache.data := v; memcache.deadline := memcache.deadline e |}
    /\ decimal v = Some (c + Z.of_nat (count_done cf.1)).
Proof.
  intros (_ & Hf & _ & _ & v & Hk & Hv). exists v. split; [|exact Hv].
  unfold memcache.find. rewrite Hk.
  unfold memcache.fresh in *. cbn [memcache.deadline]. now rewrite Hf.
Qed.

Lemma counted_step (cf : Config) (i : nat) :
  counted k e c M cf ->
  counted k e c M (sched_step k cf i) /\ (sched_step k cf i).1 = advance_at cf.1 i.
Proof.
  intros Hinv. destruct (counted_find cf Hinv) as (v & Hfind & Hdec).
  destruct Hinv as (Ho & Hf & Hlen & Hgood & _).
  pose proof (find_inv _ _ _ _ Hfind) as [Hk _].
  destruct cf as [ps w]. cbn [fst snd] in *.
  unfold sched_step, advance_at. cbn [fst snd].
  destruct (ps !! i) as [pc|] eqn:Hi;
    [|unfold counted; cbn [fst snd]; eauto 10].
  pose proof (Forall_lookup_1 _ _ _ _ Hgood Hi) as [->|[->| ->]].
  - (* the read *)
    pose proof (count_done_lt ps i AtGet Hi eq_refl) as Hlt.
    unfold maxRequestsPerIP in headroom.
    assert (Hnum : memcache.number v = Some (c + Z.of_nat (count_done ps)))
      by (apply decimal_number; [exact Hdec|word_consts; lia]).
    apply number_Atoi in Hnum as [_ Hatoi]. word_consts.
    destruct (Z.leb_spec 9223372036854775808 (c + Z.of_nat (count_done ps)));
      [lia|].
    cbn [thread_step advance]. unfold mc_Get.
    rewrite (next_outage_none w Ho). unfold memcache.Get. rewrite Hfind.
    rewrite bool_decide_eq_false_2 by discriminate.
    cbn [memcache.Value memcache.data]. rewrite Hatoi.
    unfold maxRequestsPerIP.
    destruct (Z.ltb_spec (c + Z.of_nat (count_done ps)) 2000); [|lia].
    cbn [fst snd]. split; [|reflexivity].
    pose proof (count_done_insert ps i AtGet AtIncrement Hi) as Hcd. cbn in Hcd.
    unfold counted. cbn [fst snd].
    split; [assumption|]. split; [assumption|].
    split; [now rewrite length_insert|].
    split; [apply Forall_insert; [assumption|]; right; now left|].
    exists v. split; [exact Hk|].
    replace (count_done (<[i:=AtIncrement]> ps)) with (count_done ps) by lia.
    exact Hdec.
  - (* the increment *)
    pose proof (count_done_lt ps i AtIncrement Hi eq_refl) as Hlt.
    unfold maxRequestsPerIP in headroom.
    assert (Hnum : memcache.number v = Some (c + Z.of_nat (count_done ps)))
      by (apply decimal_number; [exact Hdec|word_consts; lia]).
    cbn [thread_step advance]. unfold mc_Increment.
    rewrite (next_outage_none w Ho). unfold memcache.Increment. rewrite Hfind.
    cbn [memcache.data memcache.deadline]. rewrite Hnum.
    rewrite Z.mod_small by (word_consts; lia).
    cbn [fst snd]. split; [|reflexivity].
    pose proof (count_done_insert ps i AtIncrement (Done Allowed) Hi) as Hcd.
    cbn in Hcd.
    unfold counted. cbn [fst snd].
    split; [assumption|]. split; [assumption|].
    split; [now rewrite length_insert|].
    split; [apply Forall_insert; [assumption|]; right; now right|].
    exists (strconv.utoa (c + Z.of_nat (count_done ps) + 1)).
    split; [cbn [cache with_cache]; apply lookup_insert_eq|].
    replace (c + Z.of_nat (count_done (<[i:=Done Allowed]> ps)))
      with (c + Z.of_nat (count_done ps) + 1) by lia.
    apply decimal_utoa. word_consts. lia.
  - (* done *)
    cbn [thread_step advance fst snd]. rewrite (list_insert_id _ _ _ Hi).
    unfold counted. cbn [fst snd]. eauto 10.
Qed.

Lemma counted_run (sched : list nat) : forall (cf : Config),
  counted k e c M cf ->
  counted k e c M (run_schedule k sched cf)
  /\ (run_schedule k sched cf).1 = fold_left advance_at sched cf.1.
Proof.
  unfold run_schedule.
  induction sched as [|i sched IH]; intros cf Hinv; cbn [fold_left]; [auto|].
  destruct (counted_step cf i Hinv) as [Hinv' Hps].
  destruct (IH _ Hinv') as [Hfin Hfold]. split; [assumption|].
  now rewrite Hfold, Hps.
Qed.

End Concurrent.

(** One pass over all requests moves each one step. *)
Lemma advance_pass (l2 : list Pc) : forall (l1 : list Pc),
  fold_left advance_at (seq (length l1) (length l2)) (l1 ++ l2)%list
  = (l1 ++ map advance l2)%list.
Proof.
  induction l2 as [|x l2 IH]; intros l1; [reflexivity|].
  assert (Hstep : advance_at (l1 ++ x :: l2)%list (length l1)
                  = ((l1 ++ [advance x]) ++ l2)%list).
  { unfold advance_at.
    rewrite (list_lookup_middle l1 l2 x (length l1) eq_refl).
    rewrite <- app_assoc. cbn [app].
    rewrite <- (Nat.add_0_r (length l1)) at 1. now rewrite insert_app_r. }
  cbn [length seq fold_left map]. rewrite Hstep.
  replace (S (length l1)) with (length (l1 ++ [advance x])%list)
    by (rewrite length_app; cbn; lia).
  rewrite IH. now rewrite <- app_assoc.
Qed.

Lemma round_robin_advances (M : nat) :
  fold_left advance_at (round_robin M) (replicate M AtGet)
  = replicate M (Done Allowed).
Proof.
  unfold round_robin. rewrite fold_left_app.
  pose proof (advance_pass (replicate M AtGet) []) as H1.
  rewrite length_replicate in H1. cbn [length app] in H1. rewrite H1.
  pose proof (advance_pass (map advance (replicate M AtGet)) []) as H2.
  rewrite length_map, length_replicate in H2. cbn [length app] in H2. rewrite H2.
  clear. induction M as [|M IH]; [reflexivity|]. cbn. now rewrite IH.
Qed.

Lemma count_done_fresh (M : nat) : count_done (replicate M AtGet) = 0%nat.
Proof. unfold count_done. induction M as [|M IH]; [reflexivity|exact IH]. Qed.

(** C3, as stated, fails.  Two requests in flight at once for a key at
    1999: both read 1999, both are below the ceiling, both increment,
    and the counter is 2001. *)
Lemma in_flight_requests_pass_the_ceiling :
  let final :=
    run_schedule "192.0.2.7" [0; 1; 0; 1]%nat ([AtGet; AtGet], stored "1999") in
  final.1 = [Done Allowed; Done Allowed]
  /\ counter "192.0.2.7" final.2 = Some "2001"
  /\ maxRequestsPerIP < count_of "192.0.2.7" final.2.
Proof. vm_compute. repeat split. Qed.

(** C7, as stated, fails.  Two requests of a client with no counter
    yet, each reading before the other writes: both miss, both set "1",
    both are allowed, and the counter is "1" after two requests. *)
Lemma first_requests_lose_an_update :
  let final := run_schedule "192.0.2.7" [0; 1; 0; 1]%nat ([AtGet; AtGet], empty_world) in
  counter "192.0.2.7" empty_world = None
  /\ final.1 = [Done Allowed; Done Allowed]
  /\ counter "192.0.2.7" final.2 = Some "1"
  /\ counter "192.0.2.7" final.2 <> Some (strconv.utoa (0 + 2)).
Proof. vm_compute. repeat split. discriminate. Qed.

(** C7, amended.  For a key whose counter is there, the decimal
    numeral of the count c, and alive, M requests in flight at once with
    c + M at most 2000, the server reached by all: however their calls
    to the server are interleaved, once all have finished all are
    allowed and the counter is a decimal numeral for exactly c + M;
    and they do finish, each after its read and its increment.  The
    increment is one atomic command of the server.  (The counter of a
    first request is created by a read followed by an unconditional
    write; nothing is said here of requests in flight while the key
    has no counter.) *)
Theorem concurrent_increments_are_counted (k : string) (w : World)
    (e : memcache.Entry) (c : Z) (M : nat) :
  outages w = [] ->
  memcache.find (clock w) (cache w) k = Some e ->
  numeral (memcache.data e) c ->
  c + Z.of_nat M <= maxRequestsPerIP ->
  (forall sched,
     let final := run_schedule k sched (replicate M AtGet, w) in
     Forall (fun pc => is_done pc = true) final.1 ->
     final.1 = replicate M (Done Allowed)
     /\ exists v, counter k final.2 = Some v
                  /\ decimal v = Some (c + Z.of_nat M))
  /\ (run_schedule k (round_robin M) (replicate M AtGet, w)).1
     = replicate M (Done Allowed).
Proof.
  intros Ho Hfind [Hdata _] Hmax.
  pose proof (decimal_nonneg _ _ Hdata) as Hc.
  apply find_inv in Hfind as [Hk Hfresh].
  assert (Hinit : counted k e c M (replicate M AtGet, w)).
  { unfold counted. cbn [fst snd].
    split; [assumption|]. split; [assumption|].
    split; [apply length_replicate|].
    split; [apply Forall_replicate; now left|].
    exists (memcache.data e). split; [rewrite Hk; now destruct e|].
    now rewrite count_done_fresh, Z.add_0_r. }
  split.
  - intros sched final Hdone.
    destruct (counted_run k e c M Hc Hmax sched _ Hinit) as [Hfin _].
    fold final in Hfin.
    destruct (counted_find k e c M final Hfin) as (v & Hf & Hv).
    destruct Hfin as (_ & _ & Hlen & Htrack & _).
    rewrite (count_done_all _ Hdone), Hlen in Hv. split.
    + symmetry. apply replicate_as_Forall_2; [assumption|].
      rewrite Forall_forall in Hdone, Htrack |- *. intros pc Hpc.
      specialize (Hdone pc Hpc).
      destruct (Htrack pc Hpc) as [->|[->| ->]]; (discriminate || reflexivity).
    + exists v. split; [|exact Hv]. unfold counter. now rewrite Hf.
  - destruct (counted_run k e c M Hc Hmax (round_robin M) _ Hinit) as [_ Hps].
    rewrite Hps. apply round_robin_advances.
Qed.

(** Two requests at "1998", whichever way interleaved, leave "2000":
    here with one moving after the other and with the two moving in
    turn. *)
Lemma concurrent_increments_are_counted_witness :
  ((forall sched,
      let final := run_schedule "192.0.2.7" sched (replicate 2 AtGet, stored "1998") in
      Forall (fun pc => is_done pc = true) final.1 ->
      final.1 = replicate 2 (Done Allowed)
      /\ exists v, counter "192.0.2.7" final.2 = Some v
                   /\ decimal v = Some (1998 + Z.of_nat 2))
   /\ (run_schedule "192.0.2.7" (round_robin 2) (replicate 2 AtGet, stored "1998")).1
      = replicate 2 (Done Allowed))
  /\ counter "192.0.2.7"
       (run_schedule "192.0.2.7" [0; 0; 1; 1]%nat (replicate 2 AtGet, stored "1998")).2
     = Some "2000"
  /\ counter "192.0.2.7"
       (run_schedule "192.0.2.7" [0; 1; 0; 1]%nat (replicate 2 AtGet, stored "1998")).2
     = Some "2000".
Proof.
  split; [|split; reflexivity].
  apply (concurrent_increments_are_counted "192.0.2.7" (stored "1998")
           {| memcache.data := "1998"; memcache.deadline := Some 3600 |} 1998 2).
  - reflexivity.
  - reflexivity.
  - split; [reflexivity|]. right. exists "1"%char, "998". split; [reflexivity|discriminate].
  - unfold maxRequestsPerIP. lia.
Defined.

(** ** Other keys, and the end of a window *)

(** X1.  A call for one key leaves the entry of every other key as it
    was. *)
Theorem quota_isolation (k k' : string) (w : World) :
  k <> k' -> cache (quota_verdict k w).2 !! k' = cache w !! k'.
Proof.
  intros Hne. rewrite quota_verdict_cases.
  pose proof (next_outage_cache w) as Hs1.
  destruct (next_outage w) as [[m|] w1]; cbn [fst snd] in *; [congruence|].
  pose proof (next_outage_cache w1) as Hs2.
  destruct (memcache.find (clock w) (cache w) k) as [e|].
  - destruct (_ <? _); cbn [snd]; [|congruence].
    unfold mc_Increment, memcache.Increment.
    destruct (next_outage w1) as [[m|] w2]; cbn [fst snd] in *; [cbn; congruence|].
    destruct (memcache.find _ _ k) as [e'|]; [|cbn; congruence].
    destruct (memcache.number _); cbn; [|congruence].
    rewrite lookup_insert_ne by assumption. congruence.
  - destruct (next_outage w1) as [[m|] w2]; cbn [fst snd] in *; [congruence|].
    cbn. now rewrite lookup_insert_ne by assumption.
Qed.

Lemma quota_isolation_witness :
  cache (quota_verdict "192.0.2.7" (stored "7")).2 !! "198.51.100.9"
  = cache (stored "7") !! "198.51.100.9".
Proof.
  apply (quota_isolation "192.0.2.7" "198.51.100.9" (stored "7")). discriminate.
Defined.

(** X2.  Once the entry of a key has expired, the next call for the key
    is allowed and starts a window: the counter is "1", to expire 3600
    seconds later. *)
Theorem quota_expiry (k : string) (w : World) (e : memcache.Entry) (d : Z) :
  outages w = [] ->
  cache w !! k = Some e ->
  memcache.deadline e = Some d ->
  d <= clock w ->
  quota_verdict k w
  = (Allowed,
     with_cache (<[k := {| memcache.data := "1";
                           memcache.deadline := Some (clock w + expirySeconds) |}]>
                   (cache w)) w).
Proof.
  intros Ho Hk Hd Hle. apply quota_fresh; [assumption|].
  unfold memcache.find, memcache.fresh. rewrite Hk, Hd.
  destruct (Z.ltb_spec (clock w) d); [lia|reflexivity].
Qed.

Lemma quota_expiry_witness :
  quota_verdict "192.0.2.7" (with_clock 3600 (stored "2000"))
  = (Allowed,
     with_cache (<["192.0.2.7" := {| memcache.data := "1";
                                     memcache.deadline := Some (3600 + expirySeconds) |}]>
                   (cache (stored "2000"))) (with_clock 3600 (stored "2000"))).
Proof.
  apply (quota_expiry "192.0.2.7" (with_clock 3600 (stored "2000"))
           {| memcache.data := "2000"; memcache.deadline := Some 3600 |} 3600).
  - reflexivity.
  - reflexivity.
  - reflexivity.
  - cbn. lia.
Defined.

(** ** Which addresses the table reserves *)

Lemma forall_bytes (f : Z -> bool) :
  forallb f (map Z.of_nat (seq 0 256)) = true ->
  forall x, 0 <= x < 256 -> f x = true.
Proof.
  intros Hall x Hx. rewrite forallb_forall in Hall. apply Hall.
  rewrite <- (Z2Nat.id x) by lia. apply in_map, in_seq. lia.
Qed.

(** The masks of the table, byte by byte. *)
Lemma byte_masks (x : Z) :
  0 <= x < 256 ->
  Z.land x 255 = x
  /\ (Z.land x 192 = 0 <-> x < 64)
  /\ (Z.land x 240 = 16 <-> 16 <= x < 32)
  /\ (Z.land x 248 = 0 <-> x < 8)
  /\ (Z.land x 254 = 18 <-> 18 <= x <= 19)
  /\ (Z.land x 240 = 224 <-> 224 <= x < 240)
  /\ (Z.land x 240 = 240 <-> 240 <= x).
Proof.
  intros Hx.
  pose proof (forall_bytes
    (fun x => (Z.land x 255 =? x)
              && Bool.eqb (Z.land x 192 =? 0) (x <? 64)
              && Bool.eqb (Z.land x 240 =? 16) ((16 <=? x) && (x <? 32))
              && Bool.eqb (Z.land x 248 =? 0) (x <? 8)
              && Bool.eqb (Z.land x 254 =? 18) ((18 <=? x) && (x <=? 19))
              && Bool.eqb (Z.land x 240 =? 224) ((224 <=? x) && (x <? 240))
              && Bool.eqb (Z.land x 240 =? 240) (240 <=? x))
    ltac:(vm_compute; reflexivity) x Hx) as H.
  cbv beta in H.
  repeat (apply andb_true_iff in H as [H ?]).
  repeat match goal with
  | E : Bool.eqb _ _ = true |- _ => apply Bool.eqb_prop in E
  end.
  repeat split; try lia;
    intros; repeat match goal with
    | E : (_ =? _) = _ |- _ => revert E
    end; intros;
    repeat match goal with
    | E : context [?a =? ?b] |- _ => destruct (Z.eqb_spec a b)
    | E : context [?a <? ?b] |- _ => destruct (Z.ltb_spec a b)
    | E : context [?a <=? ?b] |- _ => destruct (Z.leb_spec a b)
    end; cbn in *; try lia; try discriminate.
Qed.

(** [Contains] for a 4-byte network and a 4-byte address: the four
    bytes agree under the mask. *)
Lemma Contains_IPv4 (n0 n1 n2 n3 m0 m1 m2 m3 a b c d : Z) :
  net.Contains {| net.net_IP := net.IPv4 n0 n1 n2 n3;
                  net.net_Mask := net.IPv4Mask m0 m1 m2 m3 |}
               (net.IPv4 a b c d) = true
  <-> Z.land n0 m0 = Z.land a m0 /\ Z.land n1 m1 = Z.land b m1
      /\ Z.land n2 m2 = Z.land c m2 /\ Z.land n3 m3 = Z.land d m3.
Proof.
  change (net.Contains _ _)
    with (net.same_network [n0; n1; n2; n3] [m0; m1; m2; m3] [a; b; c; d]).
  cbn [net.same_network].
  repeat match goal with
  | |- context [?x =? ?y] => destruct (Z.eqb_spec x y)
  end; intuition (congruence || discriminate).
Qed.

Ltac const_land_in H :=
  repeat match type of H with
  | context [Z.land ?n ?m] =>
      tryif is_var n then fail
      else (let v := eval vm_compute in (Z.land n m) in
            change (Z.land n m) with v in H)
  end.

Ltac const_land :=
  repeat match goal with
  | |- context [Z.land ?n ?m] =>
      tryif is_var n then fail
      else (let v := eval vm_compute in (Z.land n m) in
            change (Z.land n m) with v)
  end.

Ltac in_table := unfold reservedIPs; cbn [In]; repeat first [left; reflexivity | right].


(** From [Contains] to facts about the four bytes, each masked byte
    by the fact about its mask. *)
Ltac from_bytes Hcont :=
  apply Contains_IPv4 in Hcont;
  let H0 := fresh "H0" in let H1 := fresh "H1" in
  let H2 := fresh "H2" in let H3 := fresh "H3" in
  destruct Hcont as (H0 & H1 & H2 & H3);
  const_land_in H0; const_land_in H1; const_land_in H2; const_land_in H3;
  repeat match goal with
  | E : Z.land ?x 255 = ?x |- _ => rewrite !E in H0, H1, H2, H3
  end;
  rewrite ?Z.land_0_r in H0, H1, H2, H3;
  repeat match goal with
  | G : ?n = Z.land ?x ?m -> _, H : ?n = Z.land ?x ?m |- _ => apply G in H
  end;
  repeat match goal with
  | G : _ = Z.land _ _ -> _ |- _ => clear G
  end.

(** Four bytes that agree with a network under its mask, each by the
    fact about its mask. *)
Ltac by_bytes :=
  const_land;
  repeat match goal with
  | E : Z.land ?x 255 = ?x |- _ => rewrite !E
  end;
  rewrite ?Z.land_0_r;
  repeat split;
  first [ lia
        | match goal with
          | F : _ -> ?n = Z.land ?x ?m |- ?n = Z.land ?x ?m => apply F; lia
          end ].

(** X3.  The addresses [a.b.c.d] that the handler reports as reserved
    are exactly these: 0.x.x.x, 10.0.0.0 to 10.63.255.255, 100.x.x.x,
    127.x.x.x, 169.254.x.x, 172.16.0.0 to 172.31.255.255, 192.0.0.0 to
    192.0.0.7, 192.0.2.x, 192.88.99.x, 192.168.x.x, 198.18.0.0 to
    198.19.255.255, 198.51.100.x, 203.0.113.x, and 224.0.0.0 upwards. *)
Theorem reserved_addresses (a b c d : Z) :
  0 <= a < 256 -> 0 <= b < 256 -> 0 <= c < 256 -> 0 <= d < 256 ->
  is_reserved (net.IPv4 a b c d) = true
  <-> a = 0
      \/ (a = 10 /\ b < 64)
      \/ a = 100
      \/ a = 127
      \/ (a = 169 /\ b = 254)
      \/ (a = 172 /\ 16 <= b < 32)
      \/ (a = 192 /\ b = 0 /\ c = 0 /\ d < 8)
      \/ (a = 192 /\ b = 0 /\ c = 2)
      \/ (a = 192 /\ b = 88 /\ c = 99)
      \/ (a = 192 /\ b = 168)
      \/ (a = 198 /\ 18 <= b <= 19)
      \/ (a = 198 /\ b = 51 /\ c = 100)
      \/ (a = 203 /\ b = 0 /\ c = 113)
      \/ 224 <= a.
Proof.
  intros Ha Hb Hc Hd.
  destruct (byte_masks a Ha) as (Ea & _ & _ & _ & _ & Ea224 & Ea240).
  destruct (byte_masks b Hb) as (Eb & Eb192 & Eb240 & _ & Eb254 & _ & _).
  destruct (byte_masks c Hc) as (Ec & _).
  destruct (byte_masks d Hd) as (Ed & _ & _ & Ed248 & _).
  rewrite is_reserved_true. split.
  - intros (n & Hn & Hcont). unfold reservedIPs in Hn. cbn [In] in Hn.
    assert (Ga224 : 224 = Z.land a 240 -> 224 <= a < 240) by (intros; now apply Ea224).
    assert (Ga240 : 240 = Z.land a 240 -> 240 <= a) by (intros; now apply Ea240).
    assert (Gb192 : 0 = Z.land b 192 -> b < 64) by (intros; now apply Eb192).
    assert (Gb240 : 16 = Z.land b 240 -> 16 <= b < 32) by (intros; now apply Eb240).
    assert (Gb254 : 18 = Z.land b 254 -> 18 <= b <= 19) by (intros; now apply Eb254).
    assert (Gd248 : 0 = Z.land d 248 -> d < 8) by (intros; now apply Ed248).
    clear Eb192 Eb240 Eb254 Ed248 Ea224 Ea240.
    repeat (destruct Hn as [<-|Hn]); [..|contradiction].
    + from_bytes Hcont. left. lia.
    + from_bytes Hcont. left. lia.
    + from_bytes Hcont. do 1 right. left. lia.
    + from_bytes Hcont. do 2 right. left. lia.
    + from_bytes Hcont. do 3 right. left. lia.
    + from_bytes Hcont. do 4 right. left. lia.
    + from_bytes Hcont. do 5 right. left. lia.
    + from_bytes Hcont. do 6 right. left. lia.
    + from_bytes Hcont. do 7 right. left. lia.
    + from_bytes Hcont. do 8 right. left. lia.
    + from_bytes Hcont. do 9 right. left. lia.
    + from_bytes Hcont. do 10 right. left. lia.
    + from_bytes Hcont. do 11 right. left. lia.
    + from_bytes Hcont. do 12 right. left. lia.
    + from_bytes Hcont. do 13 right. lia.
    + from_bytes Hcont. do 13 right. lia.
    + from_bytes Hcont. do 13 right. lia.
  - intros Hcase.
    assert (Hnet : forall n0 n1 n2 n3 m0 m1 m2 m3,
              In {| net.net_IP := net.IPv4 n0 n1 n2 n3;
                    net.net_Mask := net.IPv4Mask m0 m1 m2 m3 |} reservedIPs ->
              (Z.land n0 m0 = Z.land a m0 /\ Z.land n1 m1 = Z.land b m1
               /\ Z.land n2 m2 = Z.land c m2 /\ Z.land n3 m3 = Z.land d m3) ->
              exists n, In n reservedIPs /\ net.Contains n (net.IPv4 a b c d) = true).
    { intros * Hin Hbytes. eexists. split; [exact Hin|]. now apply Contains_IPv4. }
    assert (Fb192 : b < 64 -> 0 = Z.land b 192) by (intros; symmetry; now apply Eb192).
    assert (Fb240 : 16 <= b < 32 -> 16 = Z.land b 240) by (intros; symmetry; now apply Eb240).
    assert (Fb254 : 18 <= b <= 19 -> 18 = Z.land b 254) by (intros; symmetry; now apply Eb254).
    assert (Fd248 : d < 8 -> 0 = Z.land d 248) by (intros; symmetry; now apply Ed248).
    assert (Fa224 : 224 <= a < 240 -> 224 = Z.land a 240) by (intros; symmetry; now apply Ea224).
    assert (Fa240 : 240 <= a -> 240 = Z.land a 240) by (intros; symmetry; now apply Ea240).
    clear Eb192 Eb240 Eb254 Ed248 Ea224 Ea240.
    repeat match type of Hcase with _ \/ _ => destruct Hcase as [Hcase|Hcase] end.
    + apply (Hnet 0 0 0 0 255 0 0 0); [in_table|]. by_bytes.
    + apply (Hnet 10 0 0 0 255 192 0 0); [in_table|]. by_bytes.
    + apply (Hnet 100 64 0 0 255 0 0 0); [in_table|]. by_bytes.
    + apply (Hnet 127 0 0 0 255 0 0 0); [in_table|]. by_bytes.
    + apply (Hnet 169 254 0 0 255 255 0 0); [in_table|]. by_bytes.
    + apply (Hnet 172 16 0 0 255 240 0 0); [in_table|]. by_bytes.
    + apply (Hnet 192 0 0 0 255 255 255 248); [in_table|]. by_bytes.
    + apply (Hnet 192 0 2 0 255 255 255 0); [in_table|]. by_bytes.
    + apply (Hnet 192 88 99 0 255 255 255 0); [in_table|]. by_bytes.
    + apply (Hnet 192 168 0 0 255 255 0 0); [in_table|]. by_bytes.
    + apply (Hnet 198 18 0 0 255 254 0 0); [in_table|]. by_bytes.
    + apply (Hnet 198 51 100 0 255 255 255 0); [in_table|]. by_bytes.
    + apply (Hnet 203 0 113 0 255 255 255 0); [in_table|]. by_bytes.
    + destruct (Z.lt_ge_cases a 240).
      * apply (Hnet 224 0 0 0 240 0 0 0); [in_table|]. by_bytes.
      * apply (Hnet 240 0 0 0 240 0 0 0); [in_table|]. by_bytes.
Qed.

Lemma reserved_addresses_witness :
  is_reserved (net.IPv4 10 64 0 1) = true
  <-> 10 = 0
      \/ (10 = 10 /\ 64 < 64)
      \/ 10 = 100
      \/ 10 = 127
      \/ (10 = 169 /\ 64 = 254)
      \/ (10 = 172 /\ 16 <= 64 < 32)
      \/ (10 = 192 /\ 64 = 0 /\ 0 = 0 /\ 1 < 8)
      \/ (10 = 192 /\ 64 = 0 /\ 0 = 2)
      \/ (10 = 192 /\ 64 = 88 /\ 0 = 99)
      \/ (10 = 192 /\ 64 = 168)
      \/ (10 = 198 /\ 18 <= 64 <= 19)
      \/ (10 = 198 /\ 64 = 51 /\ 0 = 100)
      \/ (10 = 203 /\ 64 = 0 /\ 0 = 113)
      \/ 224 <= 10.
Proof. apply (reserved_addresses 10 64 0 1); lia. Defined.

(** ** What the quota touches *)

(** [quota] reads and writes the entries and uses up outages; the rest
    of the world it leaves alone, and does not look at. *)
Lemma quota_verdict_store (k : string) (w : World) :
  quota_verdict k w
  = ((quota_verdict k (store_world w)).1,
     graft (quota_verdict k (store_world w)).2 w).
Proof.
  rewrite (quota_verdict_cases k w), (quota_verdict_cases k (store_world w)).
  destruct w as [s t o h dbo de].
  unfold store_world, graft, mc_Increment, next_outage.
  cbn [cache clock outages hdrs dbops deferred with_outages with_cache].
  destruct o as [|[m|] o]; cbn [fst snd cache clock outages with_outages with_cache];
    try reflexivity.
  - destruct (memcache.find t s k) as [e|]; [|reflexivity].
    destruct (_ <? _); [|reflexivity].
    cbn [fst snd cache clock outages with_outages with_cache].
    now destruct (memcache.Increment None t s k 1).
  - destruct (memcache.find t s k) as [e|].
    + destruct (_ <? _); [|reflexivity].
      destruct o as [|f2 o];
        cbn [fst snd cache clock outages with_outages with_cache];
        now destruct (memcache.Increment _ t s k 1).
    + destruct o as [|[m|] o]; reflexivity.
Qed.

Lemma quota_keeps_response (k : string) (w : World) :
  hdrs (quota_verdict k w).2 = hdrs w
  /\ dbops (quota_verdict k w).2 = dbops w
  /\ deferred (quota_verdict k w).2 = deferred w
  /\ clock (quota_verdict k w).2 = clock w.
Proof. rewrite quota_verdict_store. now destruct w. Qed.

Lemma quota_ignores_response (k : string) (w w' : World) :
  store_world w = store_world w' ->
  (quota_verdict k w).1 = (quota_verdict k w').1
  /\ cache (quota_verdict k w).2 = cache (quota_verdict k w').2
  /\ outages (quota_verdict k w).2 = outages (quota_verdict k w').2.
Proof.
  intros Hs. rewrite (quota_verdict_store k w), (quota_verdict_store k w'), Hs.
  now destruct w, w'.
Qed.

(** [quota] itself, from its verdict. *)
Lemma quota_of_verdict (k : string) (w : World) :
  quota k w
  = (match (quota_verdict k w).1 with
     | Allowed => inl tt
     | Denied => inr (HTTPError 403 None)
     | BackendUnavailable e => inr (HTTPError 503 (Some e))
     | OtherReply r => inr r
     end, (quota_verdict k w).2).
Proof.
  unfold quota_verdict, quota, mbind, Act_bind, lift, mc_Get.
  destruct (next_outage w) as [[m|] w1]; cbn [fst snd]; [reflexivity|].
  unfold memcache.Get.
  destruct (memcache.find (clock w1) (cache w1) k) as [e|].
  - rewrite bool_decide_eq_false_2 by discriminate.
    unfold mret, Act_ret, leave. cbn.
    destruct (_ <? _); [|reflexivity].
    now destruct (mc_Increment k 1 w1).
  - rewrite bool_decide_eq_true_2 by reflexivity. unfold mc_Set.
    destruct (next_outage w1) as [[m|] w2]; cbn [fst snd]; reflexivity.
Qed.

Lemma quota_verdict_kinds (k : string) (w : World) :
  match (quota_verdict k w).1 with
  | OtherReply _ => False
  | _ => True
  end.
Proof.
  rewrite quota_verdict_cases.
  destruct (next_outage w) as [[m|] w1]; cbn [fst snd]; [exact I|].
  destruct (memcache.find (clock w) (cache w) k) as [e|].
  - now destruct (_ <? _).
  - now destruct (next_outage w1) as [[m|] w2].
Qed.

(** The closure, from the verdict of [quota] on the world with the
    first header set. *)
Lemma checkQuota_cases (db : sql.DB)
    (fn : Request -> sql.DB -> World -> Reply * World) (req : Request) (w : World) :
  let k := strings.first_field (RemoteAddr req) in
  let w0 := with_hdrs (hdrs w ++ [("Access-Control-Allow-Origin", "*")])%list
              (with_deferred [] w) in
  let w1 := (quota_verdict k w0).2 in
  checkQuota db fn req w
  = match (quota_verdict k w0).1 with
    | Allowed =>
        let '(r, w2) := fn req db w1 in
        (r, with_deferred (deferred w) (with_dbops (dbops w2 ++ deferred w2)%list w2))
    | Denied => (HTTPError 403 None, with_deferred (deferred w) w1)
    | BackendUnavailable e => (HTTPError 503 (Some e), with_deferred (deferred w) w1)
    | OtherReply r => (r, with_deferred (deferred w) w1)
    end.
Proof.
  intros k w0 w1. unfold checkQuota, run_handler, mbind, Act_bind, SetHeader, call.
  change (hdrs (with_deferred [] w)) with (hdrs w). fold k. fold w0.
  rewrite quota_of_verdict. fold w1.
  destruct (quota_keeps_response k w0) as (_ & _ & Hde & _). fold w1 in Hde.
  assert (Hw1 : with_dbops (dbops w1 ++ deferred w1)%list w1 = w1).
  { rewrite Hde. cbn. rewrite app_nil_r. now destruct w1. }
  destruct (quota_verdict k w0).1; cbn [fst snd]; rewrite ?Hw1; try reflexivity.
  now destruct (fn req db w1).
Qed.

Lemma store_world_first_header (w : World) (h : list (string * string)) :
  store_world (with_hdrs h (with_deferred [] w)) = store_world w.
Proof. reflexivity. Qed.

Lemma quota_refusal_keeps_cache (k : string) (w : World) :
  (quota_verdict k w).1 <> Allowed -> cache (quota_verdict k w).2 = cache w.
Proof.
  rewrite quota_verdict_cases.
  pose proof (next_outage_cache w) as Hs1.
  destruct (next_outage w) as [[m|] w1]; cbn [fst snd] in *; [now intros _|].
  pose proof (next_outage_cache w1) as Hs2.
  destruct (memcache.find (clock w) (cache w) k) as [e|].
  - destruct (_ <? _); cbn [fst snd]; [now intros []|now intros _].
  - destruct (next_outage w1) as [[m|] w2]; cbn [fst snd] in *;
      [intros _; congruence|now intros []].
Qed.

(** A refusal, spelled out. *)
Lemma checkQuota_refused (db : sql.DB)
    (fn : Request -> sql.DB -> World -> Reply * World) (req : Request) (w : World) :
  let k := strings.first_field (RemoteAddr req) in
  let w1 := (quota_verdict k
               (with_hdrs (hdrs w ++ [("Access-Control-Allow-Origin", "*")])%list
                  (with_deferred [] w))).2 in
  (quota_verdict k w).1 <> Allowed ->
  checkQuota db fn req w
  = (match (quota_verdict k w).1 with
     | BackendUnavailable e => HTTPError 503 (Some e)
     | _ => HTTPError 403 None
     end, with_deferred (deferred w) w1)
  /\ dbops w1 = dbops w
  /\ cache w1 = cache w.
Proof.
  intros k w1 Hv.
  set (w0 := with_hdrs (hdrs w ++ [("Access-Control-Allow-Origin", "*")])%list
               (with_deferred [] w)) in *.
  destruct (quota_ignores_response k w0 w (store_world_first_header w _))
    as (Hv0 & _ & _).
  destruct (quota_keeps_response k w0) as (_ & Hdb & _ & _).
  pose proof (quota_verdict_kinds k w) as Hkind.
  split; [|split; [exact Hdb|]].
  - rewrite checkQuota_cases. fold k. fold w0. rewrite Hv0. fold w1.
    destruct (quota_verdict k w).1; (contradiction || reflexivity).
  - subst w1. rewrite quota_refusal_keeps_cache by now rewrite Hv0. reflexivity.
Qed.

(** X6.  A request that the quota does not allow ends in the closure:
    the reply is 403 when the ceiling is reached and 503 with the
    store's error when the store fails, the handler behind the quota is
    not called (the outcome is the same whatever handler is given), no
    database operation is made and the store's entries stay as they
    were. *)
Theorem refused_requests_skip_lookup (db : sql.DB)
    (fn : Request -> sql.DB -> World -> Reply * World) (req : Request) (w : World) :
  let k := strings.first_field (RemoteAddr req) in
  let out := checkQuota db fn req w in
  (quota_verdict k w).1 <> Allowed ->
  out.1 = match (quota_verdict k w).1 with
          | BackendUnavailable e => HTTPError 503 (Some e)
          | _ => HTTPError 403 None
          end
  /\ (forall fn', checkQuota db fn' req w = out)
  /\ dbops out.2 = dbops w
  /\ cache out.2 = cache w.
Proof.
  intros k out Hv. subst out.
  destruct (checkQuota_refused db fn req w Hv) as (Heq & Hdb & Hc).
  fold k in Heq. rewrite Heq. cbn [fst snd].
  split; [reflexivity|]. split; [|split; assumption].
  intros fn'. now destruct (checkQuota_refused db fn' req w Hv) as (-> & _ & _).
Qed.

Lemma refused_requests_skip_lookup_witness :
  let req := sample_request "json" "8.8.8.8" "192.0.2.7:51234" in
  let out := checkQuota sample_db (LookupHandler sample_ParseIP sample_LookupHost)
               req (stored "2000") in
  out.1 = match (quota_verdict "192.0.2.7" (stored "2000")).1 with
          | BackendUnavailable e => HTTPError 503 (Some e)
          | _ => HTTPError 403 None
          end
  /\ (forall fn', checkQuota sample_db fn' req (stored "2000") = out)
  /\ dbops out.2 = dbops (stored "2000")
  /\ cache out.2 = cache (stored "2000").
Proof.
  apply (refused_requests_skip_lookup sample_db
           (LookupHandler sample_ParseIP sample_LookupHost)
           (sample_request "json" "8.8.8.8" "192.0.2.7:51234") (stored "2000")).
  vm_compute. discriminate.
Defined.

(** X7.  When the store cannot be reached for the read, or for the
    write that creates a missing counter, the request ends with status
    503 and the store's error; the entries stay as they were and no
    database operation is made. *)
Theorem store_outage_is_503 (db : sql.DB)
    (fn : Request -> sql.DB -> World -> Reply * World) (req : Request)
    (w : World) (m : string) :
  let k := strings.first_field (RemoteAddr req) in
  let out := checkQuota db fn req w in
  (next_outage w).1 = Some m
  \/ ((next_outage w).1 = None
      /\ memcache.find (clock w) (cache w) k = None
      /\ (next_outage (next_outage w).2).1 = Some m) ->
  out.1 = HTTPError 503 (Some (ErrFault m))
  /\ cache out.2 = cache w
  /\ dbops out.2 = dbops w.
Proof.
  intros k out Hout. subst out.
  assert (Hv : (quota_verdict k w).1 = BackendUnavailable (ErrFault m)).
  { destruct Hout as [Hget|(Hget & Hmiss & Hset)].
    - now rewrite (quota_get_outage k w m Hget).
    - now apply quota_set_outage. }
  destruct (checkQuota_refused db fn req w) as (Heq & Hdb & Hc).
  { fold k. rewrite Hv. discriminate. }
  fold k in Heq. rewrite Hv in Heq. rewrite Heq. cbn [fst snd]. auto.
Qed.

Lemma store_outage_is_503_witness :
  let req := sample_request "json" "8.8.8.8" "192.0.2.7:51234" in
  let w := with_outages [None; Some "connection refused"] empty_world in
  let out := checkQuota sample_db (LookupHandler sample_ParseIP sample_LookupHost) req w in
  out.1 = HTTPError 503 (Some (ErrFault "connection refused"))
  /\ cache out.2 = cache w
  /\ dbops out.2 = dbops w.
Proof.
  apply (store_outage_is_503 sample_db (LookupHandler sample_ParseIP sample_LookupHost)
           (sample_request "json" "8.8.8.8" "192.0.2.7:51234")
           (with_outages [None; Some "connection refused"] empty_world)
           "connection refused").
  right. repeat split.
Defined.

(** ** What the lookup handler leaves behind *)

Lemma rendered_headers (req : Request) (format : string) (g : GeoIP) :
  (rendered req format g).2 = []
  \/ exists ct, (rendered req format g).2 = [("Content-Type", ct)].
Proof.
  unfold rendered, render, mbind, Act_bind, SetHeader, leave, mret, Act_ret.
  destruct format as [|c rest]; [now left|].
  repeat case_bool_decide; cbn; try destruct (json_Marshal g); cbn; eauto.
Qed.

(** The world after the handler: the world before with at most one
    header and at most one statement's operations added. *)
Lemma LookupHandler_shape (ParseIP : string -> net.IP)
    (LookupHost : string -> list string * option error)
    (req : Request) (db : sql.DB) (w : World) :
  exists h d,
    (LookupHandler ParseIP LookupHost req db w).2
    = with_hdrs (hdrs w ++ h)%list (with_dbops (dbops w ++ d)%list w)
    /\ (h = [] \/ exists ct, h = [("Content-Type", ct)])
    /\ (d = []
        \/ (d = [sql.OpPrepare lookup_query] /\ sql.Prepare db <> None)
        \/ (exists x, d = [sql.OpPrepare lookup_query; sql.OpQueryRow x; sql.OpClose]
                      /\ sql.Prepare db = None)).
Proof.
  assert (Hsame : exists h d,
            w = with_hdrs (hdrs w ++ h)%list (with_dbops (dbops w ++ d)%list w)
            /\ (h = [] \/ exists ct, h = [("Content-Type", ct)])
            /\ (d = []
                \/ (d = [sql.OpPrepare lookup_query] /\ sql.Prepare db <> None)
                \/ (exists x, d = [sql.OpPrepare lookup_query; sql.OpQueryRow x; sql.OpClose]
                              /\ sql.Prepare db = None))).
  { exists [], []. split; [|auto].
    cbn. rewrite !app_nil_r. now destruct w. }
  destruct (Vars req !! 1%nat) as [format|] eqn:Hf;
    [destruct (Vars req !! 2%nat) as [a0|] eqn:Ha|].
  - rewrite (LookupHandler_cases _ _ _ _ _ format a0 Hf Ha).
    destruct (resolve_addr LookupHost req a0 w).1 as [addr|r]; [|exact Hsame].
    rewrite run_lookup_cases.
    destruct (is_reserved (ParseIP addr)).
    + exists (rendered req format
                (set_country "RD" "Reserved" (GeoIP_of_addr addr))).2, [].
      split; [|split; [apply rendered_headers|now left]].
      cbn. rewrite app_nil_r. now destruct w.
    + destruct (sql.Prepare db) as [e|] eqn:Hp.
      * exists [], [sql.OpPrepare lookup_query]. split; [|split; [now left|]].
        -- cbn. rewrite app_nil_r. reflexivity.
        -- right. left. split; [reflexivity|discriminate].
      * cbv zeta. destruct (sql.QueryRow db (numeric (ParseIP addr))) as [r|e].
        -- exists (rendered req format (Scan r (GeoIP_of_addr addr))).2,
             [sql.OpPrepare lookup_query;
              sql.OpQueryRow (numeric (ParseIP addr)); sql.OpClose].
           split; [reflexivity|].
           split; [apply rendered_headers|]. right. right. eauto.
        -- exists [], [sql.OpPrepare lookup_query;
                       sql.OpQueryRow (numeric (ParseIP addr)); sql.OpClose].
           split; [|split; [now left|]].
           ++ cbn. rewrite app_nil_r. reflexivity.
           ++ right. right. eauto.
  - unfold LookupHandler. rewrite Hf, Ha. rewrite run_handler_leave. exact Hsame.
  - unfold LookupHandler. rewrite Hf.
    replace (match Vars req !! 2%nat with
             | Some addr => _ | None => _ end) with (@leave unit Panicked)
      by now destruct (Vars req !! 2%nat).
    rewrite run_handler_leave. exact Hsame.
Qed.

(** X4.  The handler leaves nothing open: it makes no database
    operation at all, or a [Prepare] that failed and nothing more, or a
    successful [Prepare] followed by one [QueryRow] and the [Close] of
    the statement, in this order; no deferred call is left behind, and
    the entries, the clock and the outages of the quota's store are
    untouched. *)
Theorem statement_is_closed (ParseIP : string -> net.IP)
    (LookupHost : string -> list string * option error)
    (req : Request) (db : sql.DB) (w : World) :
  let out := LookupHandler ParseIP LookupHost req db w in
  (dbops out.2 = dbops w
   \/ (dbops out.2 = (dbops w ++ [sql.OpPrepare lookup_query])%list
       /\ sql.Prepare db <> None)
   \/ (exists x,
         dbops out.2
         = (dbops w ++ [sql.OpPrepare lookup_query; sql.OpQueryRow x; sql.OpClose])%list
         /\ sql.Prepare db = None))
  /\ deferred out.2 = deferred w
  /\ cache out.2 = cache w
  /\ clock out.2 = clock w
  /\ outages out.2 = outages w.
Proof.
  intros out. subst out.
  destruct (LookupHandler_shape ParseIP LookupHost req db w) as (h & d & -> & _ & Hd).
  cbn [dbops deferred cache clock outages with_hdrs with_dbops].
  split; [|auto].
  destruct Hd as [->|[[-> Hp]|(x & -> & Hp)]].
  - left. apply app_nil_r.
  - right. left. auto.
  - right. right. eauto.
Qed.

(** X8.  Every response that passes through the quota, the 403 and 503
    of the quota and the errors of the lookup included, carries the
    header Access-Control-Allow-Origin: *, set before any other header;
    the only header that may follow it is one Content-Type. *)
Theorem cors_header_on_every_reply (ParseIP : string -> net.IP)
    (LookupHost : string -> list string * option error)
    (db : sql.DB) (req : Request) (w : World) :
  exists rest,
    hdrs (checkQuota db (LookupHandler ParseIP LookupHost) req w).2
    = (hdrs w ++ ("Access-Control-Allow-Origin", "*") :: rest)%list
    /\ (rest = [] \/ exists ct, rest = [("Content-Type", ct)]).
Proof.
  rewrite checkQuota_cases.
  set (k := strings.first_field (RemoteAddr req)).
  set (w0 := with_hdrs _ _).
  destruct (quota_keeps_response k w0) as (Hh & _ & _ & _).
  assert (Hrefused : forall r : Reply, exists rest,
            hdrs (r, with_deferred (deferred w) (quota_verdict k w0).2).2
            = (hdrs w ++ ("Access-Control-Allow-Origin", "*") :: rest)%list
            /\ (rest = [] \/ exists ct, rest = [("Content-Type", ct)])).
  { intros r. exists []. split; [|now left]. cbn [snd hdrs with_deferred].
    rewrite Hh. reflexivity. }
  destruct (quota_verdict k w0).1; try apply Hrefused.
  destruct (LookupHandler_shape ParseIP LookupHost req db (quota_verdict k w0).2)
    as (h & d & Hw & Hhd & _).
  destruct (LookupHandler ParseIP LookupHost req db (quota_verdict k w0).2) as [r w2].
  cbn [snd] in Hw. subst w2. exists h. split; [|exact Hhd].
  cbn [snd hdrs with_deferred with_dbops with_hdrs]. rewrite Hh.
  subst w0. cbn [hdrs with_hdrs]. rewrite <- app_assoc. reflexivity.
Qed.

(** ** How the lookup handler can end *)

Lemma rendered_routes (req : Request) (format : string) (g : GeoIP) :
  format = "csv" \/ format = "json" \/ format = "xml" ->
  match (rendered req format g).1 with
  | inr (Wrote b) =>
      format_of b = format /\ record_of b = g
      /\ (rendered req format g).2 = [("Content-Type", content_type_of b)]
      /\ match b with
         | JSONP cb _ => cb = callback req /\ cb <> ""
         | JSON _ => callback req = ""
         | _ => True
         end
  | inr (HTTPError code err) =>
      code = 500 /\ err = Some ErrUnsupportedValue /\ format = "json"
      /\ json_Marshal g <> None /\ (rendered req format g).2 = []
  | _ => False
  end.
Proof.
  unfold rendered, render, mbind, Act_bind, SetHeader, leave, mret, Act_ret.
  intros [->|[->| ->]].
  - rewrite bool_decide_eq_true_2 by reflexivity. cbn. auto.
  - rewrite bool_decide_eq_false_2 by discriminate.
    rewrite bool_decide_eq_true_2 by reflexivity.
    destruct (json_Marshal g) as [e|] eqn:Hm.
    + cbn. unfold json_Marshal in Hm. destruct (_ && _); [discriminate|].
      injection Hm as <-. repeat split; discriminate.
    + case_bool_decide as Hcb; cbn; auto.
  - rewrite !bool_decide_eq_false_2 by discriminate.
    rewrite bool_decide_eq_true_2 by reflexivity. cbn. auto.
Qed.

(** X5.  With the groups that the route matches (a format among csv,
    json and xml, and an address), the handler ends in one of these
    ways and no other.  It writes a body in the format asked for, with
    the media type of that format as the one header it sets (and as
    JSONP exactly when a callback is given); or it ends with an error
    and sets no header: 400 with the resolver's error, 404 with the
    error of [Prepare], or 500; it panics only when the resolver
    returns no address and no error; it never returns without a
    reply. *)
Theorem handler_outcomes (ParseIP : string -> net.IP)
    (LookupHost : string -> list string * option error)
    (req : Request) (db : sql.DB) (w : World) (format addr : string) :
  Vars req !! 1%nat = Some format ->
  Vars req !! 2%nat = Some addr ->
  format = "csv" \/ format = "json" \/ format = "xml" ->
  let out := LookupHandler ParseIP LookupHost req db w in
  match out.1 with
  | Wrote b =>
      format_of b = format
      /\ hdrs out.2 = (hdrs w ++ [("Content-Type", content_type_of b)])%list
      /\ match b with
         | JSONP cb _ => cb = callback req /\ cb <> ""
         | JSON _ => callback req = ""
         | _ => True
         end
  | HTTPError code err =>
      hdrs out.2 = hdrs w
      /\ err <> None
      /\ ((code = 400 /\ addr <> "" /\ err = (LookupHost addr).2)
          \/ (code = 404 /\ err = sql.Prepare db)
          \/ code = 500)
  | Returned => False
  | Panicked => addr <> "" /\ LookupHost addr = ([], None)
  end.
Proof.
  intros Hf Ha Hfmt out. subst out.
  rewrite (LookupHandler_cases _ _ _ _ _ format addr Hf Ha).
  assert (Hrendered : forall g w',
            hdrs w' = hdrs w ->
            let out := (reply_of (rendered req format g).1,
                        with_hdrs (hdrs w ++ (rendered req format g).2)%list w') in
            match out.1 with
            | Wrote b =>
                format_of b = format
                /\ hdrs out.2 = (hdrs w ++ [("Content-Type", content_type_of b)])%list
                /\ match b with
                   | JSONP cb _ => cb = callback req /\ cb <> ""
                   | JSON _ => callback req = ""
                   | _ => True
                   end
            | HTTPError code err =>
                hdrs out.2 = hdrs w
                /\ err <> None
                /\ ((code = 400 /\ addr <> "" /\ err = (LookupHost addr).2)
                    \/ (code = 404 /\ err = sql.Prepare db)
                    \/ code = 500)
            | Returned => False
            | Panicked => addr <> "" /\ LookupHost addr = ([], None)
            end).
  { intros g w' Hw'. pose proof (rendered_routes req format g Hfmt) as Hr.
    cbn [fst snd hdrs with_hdrs].
    destruct (rendered req format g) as [[u|[code err|b| |]] h];
      cbn [fst snd reply_of] in *; try contradiction.
    - destruct Hr as (-> & -> & _ & _ & ->). rewrite app_nil_r.
      repeat split; [discriminate|auto].
    - destruct Hr as (Hfo & _ & -> & Hcb). auto. }
  assert (Hlookup : forall a,
            let out := run_handler (geoip ← Lookup ParseIP db a;
                                    render req format geoip) w in
            match out.1 with
            | Wrote b =>
                format_of b = format
                /\ hdrs out.2 = (hdrs w ++ [("Content-Type", content_type_of b)])%list
                /\ match b with
                   | JSONP cb _ => cb = callback req /\ cb <> ""
                   | JSON _ => callback req = ""
                   | _ => True
                   end
            | HTTPError code err =>
                hdrs out.2 = hdrs w
                /\ err <> None
                /\ ((code = 400 /\ addr <> "" /\ err = (LookupHost addr).2)
                    \/ (code = 404 /\ err = sql.Prepare db)
                    \/ code = 500)
            | Returned => False
            | Panicked => addr <> "" /\ LookupHost addr = ([], None)
            end).
  { intros a. rewrite run_lookup_cases.
    destruct (is_reserved (ParseIP a)); [now apply Hrendered|].
    destruct (sql.Prepare db) as [e|]; [cbn; repeat split; [discriminate|auto]|].
    cbv zeta. destruct (sql.QueryRow db (numeric (ParseIP a))) as [r|e].
    - now apply Hrendered.
    - cbn. repeat split; [discriminate|auto]. }
  unfold resolve_addr, leave, mret, Act_ret.
  case_bool_decide as Hempty; [apply Hlookup|].
  destruct (LookupHost addr) as [[|a rest] [e|]] eqn:HLH; cbn [fst snd].
  - repeat split; [discriminate|auto].
  - auto.
  - repeat split; [discriminate|auto].
  - apply Hlookup.
Qed.

Lemma handler_outcomes_witness :
  let req := sample_request "xml" "8.8.8.8" "192.0.2.7:51234" in
  let out := LookupHandler sample_ParseIP sample_LookupHost req sample_db empty_world in
  match out.1 with
  | Wrote b =>
      format_of b = "xml"
      /\ hdrs out.2 = (hdrs empty_world ++ [("Content-Type", content_type_of b)])%list
      /\ match b with
         | JSONP cb _ => cb = callback req /\ cb <> ""
         | JSON _ => callback req = ""
         | _ => True
         end
  | HTTPError code err =>
      hdrs out.2 = hdrs empty_world
      /\ err <> None
      /\ ((code = 400 /\ "8.8.8.8" <> "" /\ err = (sample_LookupHost "8.8.8.8").2)
          \/ (code = 404 /\ err = sql.Prepare sample_db)
          \/ code = 500)
  | Returned => False
  | Panicked => "8.8.8.8" <> "" /\ sample_LookupHost "8.8.8.8" = ([], None)
  end.
Proof.
  apply (handler_outcomes sample_ParseIP sample_LookupHost
           (sample_request "xml" "8.8.8.8" "192.0.2.7:51234") sample_db empty_world
           "xml" "8.8.8.8").
  - reflexivity.
  - reflexivity.
  - right. right. reflexivity.
Defined.

(** ** The statement and the order of the table *)

Lemma select_start_unique (x : Z) (l l' : list sql.Row) (r r' : sql.Row) :
  (forall y, In y l <-> In y l') ->
  sql.select x l = Some r -> sql.select x l' = Some r' ->
  sql.ip_start r = sql.ip_start r'.
Proof.
  intros Hsame Hr Hr'.
  apply select_Some in Hr as (Hin & Hle & Hmax).
  apply select_Some in Hr' as (Hin' & Hle' & Hmax').
  apply Hsame in Hin. apply Hsame in Hin'.
  specialize (Hmax r' Hin' Hle'). specialize (Hmax' r Hin Hle). lia.
Qed.

(** X9.  The answer of the statement does not depend on the order in
    which the table holds its rows: two tables with the same rows in
    any order yield a row for the same addresses, with the same
    [ip_start]; and the very same row when no two rows of the table
    share an [ip_start]. *)
Theorem select_order_free (x : Z) (l l' : list sql.Row) :
  Permutation l l' ->
  sql.ip_start <$> sql.select x l = sql.ip_start <$> sql.select x l'
  /\ (NoDup (map sql.ip_start l) -> sql.select x l = sql.select x l').
Proof.
  intros Hperm.
  assert (Hsame : forall y, In y l <-> In y l').
  { intros y. split; apply Permutation_in; [assumption|now symmetry]. }
  destruct (sql.select x l) as [r|] eqn:Hr, (sql.select x l') as [r'|] eqn:Hr'.
  - pose proof (select_start_unique x l l' r r' Hsame Hr Hr') as Heq.
    split; [cbn; now rewrite Heq|]. intros Hnd. f_equal.
    apply select_Some in Hr as (Hin & _). apply select_Some in Hr' as (Hin' & _).
    apply Hsame in Hin'. clear -Hnd Hin Hin' Heq.
    induction l as [|h t IH]; [destruct Hin|].
    cbn [map] in Hnd. apply NoDup_cons in Hnd as [Hh Hnd].
    rewrite list_elem_of_In in Hh.
    destruct Hin as [->|Hin], Hin' as [->|Hin']; auto.
    + exfalso. apply Hh. rewrite Heq. now apply in_map.
    + exfalso. apply Hh. rewrite <- Heq. now apply in_map.
  - apply select_Some in Hr as (Hin & Hle & _). apply Hsame in Hin.
    pose proof (select_None x l' Hr' r Hin). lia.
  - apply select_Some in Hr' as (Hin & Hle & _). apply Hsame in Hin.
    pose proof (select_None x l Hr r' Hin). lia.
  - split; reflexivity.
Qed.

Lemma select_order_free_witness :
  sql.ip_start <$> sql.select 750 sample_rows
  = sql.ip_start <$> sql.select 750 (rev sample_rows)
  /\ (NoDup (map sql.ip_start sample_rows) ->
      sql.select 750 sample_rows = sql.select 750 (rev sample_rows)).
Proof.
  apply (select_order_free 750 sample_rows (rev sample_rows)).
  apply Permutation_rev.
Defined.

(** X10.  A greater address never gets an earlier block: when the
    statement finds a row for [x], it finds one for every [y] above
    [x], with an [ip_start] that is at least as great and at most
    [y]. *)
Theorem select_monotone (x y : Z) (l : list sql.Row) (r : sql.Row) :
  x <= y ->
  sql.select x l = Some r ->
  exists r', sql.select y l = Some r'
             /\ sql.ip_start r <= sql.ip_start r' <= y.
Proof.
  intros Hxy Hr. apply select_Some in Hr as (Hin & Hle & _).
  destruct (sql.select y l) as [r'|] eqn:Hr'.
  - exists r'. split; [reflexivity|].
    apply select_Some in Hr' as (_ & Hle' & Hmax'). split; [|assumption].
    apply Hmax'; [assumption|lia].
  - pose proof (select_None y l Hr' r Hin). lia.
Qed.

Lemma select_monotone_witness :
  exists r', sql.select 1200 sample_rows = Some r'
             /\ sql.ip_start (sample_row 500 "BB" "Second") <= sql.ip_start r' <= 1200.
Proof.
  apply (select_monotone 750 1200 sample_rows (sample_row 500 "BB" "Second")).
  - lia.
  - reflexivity.
Defined.

(** ** The number of an address, again *)

Lemma numeric_IPv4 (a b c d : Z) :
  0 <= a < 256 -> 0 <= b < 256 -> 0 <= c < 256 -> 0 <= d < 256 ->
  numeric (net.IPv4 a b c d) = a * 2 ^ 24 + b * 2 ^ 16 + c * 2 ^ 8 + d.
Proof. intros. now apply numeric_big_endian. Qed.

(** X11.  The number bound to the statement tells IPv4 addresses
    apart: it lies in the 32-bit range, and two addresses with the
    same number have the same four bytes. *)
Theorem numeric_tells_addresses_apart (a b c d a' b' c' d' : Z) :
  0 <= a < 256 -> 0 <= b < 256 -> 0 <= c < 256 -> 0 <= d < 256 ->
  0 <= a' < 256 -> 0 <= b' < 256 -> 0 <= c' < 256 -> 0 <= d' < 256 ->
  0 <= numeric (net.IPv4 a b c d) < 2 ^ 32
  /\ (numeric (net.IPv4 a b c d) = numeric (net.IPv4 a' b' c' d') ->
      a = a' /\ b = b' /\ c = c' /\ d = d').
Proof.
  intros. rewrite !numeric_IPv4 by assumption.
  change (2 ^ 24) with 16777216. change (2 ^ 16) with 65536.
  change (2 ^ 8) with 256. change (2 ^ 32) with 4294967296. lia.
Qed.

Lemma numeric_tells_addresses_apart_witness :
  0 <= numeric (net.IPv4 8 8 8 8) < 2 ^ 32
  /\ (numeric (net.IPv4 8 8 8 8) = numeric (net.IPv4 8 8 4 4) ->
      8 = 8 /\ 8 = 8 /\ 8 = 4 /\ 8 = 4).
Proof. apply (numeric_tells_addresses_apart 8 8 8 8 8 8 4 4); lia. Defined.

(** ** The static files *)

(** *** Runes *)


Lemma byte_of_range (c : ascii) : 0 <= byte_of c < 256.
Proof.
  unfold byte_of. pose proof (Ascii.N_ascii_bounded c). lia.
Qed.

Lemma lor_ge_128 (a b : Z) :
  0 <= a -> 0 <= b -> 128 <= a \/ 128 <= b -> 128 <= Z.lor a b.
Proof.
  intros Ha Hb Hab.
  assert (H7 : 7 <= Z.log2 (Z.lor a b)).
  { rewrite Z.log2_lor by assumption.
    pose proof (Z.log2_le_mono 128 a). pose proof (Z.log2_le_mono 128 b).
    change (Z.log2 128) with 7 in *. lia. }
  destruct (Z.le_gt_cases (Z.lor a b) 0) as [Hle|Hgt].
  - rewrite (Z.log2_nonpos _ Hle) in H7. lia.
  - change 128 with (2 ^ 7). apply Z.log2_le_pow2; [lia|assumption].
Qed.

Lemma shiftl_ge (m x k : Z) : 0 <= k -> m <= x * 2 ^ k -> m <= Z.shiftl x k.
Proof. intros Hk Hm. now rewrite Z.shiftl_mul_pow2. Qed.

Ltac shift_bound :=
  apply shiftl_ge; [lia|];
  change (2 ^ 6) with 64; change (2 ^ 12) with 4096;
  change (2 ^ 18) with 262144; lia.

Lemma utf8_masks (b : Z) :
  0 <= b < 256 ->
  (194 <= b <= 223 -> 2 <= Z.land b 31)
  /\ (225 <= b <= 239 -> 1 <= Z.land b 15)
  /\ (241 <= b <= 244 -> 1 <= Z.land b 7)
  /\ (160 <= b <= 191 -> 32 <= Z.land b 63)
  /\ (144 <= b <= 191 -> 16 <= Z.land b 63).
Proof.
  intros Hb.
  pose proof (forall_bytes
    (fun b => implb ((194 <=? b) && (b <=? 223)) (2 <=? Z.land b 31)
              && implb ((225 <=? b) && (b <=? 239)) (1 <=? Z.land b 15)
              && implb ((241 <=? b) && (b <=? 244)) (1 <=? Z.land b 7)
              && implb ((160 <=? b) && (b <=? 191)) (32 <=? Z.land b 63)
              && implb ((144 <=? b) && (b <=? 191)) (16 <=? Z.land b 63))
    ltac:(vm_compute; reflexivity) b Hb) as H.
  cbv beta in H. repeat (apply andb_true_iff in H as [H ?]).
  repeat split; intros Hr;
    match goal with
    | E : implb _ (?n <=? Z.land b ?m) = true |- ?n <= Z.land b ?m =>
        apply Z.leb_le; rewrite implb_true_iff in E; apply E;
        apply andb_true_iff; split; apply Z.leb_le; lia
    end.
Qed.

Lemma first_spec (b0 : Z) (sz : nat) (lo hi : Z) :
  0 <= b0 < 256 ->
  utf8.first b0 = Some (sz, lo, hi) ->
  128 <= lo
  /\ ((sz = 2%nat /\ 2 <= Z.land b0 31)
      \/ (sz = 3%nat /\ (1 <= Z.land b0 15 \/ 160 <= lo))
      \/ (sz = 4%nat /\ (1 <= Z.land b0 7 \/ 144 <= lo))).
Proof.
  intros Hb. destruct (utf8_masks b0 Hb) as (M2 & M3 & M4 & _).
  unfold utf8.first.
  repeat match goal with
  | |- context [?a <=? ?b] => destruct (Z.leb_spec a b); cbn [andb]
  | |- context [?a =? ?b] => destruct (Z.eqb_spec a b); cbn [andb]
  end; intros E; try discriminate E; injection E as <- <- <-;
    (split; [lia|]);
    first [ left; split; [reflexivity|]; lia
          | right; left; split; [reflexivity|]; lia
          | right; right; split; [reflexivity|]; lia ].
Qed.

Lemma land63_nonneg (b : Z) : 0 <= Z.land b 63.
Proof. apply Z.land_nonneg. right. lia. Qed.

Lemma shiftl_nonneg' (x k : Z) : 0 <= x -> 0 <= Z.shiftl x k.
Proof. intros. now apply Z.shiftl_nonneg. Qed.

Lemma land_mask_nonneg (b m : Z) : 0 <= m -> 0 <= Z.land b m.
Proof. intros. apply Z.land_nonneg. now right. Qed.

(** A rune is an ASCII byte of the text or lies beyond ASCII. *)
Lemma decode_value (c : ascii) (rest : string) (r : Z) (n : nat) :
  utf8.DecodeRuneInString (String c rest) = (r, n) ->
  (r = byte_of c /\ byte_of c < 128 /\ n = 1%nat) \/ 128 <= r.
Proof.
  unfold utf8.DecodeRuneInString.
  pose proof (byte_of_range c) as Hc.
  destruct (Z.ltb_spec (byte_of c) 128) as [Hlt|Hge].
  { intros E. injection E as <- <-. left. auto. }
  intros E. right.
  destruct (utf8.first (byte_of c)) as [[[sz lo] hi]|] eqn:F;
    [|injection E as <- <-; unfold utf8.RuneError; lia].
  destruct (first_spec _ _ _ _ Hc F) as (Hlo & Hsz).
  destruct rest as [|c1 s2]; [injection E as <- <-; unfold utf8.RuneError; lia|].
  pose proof (byte_of_range c1) as Hc1.
  destruct (utf8_masks (byte_of c1) Hc1) as (_ & _ & _ & M160 & M144).
  destruct (Z.ltb_spec (byte_of c1) lo); cbn [orb] in E;
    [injection E as <- <-; unfold utf8.RuneError; lia|].
  destruct (Z.ltb_spec hi (byte_of c1)); cbn [orb] in E;
    [injection E as <- <-; unfold utf8.RuneError; lia|].
  assert (Hhi : hi <= 191).
  { revert F. unfold utf8.first.
    repeat match goal with
    | |- context [if ?b then _ else _] => destruct b
    end; intros F; try discriminate F; injection F as <- <- <-; lia. }
  pose proof (land63_nonneg (byte_of c1)).
  destruct Hsz as [(-> & Hm)|[(-> & Hm)|(-> & Hm)]]; cbn [Nat.leb] in E.
  - injection E as <- <-.
    apply lor_ge_128; [apply shiftl_nonneg'; lia|assumption|].
    left. shift_bound.
  - destruct s2 as [|c2 s3]; [injection E as <- <-; unfold utf8.RuneError; lia|].
    destruct (negb _); [injection E as <- <-; unfold utf8.RuneError; lia|].
    injection E as <- <-.
    pose proof (land63_nonneg (byte_of c2)).
    pose proof (land_mask_nonneg (byte_of c) 15 ltac:(lia)).
    assert (128 <= Z.lor (Z.shiftl (Z.land (byte_of c) 15) 12)
                         (Z.shiftl (Z.land (byte_of c1) 63) 6)).
    { apply lor_ge_128; [apply shiftl_nonneg'; lia|apply shiftl_nonneg'; lia|].
      destruct Hm as [Hm|Hm]; [left|right]; shift_bound. }
    apply lor_ge_128; [lia|assumption|]. now left.
  - destruct s2 as [|c2 s3]; [injection E as <- <-; unfold utf8.RuneError; lia|].
    destruct (negb _); [injection E as <- <-; unfold utf8.RuneError; lia|].
    destruct s3 as [|c3 s4]; [injection E as <- <-; unfold utf8.RuneError; lia|].
    destruct (negb _); [injection E as <- <-; unfold utf8.RuneError; lia|].
    injection E as <- <-.
    pose proof (land63_nonneg (byte_of c2)).
    pose proof (land63_nonneg (byte_of c3)).
    pose proof (land_mask_nonneg (byte_of c) 7 ltac:(lia)).
    assert (128 <= Z.lor (Z.shiftl (Z.land (byte_of c) 7) 18)
                         (Z.shiftl (Z.land (byte_of c1) 63) 12)).
    { apply lor_ge_128; [apply shiftl_nonneg'; lia|apply shiftl_nonneg'; lia|].
      destruct Hm as [Hm|Hm]; [left|right]; shift_bound. }
    assert (0 <= Z.shiftl (Z.land (byte_of c2) 63) 6) by (apply shiftl_nonneg'; lia).
    apply lor_ge_128; [|assumption|left].
    + apply Z.lor_nonneg. split; [lia|assumption].
    + apply lor_ge_128; [lia|assumption|now left].
Qed.

(** The bytes a step passes over after the first are no ASCII bytes. *)
Lemma decode_high (c : ascii) (rest : string) (r : Z) (n : nat) :
  utf8.DecodeRuneInString (String c rest) = (r, n) ->
  high_prefix (n - 1) rest.
Proof.
  unfold utf8.DecodeRuneInString.
  pose proof (byte_of_range c) as Hc.
  destruct (byte_of c <? 128); [intros E; injection E as <- <-; exact I|].
  destruct (utf8.first (byte_of c)) as [[[sz lo] hi]|] eqn:F;
    [|intros E; injection E as <- <-; exact I].
  destruct (first_spec _ _ _ _ Hc F) as (Hlo & _).
  destruct rest as [|c1 s2]; [intros E; injection E as <- <-; exact I|].
  destruct (Z.ltb_spec (byte_of c1) lo); cbn [orb];
    [intros E; injection E as <- <-; exact I|].
  destruct (hi <? byte_of c1); cbn [orb];
    [intros E; injection E as <- <-; exact I|].
  destruct (sz <=? 2)%nat.
  { intros E; injection E as <- <-. cbn. split; [lia|exact I]. }
  destruct s2 as [|c2 s3]; [intros E; injection E as <- <-; exact I|].
  unfold utf8.continues.
  destruct (Z.leb_spec 128 (byte_of c2)); cbn [andb negb];
    [|intros E; injection E as <- <-; exact I].
  destruct (byte_of c2 <=? 191); cbn [andb negb];
    [|intros E; injection E as <- <-; exact I].
  destruct (sz <=? 3)%nat.
  { intros E; injection E as <- <-. cbn. repeat split; lia. }
  destruct s3 as [|c3 s4]; [intros E; injection E as <- <-; exact I|].
  destruct (Z.leb_spec 128 (byte_of c3)); cbn [andb negb];
    [|intros E; injection E as <- <-; exact I].
  destruct (byte_of c3 <=? 191); cbn [andb negb];
    [|intros E; injection E as <- <-; exact I].
  intros E; injection E as <- <-. cbn. repeat split; lia.
Qed.

Lemma decode_ascii (c : ascii) (rest : string) :
  byte_of c < 128 ->
  utf8.DecodeRuneInString (String c rest) = (byte_of c, 1%nat).
Proof.
  intros Hc. unfold utf8.DecodeRuneInString.
  destruct (Z.ltb_spec (byte_of c) 128); [reflexivity|lia].
Qed.

(** An ASCII byte of the text starts a rune of its own, wherever the
    bytes before it fall. *)
Lemma runes_reach (c : ascii) (tail : string) :
  byte_of c < 128 ->
  forall (pre : string) (k : nat),
    high_prefix k (pre ++ String c tail) ->
    exists rs, regexp.runes_from k (pre ++ String c tail)
               = (rs ++ regexp.runes_from 0 (String c tail))%list.
Proof.
  intros Hc pre. induction pre as [|a pre IH]; intros k Hk.
  - change ("" ++ String c tail) with (String c tail) in *.
    destruct k as [|k]; [exists []; reflexivity|].
    cbn in Hk. lia.
  - change (String a pre ++ String c tail)
      with (String a (pre ++ String c tail)) in *.
    destruct k as [|k].
    + cbn [regexp.runes_from].
      destruct (utf8.DecodeRuneInString (String a (pre ++ String c tail)))
        as [r n] eqn:E.
      apply decode_high in E. destruct (IH _ E) as [rs Hrs].
      exists (r :: rs). rewrite Hrs. reflexivity.
    + cbn [regexp.runes_from]. cbn [high_prefix] in Hk. apply IH, Hk.
Qed.

Lemma runes_ascii (c : ascii) (tail : string) :
  byte_of c < 128 ->
  regexp.runes_from 0 (String c tail) = byte_of c :: regexp.runes_from 0 tail.
Proof.
  intros Hc. cbn [regexp.runes_from]. rewrite decode_ascii by assumption.
  reflexivity.
Qed.

Lemma matches_somewhere_app (rs rs' : list Z) :
  regexp.matches_somewhere rs' = true ->
  regexp.matches_somewhere (rs ++ rs') = true.
Proof.
  intros H. induction rs as [|r rs IH]; [exact H|].
  cbn [app regexp.matches_somewhere]. rewrite IH. apply orb_true_r.
Qed.

(** Where the pattern matches, the text has a slash or a backslash. *)
Lemma matches_somewhere_separator (rs : list Z) :
  regexp.matches_somewhere rs = true -> In 47 rs \/ In 92 rs.
Proof.
  induction rs as [|r0 rs IH]; [discriminate|].
  cbn [regexp.matches_somewhere]. intros H.
  apply orb_true_iff in H as [H|H].
  - destruct rs as [|r1 [|r2 rs]]; try discriminate H. cbn in H.
    apply andb_true_iff in H as [_ H]. unfold regexp.slash_or_backslash in H.
    apply orb_true_iff in H as [H|H]; apply Z.eqb_eq in H; subst;
      [left|right]; cbn; auto.
  - destruct (IH H); [left|right]; now right.
Qed.

(** An ASCII rune of the text is one of its bytes. *)
Lemma runes_ascii_occurs (c : ascii) (s : string) :
  byte_of c < 128 ->
  forall k, In (byte_of c) (regexp.runes_from k s) -> occurs c s = true.
Proof.
  intros Hc. induction s as [|a s IH]; intros k Hin; [destruct Hin|].
  cbn [occurs]. destruct k as [|k]; cbn [regexp.runes_from] in Hin.
  - destruct (utf8.DecodeRuneInString (String a s)) as [r n] eqn:E.
    destruct Hin as [Hr|Hin].
    + apply decode_value in E as [(E & _)|E]; [|lia].
      assert (c = a) as ->.
      { unfold byte_of in *.
        rewrite <- (Ascii.ascii_N_embedding c), <- (Ascii.ascii_N_embedding a).
        f_equal. lia. }
      rewrite bool_decide_eq_true_2 by reflexivity. reflexivity.
    + rewrite (IH _ Hin). apply orb_true_r.
  - rewrite (IH _ Hin). apply orb_true_r.
Qed.

Lemma static_re_infix (pre post : string) (c1 c2 sep : ascii) :
  byte_of c1 < 128 -> c1 <> "010"%char ->
  byte_of c2 < 128 -> c2 <> "010"%char ->
  sep = "/"%char \/ sep = "\"%char ->
  static_re (pre ++ String c1 (String c2 (String sep post))) = true.
Proof.
  intros H1 N1 H2 N2 Hsep. unfold static_re, regexp.runes.
  destruct (runes_reach c1 (String c2 (String sep post)) H1 pre 0%nat I)
    as [rs ->].
  apply matches_somewhere_app.
  assert (Hs : byte_of sep < 128 /\ regexp.slash_or_backslash (byte_of sep) = true).
  { destruct Hsep as [->| ->]; split; vm_compute; reflexivity. }
  destruct Hs as [Hs Hclass].
  rewrite !runes_ascii by assumption.
  cbn [regexp.matches_somewhere regexp.matches_here]. rewrite Hclass.
  assert (Hnl : forall c, c <> "010"%char -> regexp.any_not_nl (byte_of c) = true).
  { intros c Hc. unfold regexp.any_not_nl. apply negb_true_iff, Z.eqb_neq.
    intros E. apply Hc. unfold byte_of in E.
    rewrite <- (Ascii.ascii_N_embedding c). replace (Ascii.N_of_ascii c) with 10%N by lia.
    reflexivity. }
  rewrite !Hnl by assumption. reflexivity.
Qed.

Lemma static_re_plain (name : string) :
  occurs "/" name = false -> occurs "\" name = false ->
  static_re name = false.
Proof.
  intros Hs Hb. destruct (static_re name) eqn:E; [|reflexivity].
  apply matches_somewhere_separator in E as [E|E].
  - change 47 with (byte_of "/") in E.
    apply runes_ascii_occurs in E; [congruence|vm_compute; reflexivity].
  - change 92 with (byte_of "\") in E.
    apply runes_ascii_occurs in E; [congruence|vm_compute; reflexivity].
Qed.

(** *** Paths *)

Lemma sapp_assoc (a b c : string) : (a ++ b) ++ c = a ++ (b ++ c).
Proof.
  induction a as [|x a IH]; [reflexivity|].
  change (String x ((a ++ b) ++ c) = String x (a ++ (b ++ c))). now rewrite IH.
Qed.

Lemma elements_nonempty (s : string) : filepath.elements s <> [].
Proof.
  destruct s as [|c s]; cbn; [discriminate|].
  destruct (bool_decide _); [discriminate|].
  destruct (filepath.elements s); discriminate.
Qed.

Lemma elements_plain (s : string) :
  occurs "/" s = false -> filepath.elements s = [s].
Proof.
  induction s as [|c s IH]; [reflexivity|]. cbn [occurs filepath.elements].
  intros H. apply orb_false_iff in H as [Hc Hs].
  apply bool_decide_eq_false in Hc.
  rewrite bool_decide_eq_false_2 by congruence. rewrite (IH Hs). reflexivity.
Qed.

Lemma elements_app_sep (a b : string) :
  occurs "/" a = false ->
  filepath.elements (a ++ String "/" b) = a :: filepath.elements b.
Proof.
  induction a as [|c a IH].
  - intros _. change ("" ++ String "/" b) with (String "/" b).
    cbn [filepath.elements]. now rewrite bool_decide_eq_true_2.
  - cbn [occurs]. intros H. apply orb_false_iff in H as [Hc Hs].
    change (String c a ++ String "/" b) with (String c (a ++ String "/" b)).
    cbn [filepath.elements]. rewrite (IH Hs).
    apply bool_decide_eq_false in Hc.
    rewrite bool_decide_eq_false_2 by congruence. reflexivity.
Qed.

Lemma elements_no_sep (s : string) :
  Forall (fun e => occurs "/" e = false) (filepath.elements s).
Proof.
  induction s as [|c s IH]; cbn [filepath.elements].
  - repeat constructor.
  - case_bool_decide as Hc.
    + constructor; [reflexivity|exact IH].
    + destruct (filepath.elements s) as [|e es]; [repeat constructor|].
      * cbn. rewrite bool_decide_eq_false_2 by congruence. reflexivity.
      * inversion IH as [|? ? He Hes]; subst. constructor; [|exact Hes].
        cbn. rewrite He. rewrite bool_decide_eq_false_2 by congruence.
        reflexivity.
Qed.

Lemma join_cons_char (c : ascii) (e : string) (es : list string) :
  filepath.join (String c e :: es) = String c (filepath.join (e :: es)).
Proof. destruct es; reflexivity. Qed.

Lemma join_elements (s : string) : filepath.join (filepath.elements s) = s.
Proof.
  induction s as [|c s IH]; [reflexivity|]. cbn [filepath.elements].
  case_bool_decide as Hc.
  - subst c. pose proof (elements_nonempty s) as Hne.
    destruct (filepath.elements s) as [|e es]; [contradiction|].
    change (filepath.join ("" :: e :: es))
      with (String "/" (filepath.join (e :: es))).
    rewrite IH. reflexivity.
  - pose proof (elements_nonempty s) as Hne.
    destruct (filepath.elements s) as [|e es]; [contradiction|].
    rewrite join_cons_char, IH. reflexivity.
Qed.

Lemma join_middle (a : list string) (x b : string) (c : list string) :
  exists pre, filepath.join (a ++ x :: b :: c)
              = pre ++ x ++ String "/" (filepath.join (b :: c)).
Proof.
  induction a as [|y a [pre IH]].
  - exists "". reflexivity.
  - exists (y ++ String "/" pre). cbn [app].
    change (filepath.join (y :: a ++ x :: b :: c))
      with (match (a ++ x :: b :: c)%list with
            | [] => y
            | _ => y ++ "/" ++ filepath.join (a ++ x :: b :: c)
            end).
    destruct (a ++ x :: b :: c)%list eqn:E; [now destruct a|].
    rewrite IH. rewrite sapp_assoc. reflexivity.
Qed.

(** A name the pattern lets through has no [..] element but, at
    most, its last one. *)
Lemma no_inner_dotdot (name : string) :
  static_re name = false ->
  forall a b c, filepath.elements name <> (a ++ ".." :: b :: c)%list.
Proof.
  intros Hre a b c E.
  pose proof (join_elements name) as J. rewrite E in J.
  destruct (join_middle a ".." b c) as [pre Hpre]. rewrite Hpre in J.
  rewrite <- J in Hre.
  change (".." ++ String "/" (filepath.join (b :: c)))
    with (String "." (String "." (String "/" (filepath.join (b :: c))))) in Hre.
  rewrite static_re_infix in Hre; [discriminate| | | | |now left];
    first [vm_compute; reflexivity | discriminate].
Qed.

Lemma clean_under (es : list string) :
  forall st : list string,
    (forall a b c, es <> (a ++ ".." :: b :: c)%list) ->
    Forall (fun e => occurs "/" e = false) es ->
    Forall proper_element st ->
    let out := fold_left (filepath.clean_element false) es (st ++ ["static"])%list in
    (exists st', out = (st' ++ ["static"])%list /\ Forall proper_element st')
    \/ (out = [] /\ st = []
        /\ exists dir, es = (dir ++ [".."])%list
                       /\ Forall (fun e => e = "" \/ e = ".") dir).
Proof.
  induction es as [|e es IH]; intros st Hin Hsep Hst; cbn zeta.
  { left. exists st. auto. }
  inversion Hsep as [|? ? He Hes]; subst.
  assert (Hin' : forall a b c, es <> (a ++ ".." :: b :: c)%list).
  { intros a b c E. apply (Hin (e :: a) b c). cbn. now rewrite E. }
  cbn [fold_left].
  destruct (bool_decide (e = "") || bool_decide (e = ".")) eqn:Hskip.
  { replace (filepath.clean_element false (st ++ ["static"]) e)
      with (st ++ ["static"])%list
      by (unfold filepath.clean_element; now rewrite Hskip).
    destruct (IH st Hin' Hes Hst) as [H|(Hout & Hnil & dir & Hdir & Hall)];
      [left; exact H|right].
    split; [exact Hout|]. split; [exact Hnil|].
    exists (e :: dir). split; [cbn; now rewrite Hdir|].
    constructor; [|exact Hall].
    apply orb_true_iff in Hskip as [H|H]; apply bool_decide_eq_true in H; auto. }
  pose proof Hskip as Hskip'.
  apply orb_false_iff in Hskip' as [Hne Hnd].
  apply bool_decide_eq_false in Hne. apply bool_decide_eq_false in Hnd.
  destruct (decide (e = "..")) as [Hdd|Hdd].
  - subst e. destruct es as [|b c]; [|exfalso; now apply (Hin [] b c)].
    cbn [fold_left]. destruct st as [|t st]; cbn [app].
    + right. split; [reflexivity|]. split; [reflexivity|].
      exists []. split; [reflexivity|constructor].
    + inversion Hst as [|? ? Ht Hst']; subst.
      replace (filepath.clean_element false (t :: st ++ ["static"]) "..")
        with (st ++ ["static"])%list.
      * left. exists st. auto.
      * unfold filepath.clean_element. rewrite Hskip.
        rewrite bool_decide_eq_true_2 by reflexivity.
        rewrite bool_decide_eq_false_2 by apply Ht. reflexivity.
  - replace (filepath.clean_element false (st ++ ["static"]) e)
      with ((e :: st) ++ ["static"])%list
      by (unfold filepath.clean_element; rewrite Hskip;
          now rewrite bool_decide_eq_false_2).
    assert (Hst' : Forall proper_element (e :: st)).
    { constructor; [|exact Hst]. repeat split; assumption. }
    destruct (IH (e :: st) Hin' Hes Hst') as [H|(_ & Hnil & _)];
      [left; exact H|discriminate Hnil].
Qed.

Lemma Join_static (name : string) :
  filepath.Join ["./static"; name]
  = let out := rev (fold_left (filepath.clean_element false)
                             (filepath.elements name) ["static"]) in
    match out with
    | [] => "."
    | _ :: _ => filepath.join out
    end.
Proof.
  cbn [filepath.Join]. rewrite bool_decide_eq_false_2 by discriminate.
  cbn [filepath.join].
  change ("./static" ++ "/" ++ name)
    with (String "." (String "/" ("static" ++ String "/" name))).
  unfold filepath.Clean. rewrite bool_decide_eq_false_2 by discriminate.
  change (String "." (String "/" ("static" ++ String "/" name)))
    with ("." ++ String "/" ("static" ++ String "/" name)).
  rewrite !elements_app_sep by reflexivity.
  reflexivity.
Qed.

(** *** The handler *)

(** X12.  The pattern of [StaticHandler] refuses every name in which a
    slash or a backslash comes right after two ASCII characters other
    than the newline: the reply is [NotFound] and no file is served.
    That holds for every name with [../] or [..\] in it, and as well
    for every file in a directory whose name ends with two such
    characters ([css/site.css]). *)
Theorem static_pattern_refuses (req : Request) (pre post : string)
    (c1 c2 sep : ascii) :
  Vars req !! 1%nat = Some (pre ++ String c1 (String c2 (String sep post))) ->
  byte_of c1 < 128 -> c1 <> "010"%char ->
  byte_of c2 < 128 -> c2 <> "010"%char ->
  sep = "/"%char \/ sep = "\"%char ->
  StaticHandler req = NotFound.
Proof.
  intros Hv H1 N1 H2 N2 Hsep. unfold StaticHandler. rewrite Hv.
  now rewrite static_re_infix.
Qed.

Lemma static_pattern_refuses_witness :
  StaticHandler (static_request "x/../../db/ipdb.sqlite") = NotFound.
Proof.
  apply (static_pattern_refuses (static_request "x/../../db/ipdb.sqlite")
           "x/" "../db/ipdb.sqlite" "." "." "/").
  - reflexivity.
  - vm_compute. reflexivity.
  - discriminate.
  - vm_compute. reflexivity.
  - discriminate.
  - left. reflexivity.
Defined.

(** X13.  What [StaticHandler] hands to [ServeFile] is [static] or a
    path below it, [static/e1/.../en] where no [ei] is empty, [.] or
    [..] or holds a separator; with one exception, the path [.] (the
    directory above [static]), served for a name whose last element
    is [..] and whose other elements are all empty or [.]. *)
Theorem served_files_stay_under_static (req : Request) (p : string) :
  StaticHandler req = ServeFile p ->
  (exists tail, p = filepath.join ("static" :: tail)
                /\ Forall proper_element tail)
  \/ (p = "."
      /\ exists name dir,
           Vars req !! 1%nat = Some name
           /\ filepath.elements name = (dir ++ [".."])%list
           /\ Forall (fun e => e = "" \/ e = ".") dir).
Proof.
  unfold StaticHandler.
  destruct (Vars req !! 1%nat) as [name|] eqn:Hv; [|discriminate].
  destruct (static_re name) eqn:Hre; [discriminate|].
  intros E.
  assert (Hp : p = filepath.Join ["./static"; name]) by congruence.
  clear E. subst p. rewrite Join_static. cbn zeta.
  destruct (clean_under (filepath.elements name) []
              (no_inner_dotdot name Hre) (elements_no_sep name)
              (List.Forall_nil _))
    as [(st' & Hout & Hst')|(Hout & _ & dir & Hdir & Hall)];
    cbn zeta in Hout; cbn [app] in Hout; rewrite Hout.
  - left. exists (rev st'). rewrite rev_app_distr. cbn [rev app].
    split; [reflexivity|]. now apply Forall_rev.
  - right. split; [reflexivity|]. exists name, dir. auto.
Qed.

Lemma served_files_stay_under_static_witness :
  (exists tail, "." = filepath.join ("static" :: tail)
                /\ Forall proper_element tail)
  \/ ("." = "."
      /\ exists name dir,
           Vars (static_request "./..") !! 1%nat = Some name
           /\ filepath.elements name = (dir ++ [".."])%list
           /\ Forall (fun e => e = "" \/ e = ".") dir).
Proof.
  apply (served_files_stay_under_static (static_request "./..") ".").
  reflexivity.
Defined.

(** X14.  A name without a slash or a backslash is never refused: the
    file of that name in [static] is served, [static] itself for the
    empty name and for [.], and [.] for the name [..]. *)
Theorem plain_names_are_served (req : Request) (name : string) :
  Vars req !! 1%nat = Some name ->
  occurs "/" name = false ->
  occurs "\" name = false ->
  StaticHandler req = ServeFile (plain_path name).
Proof.
  intros Hv Hs Hb. unfold StaticHandler. rewrite Hv.
  rewrite (static_re_plain name Hs Hb). f_equal.
  rewrite Join_static, (elements_plain name Hs). cbn [fold_left].
  unfold filepath.clean_element, plain_path.
  destruct (bool_decide (name = "") || bool_decide (name = ".")); [reflexivity|].
  case_bool_decide; reflexivity.
Qed.

Lemma plain_names_are_served_witness :
  StaticHandler (static_request "crossdomain.xml")
  = ServeFile "static/crossdomain.xml".
Proof.
  apply (plain_names_are_served (static_request "crossdomain.xml")
           "crossdomain.xml"); reflexivity.
Defined.

(** ** How far requests in flight can pass the ceiling *)


Lemma pending_insert (ps : list Pc) : forall (i : nat) (pc pc' : Pc),
  ps !! i = Some pc ->
  (pending (<[i := pc']> ps) + (if is_pending pc then 1 else 0)
   = pending ps + (if is_pending pc' then 1 else 0))%nat.
Proof.
  unfold pending.
  induction ps as [|p ps IH]; intros [|i] pc pc' Hi; try discriminate.
  - injection Hi as ->. cbn. destruct (is_pending pc), (is_pending pc'); cbn; lia.
  - cbn in Hi. specialize (IH i pc pc' Hi). cbn.
    destruct (is_pending p); cbn; [f_equal|]; exact IH.
Qed.

Lemma pending_bound (ps : list Pc) : (pending ps <= length ps)%nat.
Proof. unfold pending. apply List.filter_length_le. Qed.

Lemma pending_fresh (M : nat) : pending (replicate M AtGet) = 0%nat.
Proof. unfold pending. induction M as [|M IH]; [reflexivity|exact IH]. Qed.

Lemma number_at_ext (k : string) (w w' : World) :
  clock w' = clock w -> cache w' = cache w -> number_at k w' = number_at k w.
Proof. unfold number_at, counter. now intros -> ->. Qed.

Lemma number_at_next_outage (k : string) (w : World) :
  number_at k (next_outage w).2 = number_at k w.
Proof.
  apply number_at_ext; [apply next_outage_clock|apply next_outage_cache].
Qed.

Lemma number_at_find (k : string) (w : World) (e : memcache.Entry) :
  memcache.find (clock w) (cache w) k = Some e ->
  number_at k w = default 0 (memcache.number (memcache.data e)).
Proof. unfold number_at, counter. now intros ->. Qed.

Lemma number_at_insert (k : string) (w : World) (s : gmap string memcache.Entry)
    (e : memcache.Entry) :
  memcache.fresh (clock w) e = true ->
  number_at k (with_cache (<[k := e]> s) w)
  = default 0 (memcache.number (memcache.data e)).
Proof.
  intros Hf. unfold number_at, counter, memcache.find. cbn [cache clock with_cache].
  now rewrite lookup_insert_eq, Hf.
Qed.

Lemma number_at_nonneg (k : string) (w : World) : 0 <= number_at k w.
Proof.
  unfold number_at. destruct (counter k w) as [v|]; [|lia].
  destruct (memcache.number v) as [n|] eqn:Hn; cbn; unfold id; [|lia].
  now apply number_Atoi in Hn.
Qed.

(** One step of one request: the number held and the requests pending
    add up to no more than before, or to no more than 1999 and the
    requests then pending. *)
Lemma pending_step (k : string) (c : Config) (i : nat) :
  number_at k (sched_step k c i).2 + Z.of_nat (pending (sched_step k c i).1)
  <= Z.max (number_at k c.2 + Z.of_nat (pending c.1))
           (1999 + Z.of_nat (pending (sched_step k c i).1)).
Proof.
  destruct c as [ps w]. unfold sched_step. cbn [fst snd].
  destruct (ps !! i) as [pc|] eqn:Hi; [|cbn [fst snd]; lia].
  pose proof (number_at_next_outage k w) as Hnum.
  pose proof (next_outage_clock w) as Hclock.
  pose proof (next_outage_cache w) as Hcache.
  pose proof (number_at_nonneg k w) as Hnn.
  destruct pc as [| | |v].
  - (* the read *)
    cbn [thread_step]. unfold mc_Get.
    destruct (next_outage w) as [f w1]. cbn [fst snd] in *.
    unfold memcache.Get. destruct f as [m|].
    { rewrite bool_decide_eq_false_2 by discriminate. cbn [fst snd].
      pose proof (pending_insert ps i AtGet (Done (BackendUnavailable (ErrFault m))) Hi) as Hp.
      cbn in Hp. lia. }
    destruct (memcache.find (clock w1) (cache w1) k) as [e|] eqn:Hfind.
    + rewrite bool_decide_eq_false_2 by discriminate.
      cbn [memcache.Value].
      destruct (Z.ltb_spec (strconv.Atoi (memcache.data e)).1 maxRequestsPerIP)
        as [Hlt|Hge]; cbn [fst snd].
      * pose proof (pending_insert ps i AtGet AtIncrement Hi) as Hp. cbn in Hp.
        rewrite (number_at_find k w1 e Hfind) in *.
        destruct (memcache.number (memcache.data e)) as [n|] eqn:Hn;
          cbn [default] in *; unfold id in *; [|lia].
        apply number_Atoi in Hn as [Hn0 Hn]. rewrite Hn in Hlt.
        unfold maxRequestsPerIP in Hlt. word_consts.
        destruct (Z.leb_spec 9223372036854775808 n); lia.
      * pose proof (pending_insert ps i AtGet (Done Denied) Hi) as Hp.
        cbn in Hp. lia.
    + rewrite bool_decide_eq_true_2 by reflexivity. cbn [fst snd].
      pose proof (pending_insert ps i AtGet AtSet Hi) as Hp. cbn in Hp. lia.
  - (* the write of a first count *)
    cbn [thread_step]. unfold mc_Set.
    destruct (next_outage w) as [f w1]. cbn [fst snd] in *.
    unfold memcache.Set_. destruct f as [m|]; cbn [fst snd].
    { pose proof (pending_insert ps i AtSet (Done (BackendUnavailable (ErrFault m))) Hi) as Hp.
      cbn in Hp.
      assert (Hw : number_at k (with_cache (cache w1) w1) = number_at k w1)
        by (apply number_at_ext; reflexivity).
      lia. }
    pose proof (pending_insert ps i AtSet (Done Allowed) Hi) as Hp. cbn in Hp.
    cbn [memcache.Key memcache.Value memcache.Expiration].
    rewrite number_at_insert.
    + change (default 0 (memcache.number (memcache.data
                {| memcache.data := "1";
                   memcache.deadline := memcache.deadline_of (clock w1) expirySeconds |})))
        with 1. lia.
    + unfold memcache.fresh, memcache.deadline_of, expirySeconds. cbn.
      apply Z.ltb_lt. lia.
  - (* the increment *)
    cbn [thread_step]. unfold mc_Increment.
    destruct (next_outage w) as [f w1]. cbn [fst snd] in *.
    pose proof (pending_insert ps i AtIncrement (Done Allowed) Hi) as Hp.
    cbn in Hp.
    assert (Hw : number_at k (with_cache (cache w1) w1) = number_at k w1)
      by (apply number_at_ext; reflexivity).
    unfold memcache.Increment. destruct f as [m|]; cbn [fst snd]; [lia|].
    destruct (memcache.find (clock w1) (cache w1) k) as [e|] eqn:Hfind;
      cbn [fst snd]; [|lia].
    pose proof (number_at_find k w1 e Hfind) as Hv.
    destruct (memcache.number (memcache.data e)) as [n|] eqn:Hn;
      cbn [fst snd default] in *; unfold id in *; [|lia].
    apply find_inv in Hfind as [_ Hfresh].
    rewrite number_at_insert by exact Hfresh.
    cbn [memcache.data].
    assert (Hmod : 0 <= (n + 1) mod 2 ^ 64 < 2 ^ 64)
      by (apply Z.mod_pos_bound; word_consts; lia).
    rewrite number_utoa by exact Hmod. cbn [default]. unfold id.
    assert ((n + 1) mod 2 ^ 64 <= n + 1)
      by (apply Z.mod_le; word_consts; lia).
    lia.
  - (* done *)
    cbn [thread_step fst snd]. rewrite (list_insert_id _ _ _ Hi). lia.
Qed.

Lemma most_pending_first (k : string) (sched : list nat) (c : Config) :
  (pending c.1 <= most_pending k sched c)%nat.
Proof. destruct sched; cbn [most_pending]; lia. Qed.

Lemma sched_step_length (k : string) (c : Config) (i : nat) :
  length (sched_step k c i).1 = length c.1.
Proof.
  unfold sched_step. destruct (c.1 !! i) as [pc|]; [|reflexivity].
  destruct (thread_step k pc c.2). cbn [fst]. apply length_insert.
Qed.

Lemma most_pending_bound (k : string) (sched : list nat) :
  forall c, (most_pending k sched c <= length c.1)%nat.
Proof.
  induction sched as [|i sched IH]; intros c; cbn [most_pending].
  - apply pending_bound.
  - pose proof (pending_bound c.1). specialize (IH (sched_step k c i)).
    rewrite sched_step_length in IH. lia.
Qed.

Lemma pending_run (k : string) (sched : list nat) :
  forall c,
    number_at k (run_schedule k sched c).2
      + Z.of_nat (pending (run_schedule k sched c).1)
    <= Z.max (number_at k c.2 + Z.of_nat (pending c.1))
             (1999 + Z.of_nat (most_pending k sched c)).
Proof.
  unfold run_schedule.
  induction sched as [|i sched IH]; intros c; cbn [fold_left most_pending]; [lia|].
  specialize (IH (sched_step k c i)).
  pose proof (pending_step k c i).
  pose proof (most_pending_first k sched (sched_step k c i)).
  lia.
Qed.

(** X15.  Requests in flight at the same time pass the ceiling by no
    more than their number: under every interleaving of the store
    calls of [M] requests for one key, whatever the store holds and
    whichever calls fail, the number held under the key ends no
    higher than where it began or than 1999 plus the greatest number
    of requests that were at the same time between their read and
    their increment; that number is at most [M]. *)
Theorem overshoot_is_bounded (k : string) (M : nat) (sched : list nat)
    (w : World) :
  number_at k (run_schedule k sched (replicate M AtGet, w)).2
  <= Z.max (number_at k w)
           (1999 + Z.of_nat (most_pending k sched (replicate M AtGet, w)))
  /\ (most_pending k sched (replicate M AtGet, w) <= M)%nat.
Proof.
  split.
  - pose proof (pending_run k sched (replicate M AtGet, w)) as H.
    cbn [fst snd] in H. rewrite pending_fresh in H. lia.
  - pose proof (most_pending_bound k sched (replicate M AtGet, w)) as H.
    cbn [fst] in H. now rewrite length_replicate in H.
Qed.

(** ** The window of a counter *)

(** A call that finds a live entry leaves its deadline as it is,
    whatever it decides and whichever call fails. *)
Lemma quota_keeps_deadline (k : string) (w : World) (e : memcache.Entry) :
  memcache.find (clock w) (cache w) k = Some e ->
  exists e', cache (quota_verdict k w).2 !! k = Some e'
             /\ memcache.deadline e' = memcache.deadline e.
Proof.
  intros Hfind. rewrite quota_verdict_cases.
  pose proof (find_inv _ _ _ _ Hfind) as [Hk _].
  pose proof (next_outage_cache w) as Hs1.
  pose proof (next_outage_clock w) as Hc1.
  destruct (next_outage w) as [[m|] w1]; cbn [fst snd] in *;
    [exists e; now rewrite Hs1|].
  rewrite Hfind.
  destruct (_ <? _); cbn [snd]; [|exists e; now rewrite Hs1].
  unfold mc_Increment, memcache.Increment.
  pose proof (next_outage_cache w1) as Hs2.
  pose proof (next_outage_clock w1) as Hc2.
  destruct (next_outage w1) as [[m|] w2]; cbn [fst snd] in *;
    [cbn; exists e; now rewrite Hs2, Hs1|].
  rewrite Hc2, Hc1, Hs2, Hs1, Hfind.
  destruct (memcache.number _); cbn; [|exists e; rewrite ?Hs2, ?Hs1; auto].
  rewrite lookup_insert_eq. eexists. split; reflexivity.
Qed.

(** Requests that start while the entry is alive find it, and none of
    their calls moves its deadline. *)
Lemma deadline_step (k : string) (d : Z) (c : Config) (i : nat) :
  (exists e, cache c.2 !! k = Some e /\ memcache.deadline e = Some d) ->
  clock c.2 < d ->
  Forall (fun pc => pc <> AtSet) c.1 ->
  (exists e, cache (sched_step k c i).2 !! k = Some e
             /\ memcache.deadline e = Some d)
  /\ clock (sched_step k c i).2 < d
  /\ Forall (fun pc => pc <> AtSet) (sched_step k c i).1.
Proof.
  intros (e & Hk & Hd) Hclock Hpcs. destruct c as [ps w]. cbn [fst snd] in *.
  unfold sched_step. cbn [fst snd].
  destruct (ps !! i) as [pc|] eqn:Hi; [|cbn [fst snd]; eauto].
  pose proof (Forall_lookup_1 _ _ _ _ Hpcs Hi) as Hpc.
  pose proof (next_outage_cache w) as Hs1.
  pose proof (next_outage_clock w) as Hc1.
  assert (Hfind : memcache.find (clock w) (cache w) k = Some e).
  { unfold memcache.find, memcache.fresh. rewrite Hk, Hd.
    destruct (Z.ltb_spec (clock w) d); [reflexivity|lia]. }
  destruct pc as [| | |v]; [| contradiction | |].
  - (* the read *)
    cbn [thread_step]. unfold mc_Get.
    destruct (next_outage w) as [f w1]. cbn [fst snd] in *.
    unfold memcache.Get. rewrite Hc1, Hs1, Hfind.
    destruct f as [m|].
    { rewrite bool_decide_eq_false_2 by discriminate. cbn [fst snd].
      split; [exists e; now rewrite Hs1|]. split; [lia|].
      apply Forall_insert; [assumption|discriminate]. }
    rewrite bool_decide_eq_false_2 by discriminate.
    destruct (_ <? _); cbn [fst snd];
      (split; [exists e; now rewrite Hs1|]; split; [lia|];
       apply Forall_insert; [assumption|discriminate]).
  - (* the increment *)
    cbn [thread_step]. unfold mc_Increment.
    destruct (next_outage w) as [f w1]. cbn [fst snd] in *.
    unfold memcache.Increment. rewrite Hc1, Hs1, Hfind.
    assert (Hdone : Forall (fun pc => pc <> AtSet) (<[i := Done Allowed]> ps))
      by (apply Forall_insert; [assumption|discriminate]).
    destruct f as [m|]; cbn [fst snd].
    { split; [exists e; cbn; rewrite ?Hs1; auto|]. split; [cbn; lia|exact Hdone]. }
    destruct (memcache.number (memcache.data e)) as [n|]; cbn [fst snd].
    + split; [|split; [cbn; lia|exact Hdone]].
      eexists. cbn [cache with_cache]. rewrite lookup_insert_eq.
      split; [reflexivity|exact Hd].
    + split; [exists e; cbn; rewrite ?Hs1; auto|]. split; [cbn; lia|exact Hdone].
  - (* done *)
    cbn [thread_step fst snd]. rewrite (list_insert_id _ _ _ Hi). eauto.
Qed.

Lemma deadline_run (k : string) (d : Z) (sched : list nat) :
  forall c : Config,
    (exists e, cache c.2 !! k = Some e /\ memcache.deadline e = Some d) ->
    clock c.2 < d ->
    Forall (fun pc => pc <> AtSet) c.1 ->
    exists e, cache (run_schedule k sched c).2 !! k = Some e
              /\ memcache.deadline e = Some d.
Proof.
  unfold run_schedule.
  induction sched as [|i sched IH]; intros c He Hc Hpcs; cbn [fold_left];
    [exact He|].
  destruct (deadline_step k d c i He Hc Hpcs) as (He' & Hc' & Hpcs').
  now apply IH.
Qed.

Lemma deadline_calls (k : string) (ts : list Z) (d : Z) :
  forall (w : World) (e : memcache.Entry),
    cache w !! k = Some e ->
    memcache.deadline e = Some d ->
    Forall (fun t => t < d) ts ->
    exists e', cache (quota_verdicts k ts w).2 !! k = Some e'
               /\ memcache.deadline e' = Some d.
Proof.
  induction ts as [|t ts IH]; intros w e Hk Hd Hts.
  { exists e. auto. }
  inversion Hts as [|? ? Ht Hts']; subst.
  cbn [quota_verdicts].
  assert (Hfind : memcache.find (clock (with_clock t w)) (cache (with_clock t w)) k
                  = Some e).
  { cbn [clock cache with_clock]. unfold memcache.find, memcache.fresh.
    rewrite Hk, Hd. destruct (Z.ltb_spec t d); [reflexivity|lia]. }
  destruct (quota_keeps_deadline k (with_clock t w) e Hfind) as (e1 & Hk1 & Hd1).
  destruct (quota_verdict k (with_clock t w)) as [v w1]. cbn [snd] in Hk1.
  rewrite Hd in Hd1.
  destruct (IH w1 e1 Hk1 Hd1 Hts') as (e2 & Hk2 & Hd2).
  destruct (quota_verdicts k ts w1) as [vs w2]. cbn [snd] in *.
  exists e2. auto.
Qed.

(** X16.  The window of a counter is fixed for the requests that find
    it.  Calls one after the other before the entry's deadline, and
    requests that start while the entry is alive, however their calls
    to the server are interleaved, leave the entry stored with the
    same deadline, be they allowed, denied or failed.  The one call
    that moves the window is the write of a request that had read a
    miss: when it gets through it stores "1" with a deadline 3600
    seconds after its own time, whatever is stored by then. *)
Theorem window_is_fixed (k : string) (d : Z) (w : World) (e : memcache.Entry) :
  cache w !! k = Some e ->
  memcache.deadline e = Some d ->
  (forall ts, Forall (fun t => t < d) ts ->
     exists e', cache (quota_verdicts k ts w).2 !! k = Some e'
                /\ memcache.deadline e' = Some d)
  /\ (clock w < d ->
      forall M sched,
        exists e', cache (run_schedule k sched (replicate M AtGet, w)).2 !! k
                   = Some e'
                   /\ memcache.deadline e' = Some d)
  /\ ((next_outage w).1 = None ->
      cache (thread_step k AtSet w).2 !! k
      = Some {| memcache.data := "1";
                memcache.deadline := Some (clock w + 3600) |}).
Proof.
  intros Hk Hd. split; [|split].
  - intros ts Hts. now apply (deadline_calls k ts d w e).
  - intros Hclock M sched. apply deadline_run; cbn [fst snd]; [eauto|lia|].
    apply Forall_replicate. discriminate.
  - intros Ho. cbn [thread_step]. unfold mc_Set.
    pose proof (next_outage_cache w) as Hs1.
    pose proof (next_outage_clock w) as Hc1.
    destruct (next_outage w) as [f w1]. cbn [fst snd] in *. subst f.
    cbn. rewrite lookup_insert_eq, Hc1. reflexivity.
Qed.

(** The counter "1999", to expire at 3600: three calls in a row, and
    two requests in flight, leave the deadline at 3600; the late write
    of a request that had missed, at time 5, puts it at 3605. *)
Lemma window_is_fixed_witness :
  ((forall ts, Forall (fun t => t < 3600) ts ->
      exists e', cache (quota_verdicts "192.0.2.7" ts (stored "1999")).2
                   !! "192.0.2.7" = Some e'
                 /\ memcache.deadline e' = Some 3600)
   /\ (clock (stored "1999") < 3600 ->
       forall M sched,
         exists e', cache (run_schedule "192.0.2.7" sched
                             (replicate M AtGet, stored "1999")).2 !! "192.0.2.7"
                    = Some e'
                    /\ memcache.deadline e' = Some 3600)
   /\ ((next_outage (stored "1999")).1 = None ->
       cache (thread_step "192.0.2.7" AtSet (stored "1999")).2 !! "192.0.2.7"
       = Some {| memcache.data := "1";
                 memcache.deadline := Some (clock (stored "1999") + 3600) |}))
  /\ cache (quota_verdicts "192.0.2.7" [10; 20; 3599] (stored "1999")).2
       !! "192.0.2.7"
     = Some {| memcache.data := "2000"; memcache.deadline := Some 3600 |}
  /\ cache (thread_step "192.0.2.7" AtSet (with_clock 5 (stored "1999"))).2
       !! "192.0.2.7"
     = Some {| memcache.data := "1"; memcache.deadline := Some 3605 |}.
Proof.
  split; [|split; reflexivity].
  apply (window_is_fixed "192.0.2.7" 3600 (stored "1999")
           {| memcache.data := "1999"; memcache.deadline := Some 3600 |}).
  - reflexivity.
  - reflexivity.
Defined.
